(** * School portal front end: chat client, drawing canvas, push handler

    A shallow embedding of the portal's browser code:
    - the main script: toast notifications, the chat form and its polling
      loop;
    - the [DrawingCanvas] class;
    - [service-worker.js]: the [push] listener.

    JavaScript strings are sequences of UTF-16 code units, handlers that
    [await] are split at the suspension point, and the browser objects the
    code talks to (DOM elements, timers, the 2D context, the notification
    API) are explicit state. *)

From Stdlib Require Import QArith.
From stdpp Require Import base option list strings gmap pretty.

Set Default Proof Using "Type".

(** ** JavaScript strings *)

Module JsString.

(** A string is the list of its UTF-16 code units. *)
Abbreviation jsstring := (list N).

(** An ASCII literal as a JavaScript string. *)
Definition js (s : string) : jsstring :=
  Ascii.N_of_ascii <$> String.list_ascii_of_string s.

Definition dquote : jsstring := [34%N].
Definition newline : jsstring := [10%N].

(** [!s] for a string: only the empty string is falsy. *)
Definition falsy (s : jsstring) : bool :=
  match s with [] => true | _ => false end.

(** WhiteSpace and LineTerminator code units of ECMAScript, the ones
    [String.prototype.trim] strips. *)
Definition is_white (c : N) : bool :=
  (   (c =? 9) || (c =? 10) || (c =? 11) || (c =? 12) || (c =? 13)
   || (c =? 32) || (c =? 160) || (c =? 5760)
   || ((8192 <=? c) && (c <=? 8202))
   || (c =? 8232) || (c =? 8233) || (c =? 8239) || (c =? 8287)
   || (c =? 12288) || (c =? 65279))%N.

Fixpoint trimStart (s : jsstring) : jsstring :=
  match s with
  | c :: rest => if is_white c then trimStart rest else s
  | [] => []
  end.

Definition trimEnd (s : jsstring) : jsstring :=
  reverse (trimStart (reverse s)).

Definition trim (s : jsstring) : jsstring := trimEnd (trimStart s).

(** A string made of white space only (the empty string included). *)
Definition blank (s : jsstring) : bool := forallb is_white s.

(** [encodeURIComponent] throws a [URIError] on a lone surrogate; this is
    the test it makes.  The encoded text itself stays symbolic. *)
Fixpoint well_formed_utf16 (s : jsstring) : bool :=
  match s with
  | [] => true
  | c :: rest =>
    if ((55296 <=? c) && (c <=? 56319))%N then
      match rest with
      | d :: rest' =>
        ((56320 <=? d) && (d <=? 57343))%N && well_formed_utf16 rest'
      | [] => false
      end
    else if ((56320 <=? c) && (c <=? 57343))%N then false
    else well_formed_utf16 rest
  end.

(** Comparison of strings by code units, the order of [<] on strings. *)
Fixpoint js_ltb (s t : jsstring) : bool :=
  match s, t with
  | _, [] => false
  | [], _ :: _ => true
  | c :: s', d :: t' =>
    if (c <? d)%N then true else if (d <? c)%N then false else js_ltb s' t'
  end.

(** *** Text serialisation of the DOM

    [escapeHtml] stores the text in a fresh [div] through [textContent] and
    reads [innerHTML] back.  The DOM serialises a text node by replacing
    [&], U+00A0, [<] and [>] by character references and nothing else. *)

Definition amp : N := 38.
Definition lt_sign : N := 60.
Definition gt_sign : N := 62.
Definition nbsp : N := 160.

Definition escape_unit (c : N) : jsstring :=
  if (c =? amp)%N then js "&amp;"
  else if (c =? nbsp)%N then js "&nbsp;"
  else if (c =? lt_sign)%N then js "&lt;"
  else if (c =? gt_sign)%N then js "&gt;"
  else [c].

Definition escapeHtml (text : jsstring) : jsstring :=
  text ≫= escape_unit.

(** The reader's side: what an HTML parser makes of the four references
    above inside element content.  [skip] counts the code units of a
    reference that has just been recognised and is still to be consumed. *)
Definition starts_with (p s : jsstring) : bool :=
  bool_decide (take (length p) s = p).

Fixpoint decode_refs (skip : nat) (s : jsstring) : jsstring :=
  match s with
  | [] => []
  | c :: rest =>
    match skip with
    | S k => decode_refs k rest
    | O =>
      if (c =? amp)%N then
        if starts_with (js "amp;") rest then amp :: decode_refs 4 rest
        else if starts_with (js "nbsp;") rest then nbsp :: decode_refs 5 rest
        else if starts_with (js "lt;") rest then lt_sign :: decode_refs 3 rest
        else if starts_with (js "gt;") rest then gt_sign :: decode_refs 3 rest
        else c :: decode_refs 0 rest
      else c :: decode_refs 0 rest
    end
  end.

Definition unescapeHtml (markup : jsstring) : jsstring := decode_refs 0 markup.


(** *** Small cases *)

Example trim_spaces : trim (js "  hello world ") = js "hello world".
Proof. reflexivity. Qed.

Example trim_tab_and_nbsp : trim ([9; 160] ++ js "x" ++ [10; 8232])%N = js "x".
Proof. reflexivity. Qed.

Example trim_only_white : trim (js "   ") = [].
Proof. reflexivity. Qed.

Example escape_tag : escapeHtml (js "<b>Tom & Jerry</b>")
  = js "&lt;b&gt;Tom &amp; Jerry&lt;/b&gt;".
Proof. reflexivity. Qed.

Example escape_leaves_quotes : escapeHtml (js "it's" ++ dquote) = js "it's" ++ dquote.
Proof. reflexivity. Qed.

Example escape_twice : escapeHtml (escapeHtml (js "&")) = js "&amp;amp;".
Proof. reflexivity. Qed.

Example unescape_stray_amp : unescapeHtml (js "a & b &lt; c") = js "a & b < c".
Proof. reflexivity. Qed.

Example lone_surrogate : well_formed_utf16 [104; 55357]%N = false.
Proof. reflexivity. Qed.

Example surrogate_pair : well_formed_utf16 [55357; 56832]%N = true.
Proof. reflexivity. Qed.

Example iso_order : js_ltb (js "2024-01-01T10:02:00") (js "2024-01-01T10:05:00") = true.
Proof. reflexivity. Qed.

(** *** Facts *)

Lemma trimStart_blank s : blank s = true → trimStart s = [].
Proof.
  induction s as [|c s IH]; simpl; [done|].
  intros [Hc Hs]%andb_prop. rewrite Hc. auto.
Qed.

Lemma trimStart_nil_blank s : trimStart s = [] → blank s = true.
Proof.
  induction s as [|c s IH]; simpl; [done|].
  destruct (is_white c); [auto | discriminate].
Qed.

Lemma trim_blank s : blank s = true → trim s = [].
Proof. intros H. unfold trim. by rewrite (trimStart_blank s H). Qed.

Lemma trimStart_suffix s : ∃ p, s = p ++ trimStart s ∧ blank p = true.
Proof.
  induction s as [|c s [p [Hp Hb]]]; simpl.
  - by exists [].
  - destruct (is_white c) eqn:Hc.
    + exists (c :: p). simpl. rewrite Hc, Hb. split; [by f_equal | done].
    + by exists [].
Qed.

Lemma blank_app s t : blank (s ++ t) = blank s && blank t.
Proof. apply forallb_app. Qed.

Lemma blank_reverse s : blank (reverse s) = blank s.
Proof.
  induction s as [|c s IH]; [done|].
  rewrite reverse_cons, blank_app, IH. simpl.
  rewrite andb_true_r. apply andb_comm.
Qed.

(** [trim] returns the empty string exactly on blank strings. *)
Lemma trim_nil_iff s : trim s = [] ↔ blank s = true.
Proof.
  split; [|apply trim_blank].
  unfold trim, trimEnd. intros H.
  apply (f_equal reverse) in H. rewrite reverse_involutive in H.
  simpl in H. apply trimStart_nil_blank in H.
  rewrite blank_reverse in H.
  destruct (trimStart_suffix s) as [p [Hp Hb]].
  rewrite Hp, blank_app, Hb, H. done.
Qed.


Lemma escapeHtml_app s t : escapeHtml (s ++ t) = escapeHtml s ++ escapeHtml t.
Proof. unfold escapeHtml. apply bind_app. Qed.








End JsString.

(** ** The chat client of the main script *)

Module Chat.
Import JsString.

(** *** Data *)

(** The [div] that [addMessage] builds. *)
Record Element := { className : jsstring; innerHTML : jsstring }.

(** The toast element as [showToast] leaves it when it calls [show]. *)
Record Toast := {
  toast_title : jsstring;
  toast_body : jsstring;
  toast_classes : list jsstring;
  toast_delay : N
}.

(** A message of the poll feed, [{text, from_student, timestamp}]. *)
Record Message := {
  text : jsstring;
  from_student : bool;
  timestamp : jsstring
}.

(** The two requests of the chat.  The poll URL carries [?since=] only for
    a non-empty [since]. *)
Inductive Request :=
| SendMessage (teacher_id message : jsstring)
| PollMessages (teacherId : jsstring) (since_param : option jsstring).

(** What [await fetch(..)] followed by [await response.json()] gives: the
    parsed body, or an exception (the request failed, or the body is not
    JSON, or the body has no properties to read). *)
Inductive Reply (A : Type) :=
| Failed
| Json (data : A).
Arguments Failed {A}.
Arguments Json {A} data.

(** Body of [/api/send_message]; [success] is the truth value of
    [data.success]. *)
Record SendData := { success : bool; error : option jsstring }.

(** Body of [/api/poll_messages]; [messages] is absent when the body has no
    such property. *)
Record PollData := { messages : option (list Message) }.

(** What a suspended handler has captured. *)
Inductive Continuation :=
| AwaitSend (message : jsstring)
| AwaitPoll (timer : positive).

(** Variables of one [startPolling] activation. *)
Record Poller := { teacherId : jsstring; since : jsstring }.

Record World := {
  (* value of [#message-input] *)
  input_value : jsstring;
  (* children of [#messages-container], [None] when the page has none *)
  container : option (list Element);
  (* [#empty-state] is on the page *)
  empty_state : bool;
  (* [#notification-toast] is on the page *)
  toast_el : bool;
  (* [#message-form] is on the page *)
  message_form : bool;
  (* submit listeners of the form, by captured [teacherId] *)
  submit_listeners : list jsstring;
  (* the global [pollInterval] *)
  pollInterval : option positive;
  (* [window.onNewMessageReceived] holds a function *)
  onNewMessageReceived : bool;
  (* [teacherId] and [since] of each [startPolling] call, by its timer *)
  closures : gmap positive Poller;
  (* timers registered with the browser and their delay in ms *)
  intervals : gmap positive N;
  (* next handle [setInterval] hands out *)
  next_handle : positive;
  (* suspended handlers, by position of their request in [network] *)
  pending : gmap nat Continuation;
  (* [new Date().toISOString()] at this moment *)
  clock : jsstring;
  (* requests issued so far, oldest first *)
  network : list Request;
  (* toasts shown so far *)
  toasts : list Toast;
  (* [console.error] lines *)
  console : list jsstring;
  (* calls of the new-message callback: text and teacher *)
  notified : list (jsstring * jsstring)
}.

Definition set_input_value (v : jsstring) (w : World) : World :=
  {| input_value := v; container := container w;
     empty_state := empty_state w; toast_el := toast_el w;
     message_form := message_form w; submit_listeners := submit_listeners w;
     pollInterval := pollInterval w;
     onNewMessageReceived := onNewMessageReceived w; closures := closures w;
     intervals := intervals w; next_handle := next_handle w;
     pending := pending w; clock := clock w; network := network w;
     toasts := toasts w; console := console w; notified := notified w |}.

Definition set_container (v : option (list Element)) (w : World) : World :=
  {| input_value := input_value w; container := v;
     empty_state := empty_state w; toast_el := toast_el w;
     message_form := message_form w; submit_listeners := submit_listeners w;
     pollInterval := pollInterval w;
     onNewMessageReceived := onNewMessageReceived w; closures := closures w;
     intervals := intervals w; next_handle := next_handle w;
     pending := pending w; clock := clock w; network := network w;
     toasts := toasts w; console := console w; notified := notified w |}.

Definition set_empty_state (v : bool) (w : World) : World :=
  {| input_value := input_value w; container := container w;
     empty_state := v; toast_el := toast_el w;
     message_form := message_form w; submit_listeners := submit_listeners w;
     pollInterval := pollInterval w;
     onNewMessageReceived := onNewMessageReceived w; closures := closures w;
     intervals := intervals w; next_handle := next_handle w;
     pending := pending w; clock := clock w; network := network w;
     toasts := toasts w; console := console w; notified := notified w |}.

Definition set_submit_listeners (v : list jsstring) (w : World) : World :=
  {| input_value := input_value w; container := container w;
     empty_state := empty_state w; toast_el := toast_el w;
     message_form := message_form w; submit_listeners := v;
     pollInterval := pollInterval w;
     onNewMessageReceived := onNewMessageReceived w; closures := closures w;
     intervals := intervals w; next_handle := next_handle w;
     pending := pending w; clock := clock w; network := network w;
     toasts := toasts w; console := console w; notified := notified w |}.

Definition set_pollInterval (v : option positive) (w : World) : World :=
  {| input_value := input_value w; container := container w;
     empty_state := empty_state w; toast_el := toast_el w;
     message_form := message_form w; submit_listeners := submit_listeners w;
     pollInterval := v; onNewMessageReceived := onNewMessageReceived w;
     closures := closures w; intervals := intervals w;
     next_handle := next_handle w; pending := pending w; clock := clock w;
     network := network w; toasts := toasts w; console := console w;
     notified := notified w |}.

Definition set_onNewMessageReceived (v : bool) (w : World) : World :=
  {| input_value := input_value w; container := container w;
     empty_state := empty_state w; toast_el := toast_el w;
     message_form := message_form w; submit_listeners := submit_listeners w;
     pollInterval := pollInterval w; onNewMessageReceived := v;
     closures := closures w; intervals := intervals w;
     next_handle := next_handle w; pending := pending w; clock := clock w;
     network := network w; toasts := toasts w; console := console w;
     notified := notified w |}.

Definition set_closures (v : gmap positive Poller) (w : World) : World :=
  {| input_value := input_value w; container := container w;
     empty_state := empty_state w; toast_el := toast_el w;
     message_form := message_form w; submit_listeners := submit_listeners w;
     pollInterval := pollInterval w;
     onNewMessageReceived := onNewMessageReceived w; closures := v;
     intervals := intervals w; next_handle := next_handle w;
     pending := pending w; clock := clock w; network := network w;
     toasts := toasts w; console := console w; notified := notified w |}.

Definition set_intervals (v : gmap positive N) (w : World) : World :=
  {| input_value := input_value w; container := container w;
     empty_state := empty_state w; toast_el := toast_el w;
     message_form := message_form w; submit_listeners := submit_listeners w;
     pollInterval := pollInterval w;
     onNewMessageReceived := onNewMessageReceived w; closures := closures w;
     intervals := v; next_handle := next_handle w; pending := pending w;
     clock := clock w; network := network w; toasts := toasts w;
     console := console w; notified := notified w |}.

Definition set_next_handle (v : positive) (w : World) : World :=
  {| input_value := input_value w; container := container w;
     empty_state := empty_state w; toast_el := toast_el w;
     message_form := message_form w; submit_listeners := submit_listeners w;
     pollInterval := pollInterval w;
     onNewMessageReceived := onNewMessageReceived w; closures := closures w;
     intervals := intervals w; next_handle := v; pending := pending w;
     clock := clock w; network := network w; toasts := toasts w;
     console := console w; notified := notified w |}.

Definition set_pending (v : gmap nat Continuation) (w : World) : World :=
  {| input_value := input_value w; container := container w;
     empty_state := empty_state w; toast_el := toast_el w;
     message_form := message_form w; submit_listeners := submit_listeners w;
     pollInterval := pollInterval w;
     onNewMessageReceived := onNewMessageReceived w; closures := closures w;
     intervals := intervals w; next_handle := next_handle w; pending := v;
     clock := clock w; network := network w; toasts := toasts w;
     console := console w; notified := notified w |}.

Definition set_clock (v : jsstring) (w : World) : World :=
  {| input_value := input_value w; container := container w;
     empty_state := empty_state w; toast_el := toast_el w;
     message_form := message_form w; submit_listeners := submit_listeners w;
     pollInterval := pollInterval w;
     onNewMessageReceived := onNewMessageReceived w; closures := closures w;
     intervals := intervals w; next_handle := next_handle w;
     pending := pending w; clock := v; network := network w;
     toasts := toasts w; console := console w; notified := notified w |}.

Definition set_network (v : list Request) (w : World) : World :=
  {| input_value := input_value w; container := container w;
     empty_state := empty_state w; toast_el := toast_el w;
     message_form := message_form w; submit_listeners := submit_listeners w;
     pollInterval := pollInterval w;
     onNewMessageReceived := onNewMessageReceived w; closures := closures w;
     intervals := intervals w; next_handle := next_handle w;
     pending := pending w; clock := clock w; network := v;
     toasts := toasts w; console := console w; notified := notified w |}.

Definition set_toasts (v : list Toast) (w : World) : World :=
  {| input_value := input_value w; container := container w;
     empty_state := empty_state w; toast_el := toast_el w;
     message_form := message_form w; submit_listeners := submit_listeners w;
     pollInterval := pollInterval w;
     onNewMessageReceived := onNewMessageReceived w; closures := closures w;
     intervals := intervals w; next_handle := next_handle w;
     pending := pending w; clock := clock w; network := network w;
     toasts := v; console := console w; notified := notified w |}.

Definition set_console (v : list jsstring) (w : World) : World :=
  {| input_value := input_value w; container := container w;
     empty_state := empty_state w; toast_el := toast_el w;
     message_form := message_form w; submit_listeners := submit_listeners w;
     pollInterval := pollInterval w;
     onNewMessageReceived := onNewMessageReceived w; closures := closures w;
     intervals := intervals w; next_handle := next_handle w;
     pending := pending w; clock := clock w; network := network w;
     toasts := toasts w; console := v; notified := notified w |}.

Definition set_notified (v : list (jsstring * jsstring)) (w : World) : World :=
  {| input_value := input_value w; container := container w;
     empty_state := empty_state w; toast_el := toast_el w;
     message_form := message_form w; submit_listeners := submit_listeners w;
     pollInterval := pollInterval w;
     onNewMessageReceived := onNewMessageReceived w; closures := closures w;
     intervals := intervals w; next_handle := next_handle w;
     pending := pending w; clock := clock w; network := network w;
     toasts := toasts w; console := console w; notified := v |}.

(** Evaluates updates of a world, innermost first. *)
Ltac unfold_setters :=
  cbv beta iota delta
    [set_input_value set_container set_empty_state set_submit_listeners
     set_pollInterval set_onNewMessageReceived set_closures set_intervals
     set_next_handle set_pending set_clock set_network set_toasts
     set_console set_notified
     input_value container empty_state toast_el message_form
     submit_listeners pollInterval onNewMessageReceived closures intervals
     next_handle pending clock network toasts console notified].

(** *** Operations *)

Section Handlers.

(** [formatTimeSGT] parses its argument with [Date], shifts it to UTC+8
    and prints zero-padded hours and minutes.  That date arithmetic is the
    platform's and is taken as given. *)
Variable sgt_hhmm : jsstring → jsstring.

Definition formatTimeSGT (timestamp : option jsstring) (w : World) : jsstring :=
  let timestamp :=
    match timestamp with
    | Some t => if falsy t then clock w else t
    | None => clock w
    end in
  sgt_hhmm timestamp.

(** The template literal of [addMessage], white space included. *)
Definition message_markup (content timeStr : jsstring) : jsstring :=
  newline ++ replicate 8 32%N
  ++ js "<div class=" ++ dquote ++ js "message-content" ++ dquote ++ js ">"
  ++ content ++ js "</div>"
  ++ newline ++ replicate 8 32%N
  ++ js "<div class=" ++ dquote ++ js "message-time" ++ dquote ++ js ">"
  ++ timeStr ++ js "</div>"
  ++ newline ++ replicate 4 32%N.

Definition msgDiv (text : jsstring) (isSent : bool) (timeStr : jsstring) : Element :=
  {| className := js "message " ++ (if isSent then js "sent" else js "received");
     innerHTML := message_markup (escapeHtml text) timeStr |}.

(** [addMessage(text, isSent, timestamp = null)]; the scroll position is
    not part of the state. *)
Definition addMessage (text : jsstring) (isSent : bool)
    (timestamp : option jsstring) (w : World) : World :=
  match container w with
  | None => w
  | Some kids =>
    set_container
      (Some (kids ++ [msgDiv text isSent (formatTimeSGT timestamp w)])) w
  end.

Definition toast_style (type : jsstring) : list jsstring :=
  if bool_decide (type = js "success") then [js "bg-success"; js "text-white"]
  else if bool_decide (type = js "danger") || bool_decide (type = js "error")
  then [js "bg-danger"; js "text-white"]
  else if bool_decide (type = js "warning") then [js "bg-warning"]
  else [].

Definition showToast (title message type : jsstring) (w : World) : World :=
  if toast_el w then
    set_toasts
      (toasts w ++ [{| toast_title := title; toast_body := message;
                       toast_classes := js "toast" :: toast_style type;
                       toast_delay := 5000 |}]) w
  else w.

(** [if (emptyState) emptyState.remove()] *)
Definition remove_empty_state (w : World) : World := set_empty_state false w.

(** [fetch] issues the request at once; the handler is suspended until the
    reply settles. *)
Definition fetch (req : Request) (k : Continuation) (w : World) : World :=
  set_pending (<[length (network w) := k]> (pending w))
    (set_network (network w ++ [req]) w).

(** [a || b] on an optional string. *)
Definition or_else (a : option jsstring) (b : jsstring) : jsstring :=
  match a with
  | Some s => if falsy s then b else s
  | None => b
  end.

(** The submit listener, up to its first [await]. *)
Definition submit_begin (teacherId : jsstring) (w : World) : World :=
  let message := trim (input_value w) in
  if falsy message then w
  else fetch (SendMessage teacherId message) (AwaitSend message) w.

(** The submit listener, from the reply on. *)
Definition submit_resume (message : jsstring) (r : Reply SendData)
    (w : World) : World :=
  match r with
  | Json data =>
    if success data then
      remove_empty_state (set_input_value [] (addMessage message true None w))
    else
      showToast (js "Error")
        (or_else (error data) (js "Failed to send message")) (js "danger") w
  | Failed =>
    showToast (js "Error") (js "Failed to send message") (js "danger") w
  end.

(** The URL of a poll, [None] when [encodeURIComponent] throws. *)
Definition poll_request (teacherId since : jsstring) : option Request :=
  if falsy since then Some (PollMessages teacherId None)
  else if well_formed_utf16 since
  then Some (PollMessages teacherId (Some since))
  else None.

Definition console_error (line : jsstring) (w : World) : World :=
  set_console (console w ++ [line]) w.

(** [since = ts] inside an activation. *)
Definition advance (ts : jsstring) (c : Poller) : Poller :=
  {| teacherId := teacherId c; since := ts |}.

Definition set_since (h : positive) (ts : jsstring) (w : World) : World :=
  set_closures (alter (advance ts) h (closures w)) w.

(** The timer callback of [startPolling], up to its first [await]. *)
Definition tick_begin (h : positive) (w : World) : World :=
  match closures w !! h with
  | None => w
  | Some c =>
    match poll_request (teacherId c) (since c) with
    | Some req => fetch req (AwaitPoll h) w
    | None => console_error (js "Polling error:") w
    end
  end.

(** The body of [data.messages.forEach].  The callback is the page's own
    function: its calls are recorded, and it is taken to return. *)
Definition on_message (h : positive) (teacher : jsstring)
    (w : World) (msg : Message) : World :=
  let w :=
    if from_student msg then w
    else
      let w := addMessage (text msg) false (Some (timestamp msg)) w in
      if onNewMessageReceived w
      then set_notified (notified w ++ [(text msg, teacher)]) w
      else w in
  set_since h (timestamp msg) w.

(** The timer callback, from the reply on. *)
Definition tick_resume (h : positive) (r : Reply PollData) (w : World) : World :=
  match r with
  | Failed => console_error (js "Polling error:") w
  | Json data =>
    match messages data, closures w !! h with
    | Some (m :: ms), Some c =>
      foldl (on_message h (teacherId c)) (remove_empty_state w) (m :: ms)
    | _, _ => w
    end
  end.

Definition startPolling (teacherId : jsstring) (lastTime : option jsstring)
    (w : World) : World :=
  let since := or_else lastTime [] in
  let h := next_handle w in
  set_pollInterval (Some h)
    (set_next_handle (Pos.succ h)
      (set_intervals (<[h := 3000%N]> (intervals w))
        (set_closures
          (<[h := {| teacherId := teacherId; since := since |}]> (closures w))
          w))).

Definition clearInterval (h : positive) (w : World) : World :=
  set_intervals (delete h (intervals w)) w.

Definition stopPolling (w : World) : World :=
  match pollInterval w with
  | Some h => set_pollInterval None (clearInterval h w)
  | None => w
  end.

Definition initChat (teacherId : jsstring) (lastTime : option jsstring)
    (w : World) : World :=
  if negb (message_form w) || negb (bool_decide (is_Some (container w)))
  then w
  else
    startPolling teacherId lastTime
      (set_submit_listeners (submit_listeners w ++ [teacherId]) w).

(** *** The page as a transition system *)

Inductive Event :=
| Edit (value : jsstring)           (* the user edits the input field *)
| Clock (now : jsstring)            (* time passes *)
| SetCallback (registered : bool)   (* the page assigns the callback *)
| InitChat (teacherId : jsstring) (lastTime : option jsstring)
| Submit                            (* the form is submitted *)
| SendSettled (rid : nat) (r : Reply SendData)
| Timer (h : positive)              (* the interval of timer [h] has elapsed *)
| PollSettled (rid : nat) (r : Reply PollData)
| StopPolling
| BeforeUnload.

Definition step (w : World) (ev : Event) : World :=
  match ev with
  | Edit value => set_input_value value w
  | Clock now => set_clock now w
  | SetCallback b => set_onNewMessageReceived b w
  | InitChat teacherId lastTime => initChat teacherId lastTime w
  | Submit => foldl (λ w t, submit_begin t w) w (submit_listeners w)
  | SendSettled rid r =>
    match pending w !! rid with
    | Some (AwaitSend message) =>
      submit_resume message r (set_pending (delete rid (pending w)) w)
    | _ => w
    end
  | Timer h =>
    match intervals w !! h with
    | Some _ => tick_begin h w
    | None => w
    end
  | PollSettled rid r =>
    match pending w !! rid with
    | Some (AwaitPoll h) =>
      tick_resume h r (set_pending (delete rid (pending w)) w)
    | _ => w
    end
  | StopPolling | BeforeUnload => stopPolling w
  end.

Definition run (w : World) (evs : list Event) : World := foldl step w evs.

(** A page as the server renders it, before any script has run. *)
Definition fresh_page (kids : list Element) (now : jsstring) : World :=
  {| input_value := []; container := Some kids; empty_state := false;
     toast_el := true; message_form := true; submit_listeners := [];
     pollInterval := None; onNewMessageReceived := false;
     closures := ∅; intervals := ∅; next_handle := 1%positive;
     pending := ∅; clock := now; network := []; toasts := [];
     console := []; notified := [] |}.

Definition is_poll (r : Request) : bool :=
  match r with PollMessages _ _ => true | SendMessage _ _ => false end.

(** Both states of the client's state machine: the timer the script holds
    in [pollInterval] is the only one registered. *)
Definition tracked (w : World) : Prop :=
  map_Forall (λ h _, pollInterval w = Some h) (intervals w).

Definition js_max (s t : jsstring) : jsstring := if js_ltb s t then t else s.

Definition max_timestamp (ms : list Message) : jsstring :=
  foldr js_max [] (timestamp <$> ms).


(** *** The poll loop *)

(** Messages of the counterpart, the ones the loop renders. *)
Definition incoming (ms : list Message) : list Message :=
  filter (λ m, from_student m = false) ms.

Definition received_bubble (w : World) (m : Message) : Element :=
  msgDiv (text m) false (formatTimeSGT (Some (timestamp m)) w).

(** The world the loop leaves, in closed form. *)
Definition after_messages (h : positive) (teacher : jsstring)
    (ms : list Message) (w : World) : World :=
  set_closures
    (match last ms with
     | Some m => alter (advance (timestamp m)) h (closures w)
     | None => closures w
     end)
    (set_notified
      (notified w ++
        (if onNewMessageReceived w
         then (λ m, (text m, teacher)) <$> incoming ms else []))
      (set_container
        ((λ kids, kids ++ (received_bubble w <$> incoming ms)) <$> container w)
        w)).

Lemma alter_advance ts1 ts2 h (cl : gmap positive Poller) :
  alter (advance ts2) h (alter (advance ts1) h cl) = alter (advance ts2) h cl.
Proof.
  rewrite alter_alter_eq. by apply alter_ext.
Qed.

Lemma incoming_cons m ms :
  incoming (m :: ms) = if from_student m then incoming ms else m :: incoming ms.
Proof.
  unfold incoming. rewrite filter_cons.
  destruct (from_student m); by case_decide.
Qed.

Lemma foldl_on_message h teacher ms w :
  foldl (on_message h teacher) w ms = after_messages h teacher ms w.
Proof.
  revert w. induction ms as [|m ms IH]; intros w.
  - destruct w as [? [kids|] ? ? ? ? ? [] ? ? ? ? ? ? ? ? ?];
      unfold after_messages; unfold_setters; simpl; by rewrite ?app_nil_r.
  - simpl foldl. rewrite IH. clear IH.
    unfold after_messages. rewrite incoming_cons, last_cons.
    unfold on_message, addMessage, set_since, received_bubble, formatTimeSGT.
    destruct (from_student m);
      destruct w as [? [kids|] ? ? ? ? ? [] ? ? ? ? ? ? ? ? ?];
      unfold_setters; simpl;
      destruct (last ms); simpl;
      by rewrite ?alter_advance, <- ?app_assoc.
Qed.

Lemma on_message_closures h teacher w msg :
  closures (on_message h teacher w msg)
  = alter (advance (timestamp msg)) h (closures w).
Proof.
  unfold on_message, addMessage, set_since.
  destruct (from_student msg); [done|].
  destruct w as [? [kids|] ? ? ? ? ? [] ? ? ? ? ? ? ? ? ?]; done.
Qed.

Lemma tick_resume_feed h c m ms w :
  closures w !! h = Some c →
  tick_resume h (Json {| messages := Some (m :: ms) |}) w
  = after_messages h (teacherId c) (m :: ms) (remove_empty_state w).
Proof.
  intros Hc. unfold tick_resume. simpl messages. rewrite Hc.
  apply foldl_on_message.
Qed.

Lemma tick_begin_request h c w :
  closures w !! h = Some c →
  network (tick_begin h w)
  = network w ++ option_list (poll_request (teacherId c) (since c)).
Proof.
  intros Hc. unfold tick_begin. rewrite Hc.
  destruct (poll_request _ _); simpl; by rewrite ?app_nil_r.
Qed.

(** C1.  On a page with the transcript element, a poll tick of a running
    timer that returns a non-empty feed appends to the transcript exactly the messages whose [from_student] is false, as
    "received" bubbles and in feed order, calls the callback for exactly
    those when one is registered, and assigns every message's timestamp to
    [since] whatever its origin, so that the next poll asks for what follows
    the last of them.  For the feed of a teacher message at 10:00 followed
    by a student message at 10:01 one bubble is appended, with the text of
    the first, and the next poll carries [since=10:01]. *)
Theorem poll_tick_renders_incoming h c m ms w kids :
  closures w !! h = Some c →
  container w = Some kids →
  let feed := m :: ms in
  let w' := tick_resume h (Json {| messages := Some feed |}) w in
  container w' = Some (kids ++ (received_bubble w <$> incoming feed))
  ∧ Forall (λ el, className el = js "message received")
      (received_bubble w <$> incoming feed)
  ∧ notified w'
    = notified w ++
      (if onNewMessageReceived w
       then (λ m, (text m, teacherId c)) <$> incoming feed else [])
  ∧ (∀ w0 msg,
      closures (on_message h (teacherId c) w0 msg)
      = alter (advance (timestamp msg)) h (closures w0))
  ∧ (∃ m_last,
      last feed = Some m_last
      ∧ closures w' !! h = Some (advance (timestamp m_last) c)
      ∧ network (tick_begin h w')
        = network w ++
          option_list (poll_request (teacherId c) (timestamp m_last)))
  ∧ (∀ t1 t2,
      let feed2 :=
        [ {| text := t1; from_student := false; timestamp := js "10:00" |};
          {| text := t2; from_student := true; timestamp := js "10:01" |} ] in
      let w2 := tick_resume h (Json {| messages := Some feed2 |}) w in
      container w2 = Some (kids ++ [msgDiv t1 false (sgt_hhmm (js "10:00"))])
      ∧ network (tick_begin h w2)
        = network w ++ [PollMessages (teacherId c) (Some (js "10:01"))]).
Proof.
  intros Hc Hk feed w'.
  assert (Hw' : w' = after_messages h (teacherId c) feed (remove_empty_state w))
    by (by apply tick_resume_feed).
  split_and!.
  - rewrite Hw'. simpl. by rewrite Hk.
  - apply Forall_fmap, Forall_forall. by intros.
  - by rewrite Hw'.
  - intros. apply on_message_closures.
  - assert (is_Some (last feed)) as [m_last Hl] by (by apply last_is_Some).
    exists m_last. split; [done|].
    assert (Hh : closures w' !! h = Some (advance (timestamp m_last) c)).
    { rewrite Hw'. unfold after_messages. rewrite Hl. simpl.
      by rewrite lookup_alter_eq, Hc. }
    split; [done|].
    rewrite (tick_begin_request h _ w' Hh). by rewrite Hw'.
  - intros t1 t2 feed2 w2.
    assert (Hw2 : w2 = after_messages h (teacherId c) feed2 (remove_empty_state w))
      by (by apply tick_resume_feed).
    split.
    + rewrite Hw2. simpl. by rewrite Hk.
    + assert (Hh : closures w2 !! h = Some (advance (js "10:01") c)).
      { rewrite Hw2. simpl. by rewrite lookup_alter_eq, Hc. }
      rewrite (tick_begin_request h _ w2 Hh). by rewrite Hw2.
Qed.

(** C4.  After a tick with a non-empty feed [since] is the timestamp of
    the last element of the array, whatever the order of the timestamps:
    for a feed that ends on an older message, [since] ends below the
    greatest timestamp of the feed. *)
Theorem since_is_last_timestamp h c ms m w :
  closures w !! h = Some c →
  let w' := tick_resume h (Json {| messages := Some (ms ++ [m]) |}) w in
  since <$> closures w' !! h = Some (timestamp m)
  ∧ (∀ t1 t2,
      let feed :=
        [ {| text := t1; from_student := false; timestamp := js "10:05" |};
          {| text := t2; from_student := false; timestamp := js "10:02" |} ] in
      let w2 := tick_resume h (Json {| messages := Some feed |}) w in
      since <$> closures w2 !! h = Some (js "10:02")
      ∧ max_timestamp feed = js "10:05"
      ∧ js_ltb (js "10:02") (max_timestamp feed) = true).
Proof.
  intros Hc w'. split.
  - subst w'. destruct (ms ++ [m]) as [|m0 feed] eqn:E.
    { by destruct ms. }
    rewrite (tick_resume_feed h c m0 feed w Hc).
    unfold after_messages. rewrite <- E, last_snoc. simpl.
    by rewrite lookup_alter_eq, Hc.
  - intros t1 t2 feed w2. subst w2 feed.
    rewrite (tick_resume_feed h c _ _ w Hc).
    split_and!; [|done..].
    simpl. by rewrite lookup_alter_eq, Hc.
Qed.

(** Only the console sees a failed poll. *)
Lemma tick_begin_console_error h w :
  tick_begin h (console_error (js "Polling error:") w)
  = console_error (js "Polling error:") (tick_begin h w).
Proof.
  unfold tick_begin, fetch, console_error. destruct w. unfold_setters.
  destruct (_ !! h) as [c|]; [|reflexivity].
  destruct (poll_request _ _); reflexivity.
Qed.

(** C6.  A poll whose request or body fails leaves one line on the console
    and nothing else: no toast, the transcript and [since] as they were,
    the timer registered with the same delay, and the next tick doing what
    it would have done without the failure. *)
Theorem poll_failure_is_silent h w :
  let w' := tick_resume h Failed w in
  console w' = console w ++ [js "Polling error:"]
  ∧ toasts w' = toasts w
  ∧ container w' = container w
  ∧ closures w' = closures w
  ∧ intervals w' = intervals w
  ∧ pollInterval w' = pollInterval w
  ∧ network w' = network w
  ∧ notified w' = notified w
  ∧ input_value w' = input_value w
  ∧ step w' (Timer h) = console_error (js "Polling error:") (step w (Timer h)).
Proof.
  simpl. split_and!; try done.
  destruct (intervals w !! h); [|done].
  apply tick_begin_console_error.
Qed.

(** *** Sending *)

(** With one listener on the form a submit event is one run of it, and the
    reply resumes the run that issued the request. *)
Lemma step_Submit_single teacherId w :
  submit_listeners w = [teacherId] → step w Submit = submit_begin teacherId w.
Proof. intros E. simpl. by rewrite E. Qed.

Lemma step_SendSettled rid message r w :
  pending w !! rid = Some (AwaitSend message) →
  step w (SendSettled rid r)
  = submit_resume message r (set_pending (delete rid (pending w)) w).
Proof. intros E. simpl. by rewrite E. Qed.

Lemma falsy_trim s : falsy (trim s) = blank s.
Proof.
  destruct (blank s) eqn:Hb.
  - by rewrite (trim_blank s Hb).
  - destruct (trim s) eqn:Ht; [|done].
    apply trim_nil_iff in Ht. congruence.
Qed.

(** C2.  A submit whose input is not blank issues exactly one request,
    carrying the trimmed text, and suspends; when the reply reports success
    (in [w'], a state of the page with the transcript element) exactly one
    "sent" bubble with that text is appended and the input is emptied,
    without any further request.  A submit on a blank input changes
    nothing. *)
Theorem send_one_request_one_bubble teacherId w w' kids err :
  container w' = Some kids →
  let message := trim (input_value w) in
  let w1 := submit_begin teacherId w in
  let w2 := submit_resume message (Json {| success := true; error := err |}) w' in
  if blank (input_value w) then w1 = w
  else
    network w1 = network w ++ [SendMessage teacherId message]
    ∧ pending w1 !! length (network w) = Some (AwaitSend message)
    ∧ container w1 = container w
    ∧ input_value w1 = input_value w
    ∧ container w2 = Some (kids ++ [msgDiv message true (formatTimeSGT None w')])
    ∧ className (msgDiv message true (formatTimeSGT None w')) = js "message sent"
    ∧ input_value w2 = []
    ∧ network w2 = network w'
    ∧ pending w2 = pending w'.
Proof.
  intros Hk message w1 w2. subst w1 w2. unfold submit_begin.
  fold message. rewrite <- (falsy_trim (input_value w)). fold message.
  destruct (falsy message); [done|].
  split_and!; try done.
  - simpl. apply lookup_insert_eq.
  - simpl. unfold addMessage. by rewrite Hk.
  - simpl. unfold addMessage. by rewrite Hk.
  - simpl. unfold addMessage. by rewrite Hk.
Qed.

Definition send_failed (r : Reply SendData) : bool :=
  match r with
  | Failed => true
  | Json data => negb (success data)
  end.

Definition send_error_text (r : Reply SendData) : jsstring :=
  match r with
  | Failed => js "Failed to send message"
  | Json data => or_else (error data) (js "Failed to send message")
  end.

(** C3.  When a send fails, by exception or by a body whose [success] is
    false, a page that carries the toast element shows one error toast (the server's text when it sent
    one) and that is the whole effect: the input keeps its content, the
    transcript gets no bubble, no request is issued and no handler is left
    suspended that could issue one. *)
Theorem failed_send_only_toasts message r w :
  toast_el w = true →
  send_failed r = true →
  let w' := submit_resume message r w in
  let t := {| toast_title := js "Error"; toast_body := send_error_text r;
              toast_classes := [js "toast"; js "bg-danger"; js "text-white"];
              toast_delay := 5000 |} in
  w' = set_toasts (toasts w ++ [t]) w
  ∧ toasts w' = toasts w ++ [t]
  ∧ input_value w' = input_value w
  ∧ container w' = container w
  ∧ network w' = network w
  ∧ pending w' = pending w
  ∧ intervals w' = intervals w.
Proof.
  intros Ht Hr w' t.
  assert (Hw' : w' = set_toasts (toasts w ++ [t]) w).
  { subst w' t. destruct r as [|[[] e]]; try discriminate;
      simpl; unfold showToast; by rewrite Ht. }
  split; [done|]. by rewrite Hw'.
Qed.

(** *** What each handler leaves alone *)

Definition not_poll (r : Request) : Prop := is_poll r = false.

(** [w'] has issued no poll beyond those of [w]. *)
Definition no_new_poll (w w' : World) : Prop :=
  ∃ rest, network w' = network w ++ rest ∧ Forall not_poll rest.

Lemma no_new_poll_refl w w' : network w' = network w → no_new_poll w w'.
Proof. intros E. exists []. by rewrite app_nil_r. Qed.

Lemma no_new_poll_trans w1 w2 w3 :
  no_new_poll w1 w2 → no_new_poll w2 w3 → no_new_poll w1 w3.
Proof.
  intros (r1 & E1 & F1) (r2 & E2 & F2). exists (r1 ++ r2).
  split; [by rewrite E2, E1, app_assoc | by apply Forall_app].
Qed.

(** A transition that touches neither the timers nor the transcript. *)
Definition quiet (w w' : World) : Prop :=
  intervals w' = intervals w
  ∧ pollInterval w' = pollInterval w
  ∧ container w' = container w
  ∧ no_new_poll w w'.

Lemma quiet_refl w : quiet w w.
Proof. repeat split. by apply no_new_poll_refl. Qed.

Lemma quiet_trans w1 w2 w3 : quiet w1 w2 → quiet w2 w3 → quiet w1 w3.
Proof.
  intros (?&?&?&?) (?&?&?&?). repeat split; try congruence.
  by eapply no_new_poll_trans.
Qed.

Lemma submit_begin_quiet t w : quiet w (submit_begin t w).
Proof.
  unfold submit_begin. destruct (falsy _); [apply quiet_refl|].
  repeat split. exists [SendMessage t (trim (input_value w))].
  split; [done|]. by apply Forall_singleton.
Qed.

Lemma submit_all_quiet ts w :
  quiet w (foldl (λ w t, submit_begin t w) w ts).
Proof.
  revert w. induction ts as [|t ts IH]; intros w; [apply quiet_refl|].
  simpl. eapply quiet_trans; [apply submit_begin_quiet | apply IH].
Qed.

Definition rendered (el : Element) : Prop :=
  ∃ text isSent timeStr, el = msgDiv text isSent timeStr.

(** [w'] has the transcript of [w] followed by bubbles of [addMessage]. *)
Definition transcript_grows (w w' : World) : Prop :=
  match container w with
  | Some kids =>
    ∃ added, container w' = Some (kids ++ added) ∧ Forall rendered added
  | None => container w' = None
  end.

Lemma transcript_same w w' : container w' = container w → transcript_grows w w'.
Proof.
  unfold transcript_grows. intros E. destruct (container w) as [kids|]; [|done].
  exists []. by rewrite app_nil_r.
Qed.

Lemma addMessage_grows text isSent ts w :
  transcript_grows w (addMessage text isSent ts w).
Proof.
  unfold transcript_grows, addMessage.
  destruct (container w) as [kids|] eqn:E; [|done].
  eexists. split; [done|]. apply Forall_singleton. by eexists _, _, _.
Qed.

Lemma submit_resume_frame message r w :
  let w' := submit_resume message r w in
  intervals w' = intervals w ∧ pollInterval w' = pollInterval w
  ∧ network w' = network w ∧ transcript_grows w w'.
Proof.
  destruct r as [|[[] e]]; simpl; unfold showToast;
    try (destruct (toast_el w); split_and!; try done; by apply transcript_same).
  split_and!; try (unfold addMessage; by destruct (container w)).
  pose proof (addMessage_grows message true None w) as H.
  unfold transcript_grows in *. by destruct (container w).
Qed.

Lemma tick_resume_frame h r w :
  let w' := tick_resume h r w in
  intervals w' = intervals w ∧ pollInterval w' = pollInterval w
  ∧ network w' = network w ∧ transcript_grows w w'.
Proof.
  assert (Hsame : ∀ w0 : World, w0 = w →
    intervals w0 = intervals w ∧ pollInterval w0 = pollInterval w
    ∧ network w0 = network w ∧ transcript_grows w w0).
  { intros w0 ->. split_and!; try done. by apply transcript_same. }
  destruct r as [|[feed]]; cbv zeta.
  { split_and!; try done. by apply transcript_same. }
  destruct feed as [[|m ms]|]; try (by apply Hsame).
  destruct (closures w !! h) as [c|] eqn:Hc.
  2:{ apply Hsame. unfold tick_resume. simpl messages. by rewrite Hc. }
  rewrite (tick_resume_feed h c m ms w Hc).
  unfold after_messages, transcript_grows.
  generalize (incoming (m :: ms)). intros fresh.
  split_and!; try done. simpl.
  destruct (container w) as [kids|]; [|done].
  eexists. split; [done|].
  apply Forall_fmap, Forall_forall. intros x _. by eexists _, _, _.
Qed.

Lemma tick_begin_frame h w :
  let w' := tick_begin h w in
  intervals w' = intervals w ∧ pollInterval w' = pollInterval w
  ∧ container w' = container w.
Proof.
  unfold tick_begin. destruct (closures w !! h); [|done].
  by destruct (poll_request _ _).
Qed.

Lemma stopPolling_frame w :
  let w' := stopPolling w in
  network w' = network w ∧ container w' = container w
  ∧ pollInterval w' = None
  ∧ ∀ h, intervals w' !! h = if decide (pollInterval w = Some h)
                             then None else intervals w !! h.
Proof.
  unfold stopPolling. destruct (pollInterval w) as [h0|] eqn:E; simpl.
  - split_and!; try done. intros h. case_decide; simplify_eq.
    + apply lookup_delete_eq.
    + apply lookup_delete_ne. congruence.
  - split_and!; try done; intros h; by case_decide.
Qed.

(** Every bubble the page ever gets comes from [addMessage]. *)
Lemma step_transcript ev w : transcript_grows w (step w ev).
Proof.
  destruct ev as [v|now|b|t l| |rid r|h|rid r| |]; simpl;
    try (by apply transcript_same).
  - unfold initChat. destruct (_ || _); by apply transcript_same.
  - apply transcript_same, submit_all_quiet.
  - destruct (pending w !! rid) as [[m|h]|]; try (by apply transcript_same).
    apply (submit_resume_frame m r (set_pending _ w)).
  - destruct (intervals w !! h); [|by apply transcript_same].
    apply transcript_same, tick_begin_frame.
  - destruct (pending w !! rid) as [[m|h]|]; try (by apply transcript_same).
    apply (tick_resume_frame h r (set_pending _ w)).
  - apply transcript_same, stopPolling_frame.
  - apply transcript_same, stopPolling_frame.
Qed.

(** *** The markup read back

    What a reader of the markup finds in the bubble: after the first
    opening tag of the message-content [div], the run of text up to the
    next tag, which has to be the closing tag of the [div]. *)

Fixpoint after_first (tag html : jsstring) : option jsstring :=
  match html with
  | [] => None
  | _ :: rest =>
    if starts_with tag html then Some (drop (length tag) html)
    else after_first tag rest
  end.

Fixpoint text_run (html : jsstring) : jsstring :=
  match html with
  | [] => []
  | c :: rest => if (c =? lt_sign)%N then [] else c :: text_run rest
  end.

Definition content_tag : jsstring :=
  js "<div class=" ++ dquote ++ js "message-content" ++ dquote ++ js ">".

(** The text node of the message-content [div], as it is written in the
    markup; [None] when the markup has no such [div] or the [div] holds
    anything but one run of text. *)
Definition message_content (markup : jsstring) : option jsstring :=
  after_first content_tag markup ≫= λ rest,
    let run := text_run rest in
    if starts_with (js "</div>") (drop (length run) rest) then Some run
    else None.






(** *** Stopping *)

Definition is_init (ev : Event) : bool :=
  match ev with InitChat _ _ => true | _ => false end.

(** No timer is registered: the client is idle. *)
Definition idle (w : World) : Prop := intervals w = ∅.

Lemma tracked_fresh kids now : tracked (fresh_page kids now).
Proof. apply map_Forall_empty. Qed.

Lemma idle_tracked w : idle w → tracked w.
Proof. unfold tracked. intros ->. apply map_Forall_empty. Qed.

(** Initialisation of an idle client leaves its one timer in
    [pollInterval]. *)
Lemma initChat_tracked t l w : idle w → tracked (initChat t l w).
Proof.
  intros E. unfold initChat. destruct (_ || _); [by apply idle_tracked|].
  intros h x Hx. simpl in *. rewrite E in Hx.
  apply lookup_insert_Some in Hx as [[-> _]|[_ Hx]]; [done|].
  by rewrite lookup_empty in Hx.
Qed.

Lemma stopPolling_idle w : tracked w → idle (stopPolling w).
Proof.
  intros Ht. apply map_empty. intros h.
  destruct (stopPolling_frame w) as (_ & _ & _ & Hi). rewrite Hi.
  case_decide as Hp; [done|].
  destruct (intervals w !! h) as [x|] eqn:E; [|done].
  destruct Hp. by apply (Ht h x).
Qed.

(** An idle client stays idle and polls nothing, whatever happens short of
    a new initialisation. *)
Lemma step_idle ev w :
  idle w → is_init ev = false →
  idle (step w ev) ∧ no_new_poll w (step w ev).
Proof.
  unfold idle. intros Hi Hev.
  destruct ev as [v|now|b|t l| |rid r|h|rid r| |]; simpl; try discriminate;
    try (split; [done | by apply no_new_poll_refl]).
  - destruct (submit_all_quiet (submit_listeners w) w) as (E & _ & _ & Hn).
    split; [congruence | done].
  - destruct (pending w !! rid) as [[m|h]|];
      try (split; [done | by apply no_new_poll_refl]).
    destruct (submit_resume_frame m r (set_pending (delete rid (pending w)) w))
      as (E & _ & En & _).
    split; [by rewrite E | by apply no_new_poll_refl].
  - rewrite Hi, lookup_empty. split; [done | by apply no_new_poll_refl].
  - destruct (pending w !! rid) as [[m|h]|];
      try (split; [done | by apply no_new_poll_refl]).
    destruct (tick_resume_frame h r (set_pending (delete rid (pending w)) w))
      as (E & _ & En & _).
    split; [by rewrite E | by apply no_new_poll_refl].
  - destruct (stopPolling_frame w) as (En & _).
    split; [by apply stopPolling_idle, idle_tracked | by apply no_new_poll_refl].
  - destruct (stopPolling_frame w) as (En & _).
    split; [by apply stopPolling_idle, idle_tracked | by apply no_new_poll_refl].
Qed.

Lemma run_idle evs w :
  idle w → Forall (λ ev, is_init ev = false) evs →
  idle (run w evs) ∧ no_new_poll w (run w evs).
Proof.
  intros Hi Hevs. revert w Hi.
  induction Hevs as [|ev evs Hev _ IH]; intros w Hi.
  - split; [done | by apply no_new_poll_refl].
  - destruct (step_idle ev w Hi Hev) as [Hi' Hn].
    destruct (IH _ Hi') as [Hi'' Hn'].
    split; [done | by eapply no_new_poll_trans].
Qed.

(** C5.  Once [stopPolling] has run in a state of the client's state
    machine (polling with the timer held in [pollInterval], or idle), no
    poll request is issued by anything that happens afterwards, replies to
    polls still in flight included, until [initChat] runs again: the timer
    is gone, and a timer event that still arrives does nothing. *)
Theorem stop_ends_polling w evs :
  tracked w →
  Forall (λ ev, is_init ev = false) evs →
  let w0 := stopPolling w in
  pollInterval w0 = None
  ∧ intervals w0 = ∅
  ∧ network w0 = network w
  ∧ no_new_poll w (run w0 evs)
  ∧ ∀ h, step (run w0 evs) (Timer h) = run w0 evs.
Proof.
  intros Ht Hevs w0.
  destruct (stopPolling_frame w) as (En & _ & Hp & _).
  pose proof (stopPolling_idle w Ht) as Hi.
  destruct (run_idle evs w0 Hi Hevs) as [Hi' Hn].
  split_and!; try done.
  - eapply no_new_poll_trans; [by apply no_new_poll_refl | done].
  - intros h. simpl. by rewrite Hi', lookup_empty.
Qed.

(** The client stays in its state machine as long as it is initialised
    from the idle state only. *)
Lemma step_tracked ev w :
  tracked w → (is_init ev = true → idle w) → tracked (step w ev).
Proof.
  intros Ht Hinit.
  destruct ev as [v|now|b|t l| |rid r|h|rid r| |]; simpl; try done.
  - by apply initChat_tracked, Hinit.
  - destruct (submit_all_quiet (submit_listeners w) w) as (E & Ep & _).
    unfold tracked. by rewrite E, Ep.
  - destruct (pending w !! rid) as [[m|h]|]; try done.
    destruct (submit_resume_frame m r (set_pending (delete rid (pending w)) w))
      as (E & Ep & _).
    unfold tracked. by rewrite E, Ep.
  - destruct (intervals w !! h); [|done].
    destruct (tick_begin_frame h w) as (E & Ep & _).
    unfold tracked. by rewrite E, Ep.
  - destruct (pending w !! rid) as [[m|h]|]; try done.
    destruct (tick_resume_frame h r (set_pending (delete rid (pending w)) w))
      as (E & Ep & _).
    unfold tracked. by rewrite E, Ep.
  - by apply idle_tracked, stopPolling_idle.
  - by apply idle_tracked, stopPolling_idle.
Qed.

(** *** Handlers run on a page with a transcript

    [initChat] installs the listener and the timer only when the form and
    the transcript are on the page, and nothing removes the transcript:
    whenever a handler of the chat runs, [addMessage] finds its
    container. *)

Definition dormant (w : World) : Prop :=
  submit_listeners w = [] ∧ intervals w = ∅ ∧ pending w = ∅.

Definition chat_ready (w : World) : Prop :=
  dormant w ∨ is_Some (container w).

Lemma step_keeps_container ev w :
  is_Some (container w) → is_Some (container (step w ev)).
Proof.
  intros [kids Hk]. pose proof (step_transcript ev w) as H.
  unfold transcript_grows in H. rewrite Hk in H.
  destruct H as (added & -> & _). by eexists.
Qed.

Lemma step_chat_ready ev w : chat_ready w → chat_ready (step w ev).
Proof.
  intros [(Hl & Hi & Hp)|Hc]; [|right; by apply step_keeps_container].
  destruct (container w) as [kids|] eqn:Hk.
  { right. apply step_keeps_container. by rewrite Hk. }
  left. unfold dormant.
  destruct ev as [v|now|b|t l| |rid r|h|rid r| |]; simpl; try done.
  - unfold initChat. rewrite Hk. simpl. by rewrite orb_true_r.
  - by rewrite Hl.
  - by rewrite Hp, lookup_empty.
  - by rewrite Hi, lookup_empty.
  - by rewrite Hp, lookup_empty.
  - unfold stopPolling. destruct (pollInterval w); [|done].
    simpl. by rewrite Hi, delete_empty.
  - unfold stopPolling. destruct (pollInterval w); [|done].
    simpl. by rewrite Hi, delete_empty.
Qed.

Lemma run_chat_ready evs w : chat_ready w → chat_ready (run w evs).
Proof.
  revert w. induction evs as [|ev evs IH]; intros w Hw; [done|].
  simpl. by apply IH, step_chat_ready.
Qed.

Lemma handler_has_transcript w h rid :
  chat_ready w →
  submit_listeners w ≠ [] ∨ is_Some (intervals w !! h)
    ∨ is_Some (pending w !! rid) →
  is_Some (container w).
Proof.
  intros [(Hl & Hi & Hp)|Hc] Hrun; [|done].
  rewrite Hi, Hp, !lookup_empty in Hrun.
  destruct Hrun as [?|[[? ?]|[? ?]]]; done.
Qed.

(** A run in which [initChat] is only called on an idle client. *)
Fixpoint init_when_idle (w : World) (evs : list Event) : Prop :=
  match evs with
  | [] => True
  | ev :: evs =>
    (is_init ev = true → idle w) ∧ init_when_idle (step w ev) evs
  end.

Lemma run_tracked evs w :
  tracked w → init_when_idle w evs → tracked (run w evs).
Proof.
  revert w. induction evs as [|ev evs IH]; intros w Ht Hd; [done|].
  destruct Hd as [Hi Hd]. simpl. apply IH; [|done].
  by apply step_tracked.
Qed.

End Handlers.

(** *** A page in use

    The page of a student in conversation with teacher [T1], opened when
    the transcript was empty; timestamps are shown as they come. *)

Definition shown_as_is : jsstring → jsstring := id.

Definition chat_page : World :=
  initChat (js "T1") None (fresh_page [] (js "2024-01-01T02:00:00.000Z")).

Definition teacher_says (t ts : string) : Message :=
  {| text := js t; from_student := false; timestamp := js ts |}.

Definition student_says (t ts : string) : Message :=
  {| text := js t; from_student := true; timestamp := js ts |}.

Example toast_danger :
  toast_style (js "danger") = [js "bg-danger"; js "text-white"].
Proof. reflexivity. Qed.

Example first_poll_has_no_since :
  poll_request (js "T1") [] = Some (PollMessages (js "T1") None).
Proof. reflexivity. Qed.

(** Two ticks of the timer with the reply of the first in between. *)
Example two_ticks :
  network
    (run shown_as_is chat_page
       [ Timer 1;
         PollSettled 0 (Json {| messages :=
           Some [teacher_says "hello" "10:00"; student_says "hi" "10:01"] |});
         Timer 1 ])
  = [ PollMessages (js "T1") None;
      PollMessages (js "T1") (Some (js "10:01")) ].
Proof. reflexivity. Qed.

(** A send that succeeds, as events. *)
Example send_and_reply :
  let w :=
    run shown_as_is chat_page
      [ Edit (js " hi "); Submit;
        SendSettled 0 (Json {| success := true; error := None |}) ] in
  network w = [SendMessage (js "T1") (js "hi")]
  ∧ className <$> default [] (container w) = [js "message sent"]
  ∧ input_value w = [].
Proof. repeat split. Qed.

Lemma poll_tick_renders_incoming_witness :
  closures chat_page !! 1%positive
    = Some {| teacherId := js "T1"; since := [] |}
  ∧ container chat_page = Some []
  ∧ let w' :=
      tick_resume shown_as_is 1 (Json {| messages :=
        Some [teacher_says "hello" "10:00"; student_says "hi" "10:01"] |})
        chat_page in
    container w' = Some [msgDiv (js "hello") false (js "10:00")]
    ∧ network (tick_begin 1 w')
      = [PollMessages (js "T1") (Some (js "10:01"))].
Proof.
  split; [reflexivity|]. split; [reflexivity|].
  pose proof (poll_tick_renders_incoming shown_as_is 1
    {| teacherId := js "T1"; since := [] |}
    (teacher_says "hello" "10:00") [student_says "hi" "10:01"]
    chat_page [] eq_refl eq_refl) as H.
  destruct H as (_ & _ & _ & _ & _ & H).
  exact (H (js "hello") (js "hi")).
Defined.

Lemma since_is_last_timestamp_witness :
  closures chat_page !! 1%positive
    = Some {| teacherId := js "T1"; since := [] |}
  ∧ since <$> closures
      (tick_resume shown_as_is 1 (Json {| messages :=
         Some ([teacher_says "b" "10:05"] ++ [teacher_says "a" "10:02"]) |})
         chat_page) !! 1%positive
    = Some (js "10:02").
Proof.
  split; [reflexivity|].
  exact (proj1 (since_is_last_timestamp shown_as_is 1
    {| teacherId := js "T1"; since := [] |}
    [teacher_says "b" "10:05"] (teacher_says "a" "10:02")
    chat_page eq_refl)).
Defined.

Lemma send_one_request_one_bubble_witness :
  let w := set_input_value (js "  hello ") chat_page in
  let w1 := submit_begin (js "T1") w in
  let w2 := submit_resume shown_as_is (js "hello")
              (Json {| success := true; error := None |}) w1 in
  container w1 = Some []
  ∧ network w1 = [SendMessage (js "T1") (js "hello")]
  ∧ container w2
    = Some [msgDiv (js "hello") true (js "2024-01-01T02:00:00.000Z")]
  ∧ input_value w2 = [].
Proof.
  intros w w1 w2. split; [reflexivity|].
  pose proof (send_one_request_one_bubble shown_as_is (js "T1") w w1 [] None
    eq_refl) as H.
  destruct H as (H1 & _ & _ & _ & H2 & _ & H3 & _).
  exact (conj H1 (conj H2 H3)).
Defined.

Lemma failed_send_only_toasts_witness :
  let w := set_input_value (js "hello") chat_page in
  let r := Json {| success := false; error := Some (js "Teacher not found") |} in
  let w' := submit_resume shown_as_is (js "hello") r w in
  toast_el w = true
  ∧ send_failed r = true
  ∧ toast_body <$> toasts w' = [js "Teacher not found"]
  ∧ input_value w' = js "hello".
Proof.
  intros w r w'. split; [reflexivity|]. split; [reflexivity|].
  pose proof (failed_send_only_toasts shown_as_is (js "hello") r w
    eq_refl eq_refl) as H.
  destruct H as (_ & H1 & H2 & _).
  split; [|exact H2].
  exact (f_equal (fmap (M:=list) toast_body) H1).
Defined.

Lemma stop_ends_polling_witness :
  tracked chat_page
  ∧ Forall (λ ev, is_init ev = false) [Timer 1; Submit; Timer 1]
  ∧ no_new_poll chat_page
      (run shown_as_is (stopPolling chat_page) [Timer 1; Submit; Timer 1]).
Proof.
  assert (Ht : tracked chat_page).
  { apply (bool_decide_unpack _). vm_compute. exact I. }
  assert (He : Forall (λ ev, is_init ev = false) [Timer 1; Submit; Timer 1]).
  { repeat constructor. }
  split; [exact Ht|]. split; [exact He|].
  exact (proj1 (proj2 (proj2 (proj2
    (stop_ends_polling shown_as_is chat_page _ Ht He))))).
Defined.


(** The content of a bubble, read from its markup. *)
Example content_of_a_bubble :
  message_content (innerHTML (msgDiv (js "<b>&") false (js "10:00")))
  = Some (js "&lt;b&gt;&amp;").
Proof. reflexivity. Qed.

(** Markup that carries a tag where the text should be has no
    message-content of one text run. *)
Example raw_markup_is_no_content :
  message_content (message_markup (js "<b>&") (js "10:00")) = None.
Proof. reflexivity. Qed.

(** [stopPolling] clears the timer it knows.  When [initChat] has run twice
    the first timer is no longer in [pollInterval] and goes on polling. *)
Remark second_init_orphans_first_timer :
  network
    (run shown_as_is (fresh_page [] [])
       [InitChat (js "T1") None; InitChat (js "T1") None; StopPolling; Timer 1])
  = [PollMessages (js "T1") None].
Proof. reflexivity. Qed.

End Chat.

(** ** Numbers

    The scripts compute with IEEE doubles.  What they need of them is an
    interface; every statement below holds for any implementation of it,
    and the examples run on exact rationals. *)

Class JsNumber := {
  num : Type;
  num_of_Z : Z → num;              (* an integer literal *)
  num_mul : num → num → num;
  num_sub : num → num → num;
  num_div : num → num → num;
  num_max : num → num → num;       (* [Math.max] *)
  num_truthy : num → bool;         (* false on zero and NaN only *)
  num_is_width : num → bool;       (* finite and above zero *)
  num_to_ulong : num → nat         (* conversion to [unsigned long] *)
}.

#[export] Instance rational_numbers : JsNumber := {|
  num := Q;
  num_of_Z := inject_Z;
  num_mul := λ a b, Qred (a * b);
  num_sub := λ a b, Qred (a - b);
  num_div := λ a b, Qred (a / b);
  num_max := λ a b, if Qle_bool a b then b else a;
  num_truthy := λ a, negb (Qeq_bool a 0);
  num_is_width := λ a, (0 <? Qnum a)%Z;
  num_to_ulong := λ a,
    Z.to_nat ((Qnum a ÷ Z.pos (Qden a)) `mod` 2 ^ 32)
|}.

(** ** The [DrawingCanvas] class *)

Module Drawing.
Import JsString.

(** *** The raster *)

Record Pixel := { red : N; green : N; blue : N; alpha : N }.

Definition transparent_black : Pixel :=
  {| red := 0; green := 0; blue := 0; alpha := 0 |}.

Definition white : Pixel :=
  {| red := 255; green := 255; blue := 255; alpha := 255 |}.

(** A canvas bitmap or an [ImageData]: pixels in row-major order. *)
Record Bitmap := { cols : nat; rows : nat; pixels : list Pixel }.

Definition wf_bitmap (b : Bitmap) : Prop :=
  length (pixels b) = rows b * cols b.

Definition pixel_at (b : Bitmap) (x y : nat) : option Pixel :=
  if decide (x < cols b ∧ y < rows b)
  then pixels b !! (y * cols b + x)
  else None.

Definition tabulate (w h : nat) (f : nat → nat → Pixel) : Bitmap :=
  {| cols := w; rows := h;
     pixels := (λ i, f (i mod w) (i / w)) <$> seq 0 (h * w) |}.

(** The bitmap a canvas gets when its width or height is assigned. *)
Definition blank_bitmap (w h : nat) : Bitmap :=
  tabulate w h (λ _ _, transparent_black).

(** [getImageData(sx, sy, sw, sh)]: an [IndexSizeError] ([None]) for an
    empty rectangle, else the pixels of the rectangle, transparent black
    outside the canvas. *)
Definition getImageData (sx sy sw sh : nat) (b : Bitmap) : option Bitmap :=
  if decide (sw = 0 ∨ sh = 0) then None
  else Some (tabulate sw sh
    (λ x y, default transparent_black (pixel_at b (sx + x) (sy + y)))).

(** [putImageData(img, dx, dy)]: the pixels of [img] replace those of the
    canvas where they fall inside it. *)
Definition putImageData (img : Bitmap) (dx dy : nat) (b : Bitmap) : Bitmap :=
  tabulate (cols b) (rows b) (λ x y,
    if decide (dx ≤ x ∧ dy ≤ y)
    then default (default transparent_black (pixel_at b x y))
           (pixel_at img (x - dx) (y - dy))
    else default transparent_black (pixel_at b x y)).

(** [fillRect(0, 0, w, h)] with an opaque fill. *)
Definition fill_all (p : Pixel) (b : Bitmap) : Bitmap :=
  tabulate (cols b) (rows b) (λ _ _, p).

(** What a call returns: normally, or by an exception, with the state it
    leaves in either case. *)
Inductive Completion (A : Type) :=
| Normal (a : A)
| Throw (e : jsstring) (a : A).
Arguments Normal {A} a.
Arguments Throw {A} e a.

Definition state_of {A} (c : Completion A) : A :=
  match c with Normal a | Throw _ a => a end.

Section Canvas.
Context `{JsNumber}.

Record Point := { x_of : num; y_of : num }.

(** Drawing state of the 2D context. *)
Record Context2D := {
  lineCap : jsstring;
  lineJoin : jsstring;
  strokeStyle : jsstring;
  lineWidth : num;
  fillStyle : jsstring
}.

(** The state a context has when created and after its canvas is given a
    width or a height. *)
Definition default_context : Context2D :=
  {| lineCap := js "butt"; lineJoin := js "miter";
     strokeStyle := js "#000000"; lineWidth := num_of_Z 1;
     fillStyle := js "#000000" |}.

(** One [stroke()] of [drawLine]. *)
Record Stroke := {
  stroke_from : Point;
  stroke_to : Point;
  stroke_width : num;
  stroke_style : jsstring
}.

Record DOMRect := {
  rect_left : num;
  rect_top : num;
  rect_width : num;
  rect_height : num
}.

Record Touch := { clientX : num; clientY : num; force : option num }.

Record DrawingCanvas := {
  canvas : Bitmap;
  ctx : Context2D;
  options_lineColor : jsstring;
  options_lineWidth : num;
  isDrawing : bool;
  lastPoint : option Point;
  strokes : list Stroke
}.

(** The rasteriser behind [stroke()] and the parser of CSS colours are the
    browser's. *)
Variable rasterize : Context2D → Point → Point → Bitmap → Bitmap.
Variable css_color : jsstring → bool.

Definition set_canvas (b : Bitmap) (dc : DrawingCanvas) : DrawingCanvas :=
  {| canvas := b; ctx := ctx dc;
     options_lineColor := options_lineColor dc;
     options_lineWidth := options_lineWidth dc;
     isDrawing := isDrawing dc; lastPoint := lastPoint dc;
     strokes := strokes dc |}.

Definition set_ctx (c : Context2D) (dc : DrawingCanvas) : DrawingCanvas :=
  {| canvas := canvas dc; ctx := c;
     options_lineColor := options_lineColor dc;
     options_lineWidth := options_lineWidth dc;
     isDrawing := isDrawing dc; lastPoint := lastPoint dc;
     strokes := strokes dc |}.

Definition set_pen (drawing : bool) (p : option Point)
    (dc : DrawingCanvas) : DrawingCanvas :=
  {| canvas := canvas dc; ctx := ctx dc;
     options_lineColor := options_lineColor dc;
     options_lineWidth := options_lineWidth dc;
     isDrawing := drawing; lastPoint := p;
     strokes := strokes dc |}.

(** [ctx.lineCap = 'round'; ctx.lineJoin = 'round'] *)
Definition set_round (c : Context2D) : Context2D :=
  {| lineCap := js "round"; lineJoin := js "round";
     strokeStyle := strokeStyle c; lineWidth := lineWidth c;
     fillStyle := fillStyle c |}.

(** [ctx.strokeStyle = v]: ignored unless [v] is a colour. *)
Definition set_strokeStyle (v : jsstring) (c : Context2D) : Context2D :=
  if css_color v then
    {| lineCap := lineCap c; lineJoin := lineJoin c; strokeStyle := v;
       lineWidth := lineWidth c; fillStyle := fillStyle c |}
  else c.

(** [ctx.fillStyle = v] *)
Definition set_fillStyle (v : jsstring) (c : Context2D) : Context2D :=
  if css_color v then
    {| lineCap := lineCap c; lineJoin := lineJoin c;
       strokeStyle := strokeStyle c; lineWidth := lineWidth c;
       fillStyle := v |}
  else c.

(** [ctx.lineWidth = v]: ignored unless [v] is finite and above zero. *)
Definition set_lineWidth (v : num) (c : Context2D) : Context2D :=
  if num_is_width v then
    {| lineCap := lineCap c; lineJoin := lineJoin c;
       strokeStyle := strokeStyle c; lineWidth := v;
       fillStyle := fillStyle c |}
  else c.

(** [canvas.width = v] and [canvas.height = v]: a cleared bitmap of the
    new size and a context back in its default state. *)
Definition set_width (v : nat) (dc : DrawingCanvas) : DrawingCanvas :=
  set_ctx default_context
    (set_canvas (blank_bitmap v (rows (canvas dc))) dc).

Definition set_height (v : nat) (dc : DrawingCanvas) : DrawingCanvas :=
  set_ctx default_context
    (set_canvas (blank_bitmap (cols (canvas dc)) v) dc).

(** The four assignments [resize] and [init] make to the context. *)
Definition apply_options (dc : DrawingCanvas) : DrawingCanvas :=
  set_ctx
    (set_lineWidth (options_lineWidth dc)
      (set_strokeStyle (options_lineColor dc) (set_round (ctx dc)))) dc.

(** *** Methods *)

(** [container] is the bounding rectangle of the canvas's parent, [None]
    when the canvas has no parent. *)
Definition resize (container : option DOMRect)
    (dc : DrawingCanvas) : Completion DrawingCanvas :=
  match container with
  | None => Normal dc
  | Some rect =>
    match getImageData 0 0 (cols (canvas dc)) (rows (canvas dc)) (canvas dc) with
    | None => Throw (js "IndexSizeError") dc
    | Some imageData =>
      let dc := set_width (num_to_ulong (rect_width rect)) dc in
      let dc :=
        set_height
          (num_to_ulong (num_max (num_of_Z 300) (rect_height rect))) dc in
      let dc := apply_options dc in
      Normal (set_canvas (putImageData imageData 0 0 (canvas dc)) dc)
    end
  end.

(** [rect] is the bounding rectangle of the canvas itself. *)
Definition getCanvasCoordinates (clientX clientY : num) (rect : DOMRect)
    (dc : DrawingCanvas) : Point :=
  let scaleX := num_div (num_of_Z (Z.of_nat (cols (canvas dc)))) (rect_width rect) in
  let scaleY := num_div (num_of_Z (Z.of_nat (rows (canvas dc)))) (rect_height rect) in
  {| x_of := num_mul (num_sub clientX (rect_left rect)) scaleX;
     y_of := num_mul (num_sub clientY (rect_top rect)) scaleY |}.

Definition getTouchCoordinates (touch : Touch) (rect : DOMRect)
    (dc : DrawingCanvas) : Point :=
  getCanvasCoordinates (clientX touch) (clientY touch) rect dc.

Definition startDrawing (clientX clientY : num) (rect : DOMRect)
    (dc : DrawingCanvas) : DrawingCanvas :=
  set_pen true (Some (getCanvasCoordinates clientX clientY rect dc)) dc.

(** [if (touch.force) ctx.lineWidth = options.lineWidth * touch.force * 2] *)
Definition apply_force (touch : Touch) (dc : DrawingCanvas) : DrawingCanvas :=
  match force touch with
  | Some f =>
    if num_truthy f then
      set_ctx
        (set_lineWidth
          (num_mul (num_mul (options_lineWidth dc) f) (num_of_Z 2)) (ctx dc))
        dc
    else dc
  | None => dc
  end.

Definition handleTouchStart (touches : list Touch) (rect : DOMRect)
    (dc : DrawingCanvas) : DrawingCanvas :=
  match touches with
  | [touch] =>
    apply_force touch
      (set_pen true (Some (getTouchCoordinates touch rect dc)) dc)
  | _ => dc
  end.

(** [from] is read first; when it is [null] the call throws with the path
    begun and nothing drawn. *)
Definition drawLine (from : option Point) (to : Point)
    (dc : DrawingCanvas) : Completion DrawingCanvas :=
  match from with
  | None => Throw (js "TypeError") dc
  | Some from =>
    Normal
      {| canvas := rasterize (ctx dc) from to (canvas dc); ctx := ctx dc;
         options_lineColor := options_lineColor dc;
         options_lineWidth := options_lineWidth dc;
         isDrawing := isDrawing dc; lastPoint := lastPoint dc;
         strokes := strokes dc ++
           [{| stroke_from := from; stroke_to := to;
               stroke_width := lineWidth (ctx dc);
               stroke_style := strokeStyle (ctx dc) |}] |}
  end.

Definition draw (clientX clientY : num) (rect : DOMRect)
    (dc : DrawingCanvas) : Completion DrawingCanvas :=
  if negb (isDrawing dc) then Normal dc
  else
    let currentPoint := getCanvasCoordinates clientX clientY rect dc in
    match drawLine (lastPoint dc) currentPoint dc with
    | Normal dc => Normal (set_pen (isDrawing dc) (Some currentPoint) dc)
    | Throw e dc => Throw e dc
    end.

Definition handleTouchMove (touches : list Touch) (rect : DOMRect)
    (dc : DrawingCanvas) : Completion DrawingCanvas :=
  if negb (isDrawing dc) then Normal dc
  else
    match touches with
    | [touch] =>
      let currentPoint := getTouchCoordinates touch rect dc in
      let dc := apply_force touch dc in
      match drawLine (lastPoint dc) currentPoint dc with
      | Normal dc => Normal (set_pen (isDrawing dc) (Some currentPoint) dc)
      | Throw e dc => Throw e dc
      end
    | _ => Normal dc
    end.

Definition stopDrawing (dc : DrawingCanvas) : DrawingCanvas :=
  set_pen false None dc.

Definition clear (dc : DrawingCanvas) : DrawingCanvas :=
  let dc := set_ctx (set_fillStyle (js "#ffffff") (ctx dc)) dc in
  set_canvas (fill_all white (canvas dc)) dc.

Definition setLineWidth (width : num) (dc : DrawingCanvas) : DrawingCanvas :=
  set_ctx (set_lineWidth width (ctx dc))
    {| canvas := canvas dc; ctx := ctx dc;
       options_lineColor := options_lineColor dc;
       options_lineWidth := width;
       isDrawing := isDrawing dc; lastPoint := lastPoint dc;
       strokes := strokes dc |}.

Definition setLineColor (color : jsstring) (dc : DrawingCanvas) : DrawingCanvas :=
  set_ctx (set_strokeStyle color (ctx dc))
    {| canvas := canvas dc; ctx := ctx dc;
       options_lineColor := color;
       options_lineWidth := options_lineWidth dc;
       isDrawing := isDrawing dc; lastPoint := lastPoint dc;
       strokes := strokes dc |}.

(** [new DrawingCanvas(id, options)] on a canvas element with bitmap [b]:
    the constructor followed by [init], listeners apart. *)
Definition construct (b : Bitmap) (lineColor : option jsstring)
    (lineWidth : option num) (container : option DOMRect)
    : Completion DrawingCanvas :=
  let dc :=
    {| canvas := b; ctx := default_context;
       options_lineColor := default (js "#1e293b") lineColor;
       options_lineWidth := default (num_of_Z 3) lineWidth;
       isDrawing := false; lastPoint := None; strokes := [] |} in
  match resize container dc with
  | Normal dc => Normal (clear (apply_options dc))
  | Throw e dc => Throw e dc
  end.

(** *** Resizing *)

Lemma pixel_at_tabulate w h f x y :
  x < w → y < h → pixel_at (tabulate w h f) x y = Some (f x y).
Proof.
  intros Hx Hy. unfold pixel_at, tabulate. simpl.
  rewrite decide_True by done.
  rewrite list_lookup_fmap, lookup_seq_lt by nia. simpl.
  rewrite Nat.add_comm, Nat.Div0.mod_add, Nat.mod_small by done.
  rewrite Nat.add_comm, Nat.div_add_l, Nat.div_small by lia.
  by rewrite Nat.add_0_r.
Qed.

Lemma wf_tabulate w h f : wf_bitmap (tabulate w h f).
Proof. unfold wf_bitmap. simpl. by rewrite length_fmap, length_seq. Qed.

Lemma pixel_at_wf b x y :
  wf_bitmap b → x < cols b → y < rows b → is_Some (pixel_at b x y).
Proof.
  unfold wf_bitmap, pixel_at. intros Hwf Hx Hy.
  rewrite decide_True by done. apply lookup_lt_is_Some. nia.
Qed.

Lemma pixel_at_getImageData b img x y :
  wf_bitmap b →
  getImageData 0 0 (cols b) (rows b) b = Some img →
  x < cols b → y < rows b →
  pixel_at img x y = pixel_at b x y.
Proof.
  unfold getImageData. intros Hwf Himg Hx Hy.
  case_decide; simplify_eq.
  rewrite pixel_at_tabulate by done. simpl.
  by destruct (pixel_at_wf b x y Hwf Hx Hy) as [p ->].
Qed.

Lemma pixel_at_putImageData img b x y p :
  x < cols b → y < rows b →
  pixel_at img x y = Some p →
  pixel_at (putImageData img 0 0 b) x y = Some p.
Proof.
  intros Hx Hy Hp. unfold putImageData.
  rewrite pixel_at_tabulate by done.
  rewrite decide_True by lia. by rewrite !Nat.sub_0_r, Hp.
Qed.

(** [resize] keeps the canvas a well-formed bitmap. *)
Lemma resize_wf container dc :
  wf_bitmap (canvas dc) → wf_bitmap (canvas (state_of (resize container dc))).
Proof.
  intros Hwf. unfold resize. destruct container as [rect|]; [|done].
  destruct (getImageData _ _ _ _ _); [|done].
  apply wf_tabulate.
Qed.

(** The size [resize] gives the canvas. *)
Lemma resize_dimensions rect dc :
  cols (canvas dc) ≠ 0 → rows (canvas dc) ≠ 0 →
  let dc' := state_of (resize (Some rect) dc) in
  cols (canvas dc') = num_to_ulong (rect_width rect)
  ∧ rows (canvas dc')
    = num_to_ulong (num_max (num_of_Z 300) (rect_height rect)).
Proof.
  intros Hc Hr. unfold resize, getImageData.
  rewrite decide_False by tauto. done.
Qed.

(** C7.  Whatever sizes the canvas has before and after [resize], a pixel
    that lies inside both keeps its colour (the bitmap holding one pixel
    per cell): the old raster is read before
    the canvas is given its new size and written back at the origin,
    pixel for pixel. *)
Theorem resize_keeps_common_pixels container dc x y :
  wf_bitmap (canvas dc) →
  let dc' := state_of (resize container dc) in
  x < cols (canvas dc) `min` cols (canvas dc') →
  y < rows (canvas dc) `min` rows (canvas dc') →
  pixel_at (canvas dc') x y = pixel_at (canvas dc) x y
  ∧ is_Some (pixel_at (canvas dc) x y).
Proof.
  intros Hwf dc' Hx Hy.
  assert (Hp : is_Some (pixel_at (canvas dc) x y))
    by (apply pixel_at_wf; [done|lia..]).
  split; [|done]. subst dc'. revert Hx Hy. unfold resize.
  destruct container as [rect|]; [|done].
  destruct (getImageData _ _ _ _ _) as [img|] eqn:Himg; [|done].
  simpl. intros Hx Hy. destruct Hp as [p Hp]. rewrite Hp.
  apply pixel_at_putImageData; [simpl; lia..|].
  rewrite (pixel_at_getImageData _ _ x y Hwf Himg) by lia. done.
Qed.

(** *** Pressure *)

(** The touch reports a force the script acts on: present, not zero. *)
Definition has_force (touch : Touch) : bool :=
  match force touch with
  | Some f => num_truthy f
  | None => false
  end.

Lemma apply_force_forceless touch dc :
  has_force touch = false → apply_force touch dc = dc.
Proof.
  unfold has_force, apply_force. destruct (force touch) as [f|]; [|done].
  by intros ->.
Qed.

Lemma apply_force_width touch f dc :
  force touch = Some f → num_truthy f = true →
  let v := num_mul (num_mul (options_lineWidth dc) f) (num_of_Z 2) in
  num_is_width v = true →
  lineWidth (ctx (apply_force touch dc)) = v
  ∧ options_lineWidth (apply_force touch dc) = options_lineWidth dc
  ∧ isDrawing (apply_force touch dc) = isDrawing dc
  ∧ lastPoint (apply_force touch dc) = lastPoint dc
  ∧ strokes (apply_force touch dc) = strokes dc
  ∧ strokeStyle (ctx (apply_force touch dc)) = strokeStyle (ctx dc).
Proof.
  intros Hf Ht v Hv. unfold apply_force, set_lineWidth.
  rewrite Hf, Ht. fold v. by rewrite Hv.
Qed.

(** One single-touch move while drawing: the segment it strokes. *)
Lemma handleTouchMove_segment touch rect dc p :
  isDrawing dc = true → lastPoint dc = Some p →
  lastPoint (apply_force touch dc) = Some p →
  ∃ dc',
    handleTouchMove [touch] rect dc = Normal dc'
    ∧ strokes dc'
      = strokes (apply_force touch dc) ++
        [{| stroke_from := p;
            stroke_to := getTouchCoordinates touch rect dc;
            stroke_width := lineWidth (ctx (apply_force touch dc));
            stroke_style := strokeStyle (ctx (apply_force touch dc)) |}]
    ∧ ctx dc' = ctx (apply_force touch dc)
    ∧ options_lineWidth dc' = options_lineWidth (apply_force touch dc)
    ∧ isDrawing dc' = isDrawing (apply_force touch dc)
    ∧ lastPoint dc' = Some (getTouchCoordinates touch rect dc).
Proof.
  intros Hd Hp Hp'. unfold handleTouchMove. rewrite Hd. simpl.
  rewrite Hp'. simpl. eexists. split; [done|]. done.
Qed.

End Canvas.

(** *** A canvas in use

    Examples run on rationals, with every string a valid colour and a
    rasteriser that leaves the bitmap alone. *)

Definition no_raster : Context2D → Point → Point → Bitmap → Bitmap :=
  λ _ _ _ b, b.
Definition any_color : jsstring → bool := λ _, true.

Definition rect_of (w h : Z) : DOMRect :=
  {| rect_left := 0%Q; rect_top := 0%Q;
     rect_width := inject_Z w; rect_height := inject_Z h |}.

Definition touch_at (x y : Z) (f : option Q) : Touch :=
  {| clientX := inject_Z x; clientY := inject_Z y; force := f |}.

Definition red_dot : Pixel := {| red := 255; green := 0; blue := 0; alpha := 255 |}.

(** A 4 by 2 canvas with one red pixel at (1, 1). *)
Definition small_canvas : DrawingCanvas :=
  {| canvas := tabulate 4 2 (λ x y,
       if decide (x = 1 ∧ y = 1) then red_dot else white);
     ctx := default_context; options_lineColor := js "#1e293b";
     options_lineWidth := 3%Q; isDrawing := false; lastPoint := None;
     strokes := [] |}.

Example empty_rectangle_throws :
  getImageData 0 0 0 300 (blank_bitmap 0 300) = None.
Proof. reflexivity. Qed.

(** A canvas whose parent was laid out with no width cannot be resized
    again: reading its raster throws before anything is assigned. *)
Example zero_width_canvas_stays :
  let dc := state_of (resize any_color (Some (rect_of 0 100)) small_canvas) in
  cols (canvas dc) = 0
  ∧ resize any_color (Some (rect_of 3 100)) dc = Throw (js "IndexSizeError") dc.
Proof. split; reflexivity. Qed.

Example new_canvas_is_white :
  let dc := state_of (construct any_color (blank_bitmap 2 1) None None
                        (Some (rect_of 2 100))) in
  options_lineWidth dc = 3%Q
  ∧ lineWidth (ctx dc) = 3%Q
  ∧ rows (canvas dc) = 300
  ∧ pixel_at (canvas dc) 1 299 = Some white.
Proof. repeat split. Qed.

Lemma resize_keeps_common_pixels_witness :
  let dc' := state_of (resize any_color (Some (rect_of 3 100)) small_canvas) in
  wf_bitmap (canvas small_canvas)
  ∧ cols (canvas dc') = 3 ∧ rows (canvas dc') = 300
  ∧ pixel_at (canvas dc') 1 1 = Some red_dot.
Proof.
  intros dc'.
  assert (Hwf : wf_bitmap (canvas small_canvas)) by reflexivity.
  assert (Hc : cols (canvas dc') = 3) by reflexivity.
  assert (Hr : rows (canvas dc') = 300) by reflexivity.
  assert (Hx : 1 < cols (canvas small_canvas) `min` cols (canvas dc'))
    by (rewrite Hc; simpl; lia).
  assert (Hy : 1 < rows (canvas small_canvas) `min` rows (canvas dc'))
    by (rewrite Hr; simpl; lia).
  split; [exact Hwf|]. split; [exact Hc|]. split; [exact Hr|].
  exact (eq_trans
    (proj1 (resize_keeps_common_pixels any_color
      (Some (rect_of 3 100)) small_canvas 1 1 Hwf Hx Hy))
    eq_refl).
Defined.

(** C8 as stated fails: a touch at full force followed by a move that
    reports no force strokes its segment at width 6 on a canvas whose base
    width is 3. *)
Lemma forceless_segment_keeps_forced_width :
  let dc1 := handleTouchStart
               [touch_at 10 10 (Some 1%Q)] (rect_of 4 2) small_canvas in
  let dc2 := state_of (handleTouchMove no_raster
               [touch_at 20 10 None] (rect_of 4 2) dc1) in
  force (touch_at 20 10 None) = None
  ∧ options_lineWidth dc2 = 3%Q
  ∧ stroke_width <$> strokes dc2 = [6%Q]
  ∧ ¬ (∀ s, s ∈ strokes dc2 → stroke_width s = options_lineWidth dc2).
Proof.
  intros dc1 dc2. split_and!; try reflexivity.
  intros Hall.
  assert (Hs : ∃ s, strokes dc2 = [s] ∧ stroke_width s = 6%Q)
    by (eexists; split; reflexivity).
  destruct Hs as (s & Es & Ws).
  specialize (Hall s). rewrite Es in Hall.
  specialize (Hall (list_elem_of_here _ _)).
  rewrite Ws in Hall. discriminate Hall.
Qed.

End Drawing.

(** ** The push listener of [service-worker.js] *)

Module ServiceWorker.
Import JsString.

Section Push.
Context `{JsNumber}.

(** JavaScript values as far as a JSON payload and the listener need
    them. *)
#[warnings="-register-all"]
Inductive Value :=
| Undefined
| Null
| Bool (b : bool)
| Number (n : num)
| String (s : jsstring)
| Array (items : list Value)
| Object (props : gmap jsstring Value).

Definition truthy (v : Value) : bool :=
  match v with
  | Undefined | Null => false
  | Bool b => b
  | Number n => num_truthy n
  | String s => negb (falsy s)
  | Array _ | Object _ => true
  end.

(** [a || b] *)
Definition or_default (a b : Value) : Value := if truthy a then a else b.

(** [obj.key] on an object built by a literal or a spread. *)
Definition get (key : string) (obj : gmap jsstring Value) : Value :=
  default Undefined (obj !! js key).

(** The own enumerable properties a spread [...v] copies: the properties
    of an object, the indexed elements of an array or a string, nothing for
    the other values. *)
Definition own_properties (v : Value) : gmap jsstring Value :=
  match v with
  | Object props => props
  | Array items => list_to_map (imap (λ i x, (js (pretty i), x)) items)
  | String s => list_to_map (imap (λ i c, (js (pretty i), String [c])) s)
  | Undefined | Null | Bool _ | Number _ => ∅
  end.

(** [{ ...a, ...v }] *)
Definition spread (a : gmap jsstring Value) (v : Value) : gmap jsstring Value :=
  own_properties v ∪ a.

(** [event.data]: its text, and what [json()] returns, [None] when it
    throws. *)
Record PushMessageData := { text : jsstring; json : option Value }.

Record NotificationOptions := {
  body : Value;
  icon : Value;
  badge : Value;
  tag : Value;
  data : Value;
  vibrate : list N;
  requireInteraction : bool;
  actions : Value
}.

Definition default_title : Value := String (js "School Portal").
Definition default_body : Value := String (js "You have a new notification").
Definition default_icon : Value := String (js "/static/icons/icon-192.png").
Definition default_badge : Value := String (js "/static/icons/badge-72.png").
Definition default_tag : Value := String (js "school-notification").

Definition default_actions : Value :=
  Array
    [ Object {[ js "action" := String (js "view");
                js "title" := String (js "View") ]};
      Object {[ js "action" := String (js "dismiss");
                js "title" := String (js "Dismiss") ]} ].

(** The object [data] starts as. *)
Definition initial_data : gmap jsstring Value :=
  {[ js "title" := default_title;
     js "body" := default_body;
     js "icon" := default_icon;
     js "badge" := default_badge;
     js "tag" := default_tag;
     js "data" := Object ∅ ]}.

(** [data] after the [if (event.data)] block. *)
Definition parse_push (event_data : option PushMessageData)
    : gmap jsstring Value :=
  match event_data with
  | Some d =>
    match json d with
    | Some pushData => spread initial_data pushData
    | None => <[js "body" := String (text d)]> initial_data
    end
  | None => initial_data
  end.

Definition build_options (o : gmap jsstring Value) : NotificationOptions :=
  {| body := get "body" o;
     icon := or_default (get "icon" o) default_icon;
     badge := or_default (get "badge" o) default_badge;
     tag := or_default (get "tag" o) default_tag;
     data := or_default (get "data" o) (Object ∅);
     vibrate := [100; 50; 100]%N;
     requireInteraction := true;
     actions := or_default (get "actions" o) default_actions |}.

(** The listener.  The state is the list of calls made to
    [registration.showNotification], title and options. *)
Definition on_push (event_data : option PushMessageData)
    (shown : list (Value * NotificationOptions))
    : list (Value * NotificationOptions) :=
  let o := parse_push event_data in
  shown ++ [(get "title" o, build_options o)].

(** What the notification shows for a field the payload may carry:
    the payload's value, or the default when the payload has none. *)
Definition overridden (key : string) (payload : Value) (dflt : Value) : Value :=
  default dflt (own_properties payload !! js key).

(** The same for the fields read through [||]. *)
Definition overridden_if_truthy (key : string) (payload : Value)
    (dflt : Value) : Value :=
  match own_properties payload !! js key with
  | Some v => if truthy v then v else dflt
  | None => dflt
  end.

Definition default_options : NotificationOptions :=
  {| body := default_body; icon := default_icon; badge := default_badge;
     tag := default_tag; data := Object ∅; vibrate := [100; 50; 100]%N;
     requireInteraction := true; actions := default_actions |}.

(** *** Facts *)

Lemma get_initial :
  get "title" initial_data = default_title
  ∧ get "body" initial_data = default_body
  ∧ get "icon" initial_data = default_icon
  ∧ get "badge" initial_data = default_badge
  ∧ get "tag" initial_data = default_tag
  ∧ get "data" initial_data = Object ∅
  ∧ get "actions" initial_data = Undefined.
Proof. repeat split; vm_compute; reflexivity. Qed.

Lemma get_spread key payload :
  get key (spread initial_data payload)
  = default (get key initial_data) (own_properties payload !! js key).
Proof.
  unfold get, spread. rewrite lookup_union.
  destruct (own_properties payload !! js key);
    by destruct (initial_data !! js key).
Qed.

Lemma get_body_text key (s : jsstring) :
  get key (<[js "body" := String s]> initial_data)
  = if decide (js "body" = js key) then String s else get key initial_data.
Proof.
  unfold get. rewrite lookup_insert. by case_decide.
Qed.

Lemma or_default_overridden key payload dflt :
  or_default (default dflt (own_properties payload !! js key)) dflt
  = overridden_if_truthy key payload dflt.
Proof.
  unfold or_default, overridden_if_truthy.
  destruct (own_properties payload !! js key); simpl; [done|].
  by destruct (truthy dflt).
Qed.

(** C10, as the code has it.  Every push event makes exactly one call to
    [showNotification].  With a payload that parses as JSON the title and
    the body are the payload's when it has them, whatever their value,
    and icon, badge, tag, data and actions are the payload's when it has
    them and they are truthy; the default stands in otherwise.  With a
    payload that does not parse the title is the default one, the body is
    the payload's text and the rest is default.  Without a payload
    everything is default. *)
Theorem push_shows_one_notification event_data shown :
  ∃ title options,
    on_push event_data shown = shown ++ [(title, options)]
    ∧ vibrate options = [100; 50; 100]%N
    ∧ requireInteraction options = true
    ∧ match event_data with
      | None => title = default_title ∧ options = default_options
      | Some d =>
        match json d with
        | None =>
          title = default_title
          ∧ options
            = {| body := String (text d); icon := default_icon;
                 badge := default_badge; tag := default_tag;
                 data := Object ∅; vibrate := [100; 50; 100]%N;
                 requireInteraction := true; actions := default_actions |}
        | Some payload =>
          title = overridden "title" payload default_title
          ∧ body options = overridden "body" payload default_body
          ∧ icon options = overridden_if_truthy "icon" payload default_icon
          ∧ badge options = overridden_if_truthy "badge" payload default_badge
          ∧ tag options = overridden_if_truthy "tag" payload default_tag
          ∧ data options = overridden_if_truthy "data" payload (Object ∅)
          ∧ actions options
            = overridden_if_truthy "actions" payload default_actions
        end
      end.
Proof.
  destruct get_initial as (Ht & Hb & Hi & Hg & Hta & Hd & Ha).
  eexists _, _. split; [reflexivity|]. split; [done|]. split; [done|].
  destruct event_data as [d|]; simpl.
  - destruct (json d) as [payload|]; simpl.
    + unfold overridden. rewrite !get_spread, Ht, Hb, Hi, Hg, Hta, Hd, Ha.
      rewrite !or_default_overridden. split_and!; try done.
      unfold or_default, overridden_if_truthy.
      by destruct (own_properties payload !! js "actions").
    + rewrite get_body_text. split; [by rewrite decide_False|].
      unfold build_options. rewrite !get_body_text.
      rewrite decide_True by done. rewrite !decide_False by done.
      by rewrite Hi, Hg, Hta, Hd, Ha.
  - split; [done|]. unfold build_options.
    by rewrite Hb, Hi, Hg, Hta, Hd, Ha.
Qed.

End Push.

(** *** Small cases *)

Definition json_payload (fields : list (string * string)) : PushMessageData :=
  {| text := [];
     json := Some (Object (list_to_map
       ((λ kv, (js kv.1, String (js kv.2))) <$> fields))) |}.

Example push_without_payload :
  on_push None [] = [(default_title, default_options)].
Proof. reflexivity. Qed.

Example push_with_plain_text :
  on_push (Some {| text := js "Class moved to room 4"; json := None |}) []
  = [(default_title,
      {| body := String (js "Class moved to room 4"); icon := default_icon;
         badge := default_badge; tag := default_tag; data := Object ∅;
         vibrate := [100; 50; 100]%N; requireInteraction := true;
         actions := default_actions |})].
Proof. reflexivity. Qed.

Example push_with_title_and_body :
  let shown :=
    on_push (Some (json_payload [("title", "Maths"); ("body", "New task")])) [] in
  fst <$> shown = [String (js "Maths")]
  ∧ (body ∘ snd) <$> shown = [String (js "New task")]
  ∧ (tag ∘ snd) <$> shown = [default_tag].
Proof. repeat split. Qed.

(** *** A payload whose icon is the empty string

    [{"icon": ""}] parses, and its [icon] does not replace the default:
    the notification is shown with the portal's icon. *)
Lemma empty_icon_keeps_default_icon :
  let payload := Object {[ js "icon" := String [] ]} in
  let event_data :=
    Some {| text := js "{" ++ dquote ++ js "icon" ++ dquote ++ js ":"
                    ++ dquote ++ dquote ++ js "}";
            json := Some payload |} in
  own_properties payload !! js "icon" = Some (String [])
  ∧ (icon ∘ snd) <$> on_push event_data [] = [default_icon]
  ∧ ¬ (∀ v, own_properties payload !! js "icon" = Some v →
            (icon ∘ snd) <$> on_push event_data [] = [v]).
Proof.
  intros payload event_data.
  assert (H1 : own_properties payload !! js "icon" = Some (String []))
    by reflexivity.
  assert (H2 : (icon ∘ snd) <$> on_push event_data [] = [default_icon])
    by reflexivity.
  split_and!; try done.
  intros Hall. specialize (Hall _ H1). rewrite H2 in Hall.
  discriminate Hall.
Qed.

End ServiceWorker.

(** ** Time stamps of the chat bubbles

    [formatTimeSGT] from the [new Date(timestamp)] on: the function the
    chat section takes as given.  Time values are integers of milliseconds;
    the parser of date strings and the offset of the browser's time zone
    are the platform's. *)

Module TimeFormat.
Import JsString.

(** Largest time value of a [Date]. *)
Definition max_time : Z := 8640000000000000.

(** [new Date(v)] keeps [v] when it is in range and is invalid else. *)
Definition TimeClip (v : Z) : option Z :=
  if decide (Z.abs v ≤ max_time)%Z then Some v else None.

(** [String(n)] for an integer. *)
Definition String_of (n : Z) : jsstring := js (pretty n).

(** [s.padStart(n, fill)] *)
Definition padStart (n : nat) (fill s : jsstring) : jsstring :=
  let missing := n - length s in
  take missing (mjoin (replicate missing fill)) ++ s.

Definition NaN_NaN : jsstring := js "NaN:NaN".

Section Dates.

(** [Date.parse]: the time value of a date string, [None] when the string
    is no date. *)
Variable Date_parse : jsstring → option Z.

(** [getTimezoneOffset()] of the date with the given time value: the
    minutes from local time to UTC as the engine reports them, a whole
    number. *)
Variable timezone_offset : Z → Z.

(** The offset of local time from UTC at a time value, in milliseconds:
    what [getHours] and [getMinutes] read the clock with.  It has seconds
    in the zones of before standard time, which the minutes above do not
    show. *)
Variable LocalTZA : Z → Z.

(** Local time of a time value. *)
Definition LocalTime (t : Z) : Z := (t + LocalTZA t)%Z.

Definition getHours (t : Z) : Z := ((LocalTime t `div` 3600000) `mod` 24)%Z.

Definition getMinutes (t : Z) : Z := ((LocalTime t `div` 60000) `mod` 60)%Z.

Definition sgt_hhmm (timestamp : jsstring) : jsstring :=
  match Date_parse timestamp ≫= TimeClip with
  | None => NaN_NaN
  | Some t =>
    let sgtOffset := (8 * 60)%Z in
    let utcTime := (t + timezone_offset t * 60000)%Z in
    match TimeClip (utcTime + sgtOffset * 60000) with
    | None => NaN_NaN
    | Some sgtTime =>
      let hours := padStart 2 (js "0") (String_of (getHours sgtTime)) in
      let minutes := padStart 2 (js "0") (String_of (getMinutes sgtTime)) in
      hours ++ js ":" ++ minutes
    end
  end.

(** The whole of [formatTimeSGT], on the page of the chat section. *)
Definition formatTimeSGT (timestamp : option jsstring) (w : Chat.World)
    : jsstring :=
  Chat.formatTimeSGT sgt_hhmm timestamp w.

(** Two decimal digits. *)
Definition two_digits (n : Z) : jsstring :=
  [Z.to_N (48 + n `div` 10); Z.to_N (48 + n `mod` 10)].

(** The wall clock of UTC+8 at a time value. *)
Definition singapore_clock (t : Z) : jsstring :=
  two_digits (((t + 28800000) `div` 3600000) `mod` 24)
  ++ js ":" ++ two_digits (((t + 28800000) `div` 60000) `mod` 60).

Lemma pad_two_digits n :
  (0 ≤ n < 100)%Z → padStart 2 (js "0") (String_of n) = two_digits n.
Proof.
  intros Hn.
  assert (Hall : Forall
    (λ k, padStart 2 (js "0") (String_of k) = two_digits k) (seqZ 0 100)).
  { apply (bool_decide_unpack _). vm_compute. exact I. }
  rewrite Forall_seqZ in Hall. apply Hall. lia.
Qed.

Lemma getHours_range t : (0 ≤ getHours t < 24)%Z.
Proof. unfold getHours. apply Z.mod_pos_bound. lia. Qed.

Lemma getMinutes_range t : (0 ≤ getMinutes t < 60)%Z.
Proof. unfold getMinutes. apply Z.mod_pos_bound. lia. Qed.

(** X2.  What [formatTimeSGT] returns is [NaN:NaN] or two digits of hours below
    24, a colon and two digits of minutes below 60, whatever the string,
    the clock and the time zone. *)
Theorem formatTimeSGT_shape timestamp w :
  formatTimeSGT timestamp w = NaN_NaN
  ∨ ∃ h m, (0 ≤ h < 24)%Z ∧ (0 ≤ m < 60)%Z
      ∧ formatTimeSGT timestamp w = two_digits h ++ js ":" ++ two_digits m
      ∧ length (formatTimeSGT timestamp w) = 5.
Proof.
  unfold formatTimeSGT, Chat.formatTimeSGT.
  generalize (match timestamp with
              | Some t => if falsy t then Chat.clock w else t
              | None => Chat.clock w
              end). intros s.
  unfold sgt_hhmm.
  destruct (Date_parse s ≫= TimeClip) as [t|]; [|by left].
  destruct (TimeClip _) as [sgt|]; [|by left].
  right. exists (getHours sgt), (getMinutes sgt).
  pose proof (getHours_range sgt). pose proof (getMinutes_range sgt).
  cbv zeta. rewrite !pad_two_digits by lia. done.
Qed.

(** X1.  A valid timestamp is shown as the wall clock of UTC+8 in any
    zone of the browser, provided the clock the function reads in the end
    is set by the offset it was given at the start: the offset of local
    time at the shifted instant is the whole number of minutes that
    [getTimezoneOffset] reported for the instant shown. *)
Theorem formatTimeSGT_is_singapore_time s t w :
  falsy s = false →
  Date_parse s = Some t →
  (Z.abs t ≤ max_time)%Z →
  (Z.abs (t + timezone_offset t * 60000 + 28800000) ≤ max_time)%Z →
  LocalTZA (t + timezone_offset t * 60000 + 28800000)
    = (- (timezone_offset t * 60000))%Z →
  formatTimeSGT (Some s) w = singapore_clock t.
Proof.
  intros Hs Hp Ht Hsgt Hz.
  unfold formatTimeSGT, Chat.formatTimeSGT. rewrite Hs.
  unfold sgt_hhmm. rewrite Hp. simpl.
  unfold TimeClip at 1. rewrite decide_True by done. simpl.
  replace (t + timezone_offset t * 60000 + 8 * 60 * 60000)%Z
    with (t + timezone_offset t * 60000 + 28800000)%Z by lia.
  unfold TimeClip. rewrite decide_True by done.
  cbv zeta. unfold singapore_clock.
  pose proof (getHours_range (t + timezone_offset t * 60000 + 28800000)).
  pose proof (getMinutes_range (t + timezone_offset t * 60000 + 28800000)).
  rewrite !pad_two_digits by lia.
  unfold getHours, getMinutes, LocalTime. rewrite Hz.
  replace (t + timezone_offset t * 60000 + 28800000
           + - (timezone_offset t * 60000))%Z with (t + 28800000)%Z by lia.
  done.
Qed.

End Dates.

(** *** A browser in New York reading a UTC timestamp

    2024-01-15T10:30:00Z is 1705314600000, and 1880-01-01T12:00:00Z is
    -2840097600000. *)

Definition parse_stub (s : jsstring) : option Z :=
  if bool_decide (s = js "2024-01-15T10:30:00Z") then Some 1705314600000%Z
  else if bool_decide (s = js "1880-01-01T12:00:00Z")
  then Some (-2840097600000)%Z
  else None.

(** Eastern standard time, five hours west all winter. *)
Definition est_minutes (t : Z) : Z := 300.
Definition est_offset (t : Z) : Z := (-18000000)%Z.

Lemma formatTimeSGT_is_singapore_time_witness :
  formatTimeSGT parse_stub est_minutes est_offset
    (Some (js "2024-01-15T10:30:00Z")) Chat.chat_page
  = js "18:30".
Proof.
  exact (eq_trans
    (formatTimeSGT_is_singapore_time parse_stub est_minutes est_offset
       (js "2024-01-15T10:30:00Z") 1705314600000 Chat.chat_page
       eq_refl eq_refl
       ltac:(vm_compute; discriminate) ltac:(vm_compute; discriminate)
       eq_refl)
    eq_refl).
Defined.

(** Before standard time New York kept its mean time, 4 h 56 min 2 s west
    of Greenwich, reported as 296 minutes.  Noon in Greenwich on the first
    day of 1880 is 20:00 in Singapore time; the clock is read two seconds
    short of it. *)
Example seconds_of_the_offset_are_lost :
  formatTimeSGT parse_stub (λ _, 296%Z) (λ _, (-17762000)%Z)
    (Some (js "1880-01-01T12:00:00Z")) Chat.chat_page
  = js "19:59"
  ∧ singapore_clock (-2840097600000) = js "20:00".
Proof. split; vm_compute; reflexivity. Qed.

(** Across a change of offset the shift by the offset of the instant shown
    is read back with the offset of the shifted instant: a zone one hour
    further east from some moment on shows the hour after. *)
Example offset_change_shifts_the_clock :
  let minutes t :=
    if decide (t < 1705314600000 + 3600000)%Z then 0%Z else (-60)%Z in
  let offset t := (- (minutes t * 60000))%Z in
  formatTimeSGT parse_stub minutes offset
    (Some (js "2024-01-15T10:30:00Z")) Chat.chat_page
  = js "19:30".
Proof. vm_compute. reflexivity. Qed.

Example not_a_date :
  formatTimeSGT parse_stub est_minutes est_offset (Some (js "10:00"))
    Chat.chat_page
  = js "NaN:NaN".
Proof. reflexivity. Qed.

End TimeFormat.

(** ** The assignment form of the main script *)

Module Assignment.
Import JsString.

(** The three requests of the form, each a POST of [{answers}] to
    [/assignments/{id}/save], [/feedback] or [/submit]. *)
Inductive Request :=
| Save (assignmentId : jsstring) (answers : gmap nat jsstring)
| Feedback (assignmentId : jsstring) (answers : gmap nat jsstring)
| Submit (assignmentId : jsstring) (answers : gmap nat jsstring).

(** Body of [/feedback]. *)
Record FeedbackData := {
  feedback_success : bool;
  feedback : option jsstring;
  feedback_error : option jsstring
}.

(** Body of [/submit]; [submission_id] as a template literal prints it,
    [None] when the body has none. *)
Record SubmitData := {
  submit_success : bool;
  submit_message : option jsstring;
  submission_id : option jsstring;
  submit_error : option jsstring
}.

(** What a suspended handler has captured. *)
Inductive Pending :=
| AwaitSave (silent : bool)
| AwaitFeedback
| AwaitSubmit.

(** Calls on Bootstrap's modal objects.  Every run of [getAIFeedback] and
    of [submitAssignment] makes a [Modal] of its own on [#loading-modal],
    named here by the position of the request that run issues.  What a
    call does to the page is Bootstrap's: the calls are recorded, their
    effect is not assumed. *)
Inductive ModalCall :=
| ConfirmShow             (* [show()] on the modal the submit button makes *)
| ConfirmHide             (* [hide()] on the instance [getInstance] found *)
| LoadingShow (k : nat)   (* [loadingModal.show()] of run [k] *)
| LoadingHide (k : nat).  (* [loadingModal.hide()] of run [k] *)

#[local] Instance ModalCall_eq_dec : EqDecision ModalCall.
Proof. solve_decision. Defined.

Record Page := {
  (* the rest of the document: the toast element and the toasts shown *)
  base : Chat.World;
  (* values of the [.answer-input] textareas, in document order *)
  answer_inputs : list jsstring;
  (* text of [#loading-text] *)
  loading_text : jsstring;
  (* calls made on modal objects so far, oldest first *)
  modal_calls : list ModalCall;
  (* markup of [#ai-feedback-content] *)
  feedback_html : jsstring;
  (* [#feedback-section] is displayed *)
  feedback_shown : bool;
  (* requests issued so far, oldest first *)
  requests : list Request;
  (* suspended handlers, by position of their request in [requests] *)
  pending : gmap nat Pending;
  (* redirects scheduled with [setTimeout]: delay and target *)
  timeouts : list (N * jsstring);
  (* [window.location.href] *)
  location : jsstring
}.

Definition set_base (v : Chat.World) (p : Page) : Page :=
  {| base := v; answer_inputs := answer_inputs p;
     loading_text := loading_text p; modal_calls := modal_calls p;
     feedback_html := feedback_html p;
     feedback_shown := feedback_shown p; requests := requests p;
     pending := pending p; timeouts := timeouts p; location := location p |}.

Definition set_answer_inputs (v : list jsstring) (p : Page) : Page :=
  {| base := base p; answer_inputs := v; loading_text := loading_text p;
     modal_calls := modal_calls p;
     feedback_html := feedback_html p; feedback_shown := feedback_shown p;
     requests := requests p; pending := pending p; timeouts := timeouts p;
     location := location p |}.

Definition set_loading_text (v : jsstring) (p : Page) : Page :=
  {| base := base p; answer_inputs := answer_inputs p; loading_text := v;
     modal_calls := modal_calls p;
     feedback_html := feedback_html p; feedback_shown := feedback_shown p;
     requests := requests p; pending := pending p; timeouts := timeouts p;
     location := location p |}.

Definition set_modal_calls (v : list ModalCall) (p : Page) : Page :=
  {| base := base p; answer_inputs := answer_inputs p;
     loading_text := loading_text p; modal_calls := v;
     feedback_html := feedback_html p;
     feedback_shown := feedback_shown p; requests := requests p;
     pending := pending p; timeouts := timeouts p; location := location p |}.

Definition set_feedback_html (v : jsstring) (p : Page) : Page :=
  {| base := base p; answer_inputs := answer_inputs p;
     loading_text := loading_text p; modal_calls := modal_calls p;
     feedback_html := v;
     feedback_shown := feedback_shown p; requests := requests p;
     pending := pending p; timeouts := timeouts p; location := location p |}.

Definition set_feedback_shown (v : bool) (p : Page) : Page :=
  {| base := base p; answer_inputs := answer_inputs p;
     loading_text := loading_text p; modal_calls := modal_calls p;
     feedback_html := feedback_html p;
     feedback_shown := v; requests := requests p; pending := pending p;
     timeouts := timeouts p; location := location p |}.

Definition set_requests (v : list Request) (p : Page) : Page :=
  {| base := base p; answer_inputs := answer_inputs p;
     loading_text := loading_text p; modal_calls := modal_calls p;
     feedback_html := feedback_html p;
     feedback_shown := feedback_shown p; requests := v; pending := pending p;
     timeouts := timeouts p; location := location p |}.

Definition set_pending (v : gmap nat Pending) (p : Page) : Page :=
  {| base := base p; answer_inputs := answer_inputs p;
     loading_text := loading_text p; modal_calls := modal_calls p;
     feedback_html := feedback_html p;
     feedback_shown := feedback_shown p; requests := requests p;
     pending := v; timeouts := timeouts p; location := location p |}.

Definition set_timeouts (v : list (N * jsstring)) (p : Page) : Page :=
  {| base := base p; answer_inputs := answer_inputs p;
     loading_text := loading_text p; modal_calls := modal_calls p;
     feedback_html := feedback_html p;
     feedback_shown := feedback_shown p; requests := requests p;
     pending := pending p; timeouts := v; location := location p |}.

Definition set_location (v : jsstring) (p : Page) : Page :=
  {| base := base p; answer_inputs := answer_inputs p;
     loading_text := loading_text p; modal_calls := modal_calls p;
     feedback_html := feedback_html p;
     feedback_shown := feedback_shown p; requests := requests p;
     pending := pending p; timeouts := timeouts p; location := v |}.

(** *** Operations *)

Definition showToast (title message type : jsstring) (p : Page) : Page :=
  set_base (Chat.showToast title message type (base p)) p.

Definition fetch (req : Request) (k : Pending) (p : Page) : Page :=
  set_pending (<[length (requests p) := k]> (pending p))
    (set_requests (requests p ++ [req]) p).

(** A call on a modal object. *)
Definition call (c : ModalCall) (p : Page) : Page :=
  set_modal_calls (modal_calls p ++ [c]) p.

(** The loop of [getAnswers]: [answers[index + 1] = textarea.value]. *)
Fixpoint collect (index : nat) (values : list jsstring)
    (answers : gmap nat jsstring) : gmap nat jsstring :=
  match values with
  | [] => answers
  | value :: rest => collect (S index) rest (<[index + 1 := value]> answers)
  end.

Definition getAnswers (p : Page) : gmap nat jsstring :=
  collect 0 (answer_inputs p) ∅.

(** [saveDraft(assignmentId, silent = false)], up to the [await]. *)
Definition saveDraft_begin (assignmentId : jsstring) (silent : bool)
    (p : Page) : Page :=
  fetch (Save assignmentId (getAnswers p)) (AwaitSave silent) p.

(** [saveDraft], from the reply on.  Nothing precedes the reading of the
    body in the [try], so that a [null] body, which throws there, ends like
    a request that failed: both are [Failed]. *)
Definition saveDraft_resume (silent : bool) (r : Chat.Reply Chat.SendData)
    (p : Page) : Page :=
  match r with
  | Chat.Json data =>
    if Chat.success data && negb silent then
      showToast (js "Saved") (js "Draft saved successfully") (js "success") p
    else if negb (Chat.success data) && negb silent then
      showToast (js "Error")
        (Chat.or_else (Chat.error data) (js "Failed to save draft"))
        (js "danger") p
    else p
  | Chat.Failed =>
    if negb silent then
      showToast (js "Error") (js "Failed to save draft") (js "danger") p
    else p
  end.

(** [s.replace(/\n/g, '<br>')] *)
Definition newlines_to_br (s : jsstring) : jsstring :=
  s ≫= λ c, if (c =? 10)%N then js "<br>" else [c].

(** [getAIFeedback], up to the [await]; [loadingModal] is the object the
    run makes. *)
Definition getAIFeedback_begin (assignmentId : jsstring) (p : Page) : Page :=
  let answers := getAnswers p in
  let loadingModal := length (requests p) in
  let p := set_loading_text (js "Generating AI feedback...") p in
  let p := call (LoadingShow loadingModal) p in
  fetch (Feedback assignmentId answers) AwaitFeedback p.

(** [getAIFeedback], from the reply on.  The reply is [Failed] when
    [fetch] or [json()] rejects, and [Json None] when the body is [null],
    which has no [success] to read.  [hide()] is called in the [try] once
    the body is there and in the [catch]: reading a [null] body and
    calling [replace] on a missing [feedback] throw after the first call,
    and the [catch] makes the second. *)
Definition getAIFeedback_resume (loadingModal : nat)
    (r : Chat.Reply (option FeedbackData)) (p : Page) : Page :=
  let failed p :=
    showToast (js "Error") (js "Failed to get AI feedback") (js "danger")
      (call (LoadingHide loadingModal) p) in
  match r with
  | Chat.Json body =>
    let p := call (LoadingHide loadingModal) p in
    match body with
    | Some data =>
      if feedback_success data then
        match feedback data with
        | Some text =>
          set_feedback_shown true (set_feedback_html (newlines_to_br text) p)
        | None => failed p
        end
      else
        showToast (js "Error")
          (Chat.or_else (feedback_error data) (js "Failed to get AI feedback"))
          (js "danger") p
    | None => failed p
    end
  | Chat.Failed => failed p
  end.

(** [submitAssignment], up to the [await]; [confirmModal] tells whether
    [getInstance] found an instance on [#confirm-modal]. *)
Definition submitAssignment_begin (assignmentId : jsstring)
    (confirmModal : bool) (p : Page) : Page :=
  let answers := getAnswers p in
  let loadingModal := length (requests p) in
  let p := if confirmModal then call ConfirmHide p else p in
  let p := set_loading_text (js "Submitting assignment...") p in
  let p := call (LoadingShow loadingModal) p in
  fetch (Submit assignmentId answers) AwaitSubmit p.

(** The target of the redirect; a missing id is printed as
    [undefined]. *)
Definition submission_url (data : SubmitData) : jsstring :=
  js "/submissions/" ++ default (js "undefined") (submission_id data).

(** [submitAssignment], from the reply on; replies as for
    [getAIFeedback]. *)
Definition submitAssignment_resume (loadingModal : nat)
    (r : Chat.Reply (option SubmitData)) (p : Page) : Page :=
  let failed p :=
    showToast (js "Error") (js "Failed to submit assignment") (js "danger")
      (call (LoadingHide loadingModal) p) in
  match r with
  | Chat.Json body =>
    let p := call (LoadingHide loadingModal) p in
    match body with
    | Some data =>
      if submit_success data then
        let p :=
          showToast (js "Success")
            (Chat.or_else (submit_message data) (js "Assignment submitted!"))
            (js "success") p in
        set_timeouts (timeouts p ++ [(1500%N, submission_url data)]) p
      else
        showToast (js "Error")
          (Chat.or_else (submit_error data) (js "Failed to submit"))
          (js "danger") p
    | None => failed p
    end
  | Chat.Failed => failed p
  end.

(** *** The form as a transition system

    What [initAssignmentForm(assignmentId)] wires up: the three buttons,
    the confirm button of the modal and the autosave timer of 30 s. *)

Inductive Event :=
| Edit (i : nat) (value : jsstring)   (* the user edits answer [i] *)
| ClickSaveDraft
| AutosaveDue
| ClickFeedback
| ClickSubmit
| ClickConfirm (confirmModal : bool)  (* [getInstance] finds an instance *)
| SaveSettled (rid : nat) (r : Chat.Reply Chat.SendData)
| FeedbackSettled (rid : nat) (r : Chat.Reply (option FeedbackData))
| SubmitSettled (rid : nat) (r : Chat.Reply (option SubmitData))
| TimeoutDue (i : nat).               (* the [i]th scheduled redirect fires *)

Definition resume (rid : nat) (p : Page) : Page :=
  set_pending (delete rid (pending p)) p.

Definition step (assignmentId : jsstring) (p : Page) (ev : Event) : Page :=
  match ev with
  | Edit i value => set_answer_inputs (<[i := value]> (answer_inputs p)) p
  | ClickSaveDraft => saveDraft_begin assignmentId false p
  | AutosaveDue => saveDraft_begin assignmentId true p
  | ClickFeedback => getAIFeedback_begin assignmentId p
  | ClickSubmit => call ConfirmShow p
  | ClickConfirm confirmModal =>
    submitAssignment_begin assignmentId confirmModal p
  | SaveSettled rid r =>
    match pending p !! rid with
    | Some (AwaitSave silent) => saveDraft_resume silent r (resume rid p)
    | _ => p
    end
  | FeedbackSettled rid r =>
    match pending p !! rid with
    | Some AwaitFeedback => getAIFeedback_resume rid r (resume rid p)
    | _ => p
    end
  | SubmitSettled rid r =>
    match pending p !! rid with
    | Some AwaitSubmit => submitAssignment_resume rid r (resume rid p)
    | _ => p
    end
  | TimeoutDue i =>
    match timeouts p !! i with
    | Some (_, target) =>
      set_location target (set_timeouts (delete i (timeouts p)) p)
    | None => p
    end
  end.

Definition run (assignmentId : jsstring) (p : Page) (evs : list Event) : Page :=
  foldl (step assignmentId) p evs.

(** An assignment page as rendered, with [n] empty answers. *)
Definition fresh_form (n : nat) (href : jsstring) : Page :=
  {| base := Chat.fresh_page [] [];
     answer_inputs := replicate n [];
     loading_text := []; modal_calls := [];
     feedback_html := []; feedback_shown := false;
     requests := []; pending := ∅; timeouts := []; location := href |}.

(** *** Answers *)

Lemma collect_lookup index values answers k :
  collect index values answers !! k
  = match (if decide (index + 1 ≤ k)
           then values !! (k - (index + 1)) else None) with
    | Some value => Some value
    | None => answers !! k
    end.
Proof.
  revert index answers. induction values as [|v rest IH]; intros index answers.
  - simpl. by case_decide.
  - simpl collect. rewrite IH. clear IH.
    destruct (decide (k = index + 1)) as [->|Hne].
    + rewrite decide_False by lia. rewrite decide_True by lia.
      rewrite Nat.sub_diag. simpl. apply lookup_insert_eq.
    + rewrite lookup_insert_ne by done.
      destruct (decide (index + 1 ≤ k)).
      * rewrite decide_True by lia.
        replace (k - (index + 1)) with (S (k - (S index + 1))) by lia.
        done.
      * rewrite decide_False by lia. done.
Qed.

(** X3.  The object [getAnswers] returns has the answers under the keys 1 to
    [n], in document order, and no other key: answer [k] is the value of
    the [k]th textarea, and key 0 is never set. *)
Theorem getAnswers_lookup p k :
  getAnswers p !! k
  = match k with
    | 0 => None
    | S i => answer_inputs p !! i
    end
  ∧ size (getAnswers p) = length (answer_inputs p).
Proof.
  assert (Hl : ∀ k, getAnswers p !! k
    = match k with 0 => None | S i => answer_inputs p !! i end).
  { intros j. unfold getAnswers. rewrite collect_lookup, lookup_empty.
    destruct j as [|i]; simpl; [done|].
    rewrite Nat.sub_0_r. by destruct (answer_inputs p !! i). }
  split; [apply Hl|].
  assert (Hd : dom (getAnswers p)
               = list_to_set (seq 1 (length (answer_inputs p)))).
  { apply set_eq. intros j.
    rewrite elem_of_dom, Hl, elem_of_list_to_set, elem_of_seq.
    destruct j as [|i].
    - split; [by intros [? ?] | lia].
    - rewrite lookup_lt_is_Some. lia. }
  rewrite <- size_dom, Hd, size_list_to_set by apply NoDup_seq.
  apply length_seq.
Qed.

(** *** Saving *)

Lemma showToast_frame title message type p :
  let p' := showToast title message type p in
  answer_inputs p' = answer_inputs p ∧ loading_text p' = loading_text p
  ∧ modal_calls p' = modal_calls p
  ∧ feedback_html p' = feedback_html p ∧ feedback_shown p' = feedback_shown p
  ∧ requests p' = requests p ∧ pending p' = pending p
  ∧ timeouts p' = timeouts p ∧ location p' = location p.
Proof. done. Qed.

Lemma showToast_toasts title message type p :
  Chat.toasts (base (showToast title message type p))
  = Chat.toasts (base p) ++
    (if Chat.toast_el (base p)
     then [{| Chat.toast_title := title; Chat.toast_body := message;
              Chat.toast_classes := js "toast" :: Chat.toast_style type;
              Chat.toast_delay := 5000 |}]
     else []).
Proof.
  simpl. unfold Chat.showToast.
  destruct (Chat.toast_el (base p)); simpl; by rewrite ?app_nil_r.
Qed.

(** The page does nothing but type and autosave. *)
Definition background (ev : Event) : bool :=
  match ev with
  | Edit _ _ | AutosaveDue | SaveSettled _ _ => true
  | _ => false
  end.

(** Every save in flight is an autosave. *)
Definition only_autosaves (p : Page) : Prop :=
  map_Forall (λ _ k, k = AwaitSave true) (pending p).

Lemma saveDraft_resume_silent r p : saveDraft_resume true r p = p.
Proof.
  destruct r as [|data]; simpl; [done|].
  by rewrite !andb_false_r.
Qed.

Lemma step_background assignmentId ev p :
  background ev = true → only_autosaves p →
  only_autosaves (step assignmentId p ev)
  ∧ base (step assignmentId p ev) = base p
  ∧ modal_calls (step assignmentId p ev) = modal_calls p
  ∧ location (step assignmentId p ev) = location p.
Proof.
  intros Hev Hp.
  destruct ev as [i v| | | | |c|rid r|rid r|rid r|i]; try discriminate; simpl.
  - done.
  - split; [|done]. unfold only_autosaves. simpl.
    by apply map_Forall_insert_2.
  - destruct (pending p !! rid) as [k|] eqn:Hk; [|done].
    rewrite (Hp rid k Hk). rewrite saveDraft_resume_silent.
    split; [|done]. unfold only_autosaves. simpl.
    by apply map_Forall_delete.
Qed.

(** X4.  A page that is only typed in and autosaved never shows a toast, never
    touches a modal and never navigates, whatever the server answers to
    the saves: all an autosave leaves is its request. *)
Theorem autosave_never_notifies assignmentId evs p :
  only_autosaves p →
  Forall (λ ev, background ev = true) evs →
  let p' := run assignmentId p evs in
  Chat.toasts (base p') = Chat.toasts (base p)
  ∧ modal_calls p' = modal_calls p
  ∧ location p' = location p
  ∧ requests (step assignmentId p' AutosaveDue)
    = requests p' ++ [Save assignmentId (getAnswers p')].
Proof.
  intros Hp Hevs. revert p Hp.
  induction Hevs as [|ev evs Hev _ IH]; intros p Hp; [done|].
  destruct (step_background assignmentId ev p Hev Hp) as (Hp' & Hb & Hl & Ho).
  specialize (IH _ Hp'). cbv zeta in *. simpl run.
  destruct IH as (IH1 & IH2 & IH3 & IH4).
  by rewrite IH1, IH2, IH3, Hb, Hl, Ho.
Qed.

Definition save_toast (r : Chat.Reply Chat.SendData) : Chat.Toast :=
  match r with
  | Chat.Json {| Chat.success := true |} =>
    {| Chat.toast_title := js "Saved";
       Chat.toast_body := js "Draft saved successfully";
       Chat.toast_classes := [js "toast"; js "bg-success"; js "text-white"];
       Chat.toast_delay := 5000 |}
  | _ =>
    {| Chat.toast_title := js "Error";
       Chat.toast_body :=
         match r with
         | Chat.Json data =>
           Chat.or_else (Chat.error data) (js "Failed to save draft")
         | Chat.Failed => js "Failed to save draft"
         end;
       Chat.toast_classes := [js "toast"; js "bg-danger"; js "text-white"];
       Chat.toast_delay := 5000 |}
  end.

(** X5.  A save asked for with the button ends in exactly one toast on a page
    that has the toast element: the green one when the server reports
    success, the red one with the server's text or the stock text in
    every other case; nothing else on the page changes. *)
Theorem manual_save_always_answers r p :
  Chat.toast_el (base p) = true →
  let p' := saveDraft_resume false r p in
  Chat.toasts (base p') = Chat.toasts (base p) ++ [save_toast r]
  ∧ answer_inputs p' = answer_inputs p
  ∧ requests p' = requests p
  ∧ pending p' = pending p
  ∧ location p' = location p.
Proof.
  intros Ht.
  destruct r as [|[[] e]]; simpl; unfold Chat.showToast; by rewrite Ht.
Qed.

(** *** Feedback *)

(** The text the page is going to display: present only when the body
    parsed, reports success and carries a [feedback] string. *)
Definition feedback_text (r : Chat.Reply (option FeedbackData))
    : option jsstring :=
  match r with
  | Chat.Json (Some data) =>
    if feedback_success data then feedback data else None
  | _ => None
  end.

Definition feedback_error_text (r : Chat.Reply (option FeedbackData))
    : jsstring :=
  match r with
  | Chat.Json (Some data) =>
    if feedback_success data then js "Failed to get AI feedback"
    else Chat.or_else (feedback_error data) (js "Failed to get AI feedback")
  | _ => js "Failed to get AI feedback"
  end.

(** The calls of [hide()] a reply to a feedback request leads to. *)
Lemma getAIFeedback_resume_calls m r p :
  let p' := getAIFeedback_resume m r p in
  pending p' = pending p ∧ requests p' = requests p
  ∧ timeouts p' = timeouts p ∧ location p' = location p
  ∧ ∃ n, modal_calls p' = modal_calls p ++ replicate (S n) (LoadingHide m).
Proof.
  destruct r as [|[[[] [text|] e]|]]; simpl; split_and!; try done;
    first [by exists 0 | exists 1; by rewrite <- app_assoc].
Qed.

(** X6.  Whatever comes back for a feedback request, [hide()] is called on the
    loading modal object of the request: once, and a second time when the
    body is [null] or reports success without a feedback string, where
    reading it throws after the first call.  The page then ends in one of
    two ways: the feedback is displayed and no toast is shown, or the
    feedback section is left as it was and one error toast is shown (on a
    page with the toast element).  No call shows a modal, and no request is
    issued. *)
Theorem feedback_reply_hides_and_answers m r p :
  let p' := getAIFeedback_resume m r p in
  modal_calls p'
  = modal_calls p ++
    match r with
    | Chat.Failed => [LoadingHide m]
    | Chat.Json None => [LoadingHide m; LoadingHide m]
    | Chat.Json (Some data) =>
      if feedback_success data then
        match feedback data with
        | Some _ => [LoadingHide m]
        | None => [LoadingHide m; LoadingHide m]
        end
      else [LoadingHide m]
    end
  ∧ requests p' = requests p
  ∧ match feedback_text r with
    | Some text =>
      feedback_shown p' = true
      ∧ feedback_html p' = newlines_to_br text
      ∧ base p' = base p
    | None =>
      feedback_shown p' = feedback_shown p
      ∧ feedback_html p' = feedback_html p
      ∧ Chat.toasts (base p')
        = Chat.toasts (base p) ++
          (if Chat.toast_el (base p)
           then [{| Chat.toast_title := js "Error";
                    Chat.toast_body := feedback_error_text r;
                    Chat.toast_classes :=
                      [js "toast"; js "bg-danger"; js "text-white"];
                    Chat.toast_delay := 5000 |}]
           else [])
    end.
Proof.
  destruct r as [|[[[] [text|] e]|]]; simpl; rewrite <- ?app_assoc;
    try done;
    unfold Chat.showToast; simpl;
    destruct (Chat.toast_el (base p)); simpl; by rewrite ?app_nil_r.
Qed.

Lemma newlines_to_br_cons c s :
  newlines_to_br (c :: s)
  = (if (c =? 10)%N then js "<br>" else [c]) ++ newlines_to_br s.
Proof. done. Qed.

(** The parts of a string between its line feeds: [s.split('\n')]. *)
Fixpoint lines (s : jsstring) : list jsstring :=
  match s with
  | [] => [[]]
  | c :: rest =>
    if (c =? 10)%N then [] :: lines rest
    else
      match lines rest with
      | first :: others => (c :: first) :: others
      | [] => [[c]]
      end
  end.

(** [parts.join(sep)] *)
Fixpoint join (sep : jsstring) (parts : list jsstring) : jsstring :=
  match parts with
  | [] => []
  | [part] => part
  | part :: rest => part ++ sep ++ join sep rest
  end.

Lemma lines_not_nil s : lines s ≠ [].
Proof.
  destruct s as [|c s]; simpl; [done|].
  destruct (c =? 10)%N; [done|]. by destruct (lines s).
Qed.

Lemma newlines_to_br_join s :
  newlines_to_br s = join (js "<br>") (lines s).
Proof.
  induction s as [|c s IH]; [done|].
  rewrite newlines_to_br_cons, IH. simpl lines.
  pose proof (lines_not_nil s) as Hne.
  destruct (c =? 10)%N.
  - destruct (lines s) as [|l ls]; done.
  - destruct (lines s) as [|l [|l' ls]]; done.
Qed.

Lemma newlines_to_br_no_feed s : 10%N ∉ newlines_to_br s.
Proof.
  induction s as [|c s IH]; [apply not_elem_of_nil|].
  rewrite newlines_to_br_cons. intros [Hin|Hin]%elem_of_app; [|done].
  destruct (N.eqb_spec c 10) as [->|Hc].
  - revert Hin. apply (bool_decide_unpack _). vm_compute. exact I.
  - apply list_elem_of_singleton in Hin. congruence.
Qed.

Lemma newlines_to_br_verbatim s : 10%N ∉ s → newlines_to_br s = s.
Proof.
  induction s as [|c s IH]; [done|].
  intros Hn. rewrite newlines_to_br_cons.
  apply not_elem_of_cons in Hn as [Hc Hn].
  assert ((c =? 10)%N = false) as -> by (apply N.eqb_neq; congruence).
  simpl. by rewrite IH.
Qed.

Lemma newlines_to_br_length s :
  length (newlines_to_br s)
  = length s + 3 * length (filter (λ c, c = 10%N) s).
Proof.
  induction s as [|c s IH]; [done|].
  rewrite newlines_to_br_cons, length_app, IH, filter_cons.
  destruct (N.eqb_spec c 10) as [->|Hc].
  - rewrite decide_True by done. simpl. lia.
  - rewrite decide_False by done. simpl. lia.
Qed.

(** X7.  The feedback the server sends goes into the page as markup, not as
    text: what is assigned to [innerHTML] is the feedback with every line
    feed replaced by the four code units of [<br>] (its lines joined by
    [<br>]) and every other code unit as it is, angle brackets and
    ampersands included, so that a feedback without line feeds is inserted
    verbatim. *)
Theorem feedback_markup_is_raw m data text p :
  feedback_success data = true →
  feedback data = Some text →
  let html :=
    feedback_html (getAIFeedback_resume m (Chat.Json (Some data)) p) in
  html = join [60; 98; 114; 62]%N (lines text)
  ∧ (∀ s t, text = s ++ 10%N :: t →
       html = newlines_to_br s ++ [60; 98; 114; 62]%N ++ newlines_to_br t)
  ∧ length html = length text + 3 * length (filter (λ c, c = 10%N) text)
  ∧ (10%N ∉ html)
  ∧ (10%N ∉ text → html = text).
Proof.
  intros Hs Hf html.
  assert (Hh : html = newlines_to_br text)
    by (subst html; simpl; by rewrite Hs, Hf).
  rewrite Hh. split_and!.
  - apply newlines_to_br_join.
  - intros s t ->. unfold newlines_to_br. by rewrite bind_app.
  - apply newlines_to_br_length.
  - apply newlines_to_br_no_feed.
  - apply newlines_to_br_verbatim.
Qed.

(** *** Submitting *)

Definition accepted (r : Chat.Reply (option SubmitData)) : bool :=
  match r with
  | Chat.Json (Some data) => submit_success data
  | _ => false
  end.

Lemma submitAssignment_resume_calls m r p :
  let p' := submitAssignment_resume m r p in
  pending p' = pending p ∧ requests p' = requests p
  ∧ ∃ n, modal_calls p' = modal_calls p ++ replicate (S n) (LoadingHide m).
Proof.
  destruct r as [|[[[] msg i e]|]]; simpl; split_and!; try done;
    first [by exists 0 | exists 1; by rewrite <- app_assoc].
Qed.

(** X8.  The reply to a submit schedules the redirect, 1.5 s later, exactly
    when the server reports success, to [/submissions/] followed by the
    id of the body, or by [undefined] when the body has none; on a refusal
    or a failure nothing is scheduled.  In every case [hide()] is called
    on the loading modal object of the request (twice for a [null] body),
    one toast is shown, the answers stay in the form and the page does not
    navigate at that point. *)
Theorem submit_redirects_on_success_only m r p :
  let p' := submitAssignment_resume m r p in
  timeouts p'
  = timeouts p ++
    match r with
    | Chat.Json (Some data) =>
      if submit_success data then
        [(1500%N,
          match submission_id data with
          | Some id => js "/submissions/" ++ id
          | None => js "/submissions/undefined"
          end)]
      else []
    | _ => []
    end
  ∧ modal_calls p'
    = modal_calls p ++
      match r with
      | Chat.Json None => [LoadingHide m; LoadingHide m]
      | _ => [LoadingHide m]
      end
  ∧ location p' = location p
  ∧ answer_inputs p' = answer_inputs p
  ∧ requests p' = requests p
  ∧ length (Chat.toasts (base p'))
    = length (Chat.toasts (base p)) + (if Chat.toast_el (base p) then 1 else 0).
Proof.
  destruct r as [|[[[] msg [id|] e]|]]; simpl;
    rewrite ?app_nil_r, <- ?app_assoc;
    unfold Chat.showToast; destruct (Chat.toast_el (base p)); simpl;
    rewrite ?length_app; simpl; split_and!; try done; lia.
Qed.

Definition accepted_submit (ev : Event) : bool :=
  match ev with
  | SubmitSettled _ r => accepted r
  | _ => false
  end.

Lemma step_keeps_location assignmentId ev p :
  accepted_submit ev = false → timeouts p = [] →
  timeouts (step assignmentId p ev) = []
  ∧ location (step assignmentId p ev) = location p.
Proof.
  intros Hev Ht.
  destruct ev as [i v| | | | |c|rid r|rid r|rid r|i]; simpl; try done.
  - by destruct c.
  - destruct (pending p !! rid) as [[silent| |]|]; try done.
    by destruct r as [|[[] e]], silent.
  - destruct (pending p !! rid) as [[silent| |]|]; try done.
    by destruct r as [|[[[] [text|] e]|]].
  - destruct (pending p !! rid) as [[silent| |]|]; try done.
    destruct r as [|[[[] msg i e]|]]; try done.
  - by rewrite Ht.
Qed.

(** X9.  The page never leaves the form on its own: as long as no submit has
    been accepted by the server, nothing that happens (typing, saving,
    asking for feedback, submits that fail or are refused, timers)
    changes the location or schedules a redirect. *)
Theorem no_redirect_without_accepted_submit assignmentId evs p :
  timeouts p = [] →
  Forall (λ ev, accepted_submit ev = false) evs →
  location (run assignmentId p evs) = location p
  ∧ timeouts (run assignmentId p evs) = [].
Proof.
  intros Ht Hevs. revert p Ht.
  induction Hevs as [|ev evs Hev _ IH]; intros p Ht; [done|].
  destruct (step_keeps_location assignmentId ev p Hev Ht) as [Ht' Hl].
  destruct (IH _ Ht') as [IH1 IH2]. simpl run.
  split; [by rewrite IH1|done].
Qed.

(** *** The loading modal *)

(** The request is one whose run shows the loading modal. *)
Definition uses_loading (req : Request) : bool :=
  match req with Save _ _ => false | _ => true end.

Definition loading_kind (k : Pending) : bool :=
  match k with AwaitSave _ => false | _ => true end.

(** How the calls on loading modal objects go with the requests: a
    suspended handler waits for a request of its kind, [show()] has been
    called for exactly the feedback and submit requests issued, and
    [hide()] for exactly those of them that have settled. *)
Definition paired (reqs : list Request) (pend : gmap nat Pending)
    (calls : list ModalCall) : Prop :=
  (∀ k kind, pend !! k = Some kind →
     ∃ req, reqs !! k = Some req ∧ uses_loading req = loading_kind kind)
  ∧ (∀ k, LoadingShow k ∈ calls
          ↔ ∃ req, reqs !! k = Some req ∧ uses_loading req = true)
  ∧ (∀ k, LoadingHide k ∈ calls
          ↔ (∃ req, reqs !! k = Some req ∧ uses_loading req = true)
            ∧ pend !! k = None).

Lemma paired_begin reqs pend calls req kind extra :
  paired reqs pend calls →
  uses_loading req = loading_kind kind →
  (∀ k, LoadingShow k ∈ extra
        ↔ k = length reqs ∧ uses_loading req = true) →
  (∀ k, LoadingHide k ∉ extra) →
  paired (reqs ++ [req]) (<[length reqs := kind]> pend) (calls ++ extra).
Proof.
  intros (I1 & I2 & I3) Hkind Hshow Hhide.
  assert (Hold : ∀ k r, reqs !! k = Some r → (reqs ++ [req]) !! k = Some r).
  { intros k r Hk. by apply lookup_app_l_Some. }
  assert (Hnew : ∀ k r, (reqs ++ [req]) !! k = Some r →
    (k < length reqs ∧ reqs !! k = Some r) ∨ (k = length reqs ∧ r = req)).
  { intros k r Hk. apply lookup_app_Some in Hk as [Hk|[Hge Hk]].
    - left. split; [|done]. by apply lookup_lt_Some in Hk.
    - right. destruct (k - length reqs) as [|j] eqn:E; simpl in Hk;
        [|by destruct j].
      split; [lia | congruence]. }
  assert (Hlast : (reqs ++ [req]) !! length reqs = Some req).
  { rewrite lookup_app_r by lia. by rewrite Nat.sub_diag. }
  split_and!.
  - intros k kind' [[<- <-]|[Hne Hk]]%lookup_insert_Some.
    + by exists req.
    + destruct (I1 k kind' Hk) as (r & Hr & Hu). exists r. split; [auto|done].
  - intros k. rewrite elem_of_app, I2, Hshow. split.
    + intros [(r & Hr & Hu)|[-> Hu]]; [exists r; auto | by exists req].
    + intros (r & Hr & Hu). destruct (Hnew k r Hr) as [[_ Hr']|[-> ->]];
        [left; by exists r | by right].
  - intros k. rewrite elem_of_app, I3. split.
    + intros [[(r & Hr & Hu) Hp]|Hin]; [|by destruct (Hhide k)].
      split; [exists r; auto|].
      rewrite lookup_insert_ne; [done|].
      intros <-. apply lookup_lt_Some in Hr. lia.
    + intros [(r & Hr & Hu) Hp]. left.
      apply lookup_insert_None in Hp as [Hp Hne].
      destruct (Hnew k r Hr) as [[_ Hr']|[-> _]]; [|done].
      split; [by exists r | done].
Qed.

Lemma paired_settle reqs pend calls rid kind hides :
  paired reqs pend calls →
  pend !! rid = Some kind →
  (∀ k, LoadingShow k ∉ hides) →
  (∀ k, LoadingHide k ∈ hides ↔ k = rid ∧ loading_kind kind = true) →
  paired reqs (delete rid pend) (calls ++ hides).
Proof.
  intros (I1 & I2 & I3) Hrid Hshow Hhide.
  split_and!.
  - intros k kind' [Hne Hk]%lookup_delete_Some. by apply I1.
  - intros k. rewrite elem_of_app, I2. split; [|by left].
    intros [?|Hin]; [done | by destruct (Hshow k)].
  - intros k. rewrite elem_of_app, I3, Hhide, lookup_delete_None. split.
    + intros [[Hr Hp]|[-> Hk]]; [split; [done | by right]|].
      destruct (I1 rid kind Hrid) as (r & Hr & Hu).
      split; [|by left]. exists r. split; [done|congruence].
    + intros [(r & Hr & Hu) [<-|Hp]].
      * right. split; [done|].
        destruct (I1 rid kind Hrid) as (r' & Hr' & Hu'). congruence.
      * left. split; [by exists r | done].
Qed.

Lemma paired_other reqs pend calls extra :
  paired reqs pend calls →
  (∀ k, (LoadingShow k ∉ extra) ∧ (LoadingHide k ∉ extra)) →
  paired reqs pend (calls ++ extra).
Proof.
  intros (I1 & I2 & I3) Hextra. split_and!; [done|..].
  - intros k. rewrite elem_of_app, <- I2. split; [|by left].
    intros [?|Hin]; [done | by destruct (proj1 (Hextra k))].
  - intros k. rewrite elem_of_app, <- I3. split; [|by left].
    intros [?|Hin]; [done | by destruct (proj2 (Hextra k))].
Qed.

Lemma elem_of_replicate_hide n m c :
  c ∈ replicate (S n) (LoadingHide m) ↔ c = LoadingHide m.
Proof. rewrite elem_of_replicate. split; [by intros [-> _] | by intros ->]. Qed.

Definition paired_page (p : Page) : Prop :=
  paired (requests p) (pending p) (modal_calls p).

Lemma step_paired assignmentId ev p :
  paired_page p → paired_page (step assignmentId p ev).
Proof.
  unfold paired_page. intros Hp.
  destruct ev as [i v| | | | |c|rid r|rid r|rid r|i]; simpl.
  - done.
  - rewrite <- (app_nil_r (modal_calls p)).
    apply paired_begin; try done.
    + intros k. rewrite elem_of_nil. by split; [|intros [_ ?]].
    + intros k. apply not_elem_of_nil.
  - rewrite <- (app_nil_r (modal_calls p)).
    apply paired_begin; try done.
    + intros k. rewrite elem_of_nil. by split; [|intros [_ ?]].
    + intros k. apply not_elem_of_nil.
  - apply paired_begin; try done.
    + intros k. rewrite list_elem_of_singleton. split; [|by intros [-> _]].
      by intros [= ->].
    + intros k Hin%list_elem_of_singleton. done.
  - apply paired_other; [done|].
    intros k. split; by intros ?%list_elem_of_singleton.
  - destruct c; simpl.
    + rewrite <- app_assoc. apply paired_begin; try done.
      * intros k. simpl. rewrite !elem_of_cons, elem_of_nil.
        split; [|intros [-> _]; by right; left].
        intros [?|[[= ->]|?]]; done.
      * intros k. simpl. rewrite !elem_of_cons, elem_of_nil.
        intros [?|[?|?]]; done.
    + apply paired_begin; try done.
      * intros k. rewrite list_elem_of_singleton. split; [|by intros [-> _]].
        by intros [= ->].
      * intros k Hin%list_elem_of_singleton. done.
  - destruct (pending p !! rid) as [[silent| |]|] eqn:Hk; try done.
    assert (E : ∀ q, requests (saveDraft_resume silent r q) = requests q
      ∧ pending (saveDraft_resume silent r q) = pending q
      ∧ modal_calls (saveDraft_resume silent r q) = modal_calls q)
      by (intros q; by destruct r as [|[[] e]], silent).
    destruct (E (resume rid p)) as (-> & -> & ->). simpl.
    rewrite <- (app_nil_r (modal_calls p)).
    apply (paired_settle _ _ _ rid (AwaitSave silent)); try done.
    + intros k. apply not_elem_of_nil.
    + intros k. rewrite elem_of_nil. by split; [|intros [_ ?]].
  - destruct (pending p !! rid) as [[silent| |]|] eqn:Hk; try done.
    destruct (getAIFeedback_resume_calls rid r (resume rid p))
      as (-> & -> & _ & _ & n & ->).
    apply (paired_settle (requests p) (pending p) (modal_calls p) rid
      AwaitFeedback); try done.
    + intros k Hin%elem_of_replicate_hide. done.
    + intros k. rewrite elem_of_replicate_hide. split; [|by intros [-> _]].
      by intros [= ->].
  - destruct (pending p !! rid) as [[silent| |]|] eqn:Hk; try done.
    destruct (submitAssignment_resume_calls rid r (resume rid p))
      as (-> & -> & n & ->).
    apply (paired_settle (requests p) (pending p) (modal_calls p) rid
      AwaitSubmit); try done.
    + intros k Hin%elem_of_replicate_hide. done.
    + intros k. rewrite elem_of_replicate_hide. split; [|by intros [-> _]].
      by intros [= ->].
  - by destruct (timeouts p !! i) as [[delay target]|].
Qed.

(** X10.  On a page that started as rendered, whatever the user does and
    whatever the server answers, the calls on the loading modal go with
    the requests: [show()] has been called on the object of a run exactly
    when the run has issued its feedback or submit request, and [hide()]
    on that object exactly when the request has settled, by a reply or by
    a failure.  While a request waits, its object has been shown and not
    told to hide. *)
Theorem loading_modal_calls_are_paired assignmentId n href evs k :
  let p := run assignmentId (fresh_form n href) evs in
  (LoadingShow k ∈ modal_calls p
   ↔ ∃ req, requests p !! k = Some req ∧ uses_loading req = true)
  ∧ (LoadingHide k ∈ modal_calls p
     ↔ LoadingShow k ∈ modal_calls p ∧ pending p !! k = None)
  ∧ (∀ kind, pending p !! k = Some kind → loading_kind kind = true →
       (LoadingShow k ∈ modal_calls p) ∧ (LoadingHide k ∉ modal_calls p)).
Proof.
  assert (Hrun : ∀ p, paired_page p → paired_page (run assignmentId p evs)).
  { induction evs as [|ev evs IH]; intros p Hp; [done|].
    simpl. by apply IH, step_paired. }
  assert (H0 : paired_page (fresh_form n href)).
  { unfold paired_page, paired. simpl. split_and!.
    - intros j kind. by rewrite lookup_empty.
    - intros j. rewrite elem_of_nil. split; [done|]. by intros (r & ? & _).
    - intros j. rewrite elem_of_nil. split; [done|]. by intros [(r & ? & _) _]. }
  destruct (Hrun _ H0) as (I1 & I2 & I3). cbv zeta.
  split_and!.
  - apply I2.
  - rewrite I3, I2. done.
  - intros kind Hk Hl. destruct (I1 k kind Hk) as (r & Hr & Hu).
    split.
    + apply I2. exists r. split; [done|congruence].
    + rewrite I3. intros [_ Hn]. congruence.
Qed.

(** *** A form in use *)

Definition two_answers : Page :=
  run (js "A7") (fresh_form 2 (js "/assignments/A7"))
    [Edit 0 (js "x = 4"); Edit 1 (js "y = 5")].

Example answers_are_numbered_from_one :
  getAnswers two_answers = {[ 1 := js "x = 4"; 2 := js "y = 5" ]}.
Proof. apply (bool_decide_unpack _). vm_compute. exact I. Qed.

Example submit_and_redirect :
  let p :=
    run (js "A7") two_answers
      [ ClickSubmit; ClickConfirm true;
        SubmitSettled 0 (Chat.Json (Some {| submit_success := true;
          submit_message := None; submission_id := Some (js "S12");
          submit_error := None |}));
        TimeoutDue 0 ] in
  location p = js "/submissions/S12"
  ∧ modal_calls p = [ConfirmShow; ConfirmHide; LoadingShow 0; LoadingHide 0]
  ∧ Chat.toast_body <$> Chat.toasts (base p) = [js "Assignment submitted!"].
Proof. repeat split. Qed.

Example feedback_without_text_is_an_error :
  let p :=
    run (js "A7") two_answers
      [ ClickFeedback;
        FeedbackSettled 0 (Chat.Json (Some {| feedback_success := true;
          feedback := None; feedback_error := None |})) ] in
  feedback_shown p = false
  ∧ modal_calls p = [LoadingShow 0; LoadingHide 0; LoadingHide 0]
  ∧ Chat.toast_body <$> Chat.toasts (base p) = [js "Failed to get AI feedback"].
Proof. repeat split. Qed.

(** Feedback with a tag and two lines, as it reaches the page. *)
Example feedback_with_a_tag :
  feedback_html
    (getAIFeedback_resume 0
       (Chat.Json (Some {| feedback_success := true;
          feedback := Some (js "<b>Good</b>" ++ newline ++ js "Tom & Jerry");
          feedback_error := None |}))
       two_answers)
  = js "<b>Good</b><br>Tom & Jerry".
Proof. reflexivity. Qed.

Lemma feedback_markup_is_raw_witness :
  let data := {| feedback_success := true;
                 feedback := Some (js "a" ++ newline ++ js "<i>b</i>");
                 feedback_error := None |} in
  feedback_success data = true
  ∧ feedback_html (getAIFeedback_resume 0 (Chat.Json (Some data)) two_answers)
    = js "a<br><i>b</i>".
Proof.
  intros data. split; [reflexivity|].
  exact (eq_trans
    (proj1 (feedback_markup_is_raw 0 data (js "a" ++ newline ++ js "<i>b</i>")
      two_answers eq_refl eq_refl))
    eq_refl).
Defined.

Lemma autosave_never_notifies_witness :
  let evs :=
    [ Edit 0 (js "x = 5"); AutosaveDue;
      SaveSettled 0 (Chat.Json {| Chat.success := false;
                                  Chat.error := Some (js "Session expired") |});
      AutosaveDue; SaveSettled 1 Chat.Failed ] in
  only_autosaves two_answers
  ∧ Forall (λ ev, background ev = true) evs
  ∧ Chat.toasts (base (run (js "A7") two_answers evs)) = [].
Proof.
  intros evs.
  assert (Hp : only_autosaves two_answers) by apply map_Forall_empty.
  assert (He : Forall (λ ev, background ev = true) evs)
    by (repeat constructor).
  split; [exact Hp|]. split; [exact He|].
  exact (proj1 (autosave_never_notifies (js "A7") evs two_answers Hp He)).
Defined.

Lemma manual_save_always_answers_witness :
  Chat.toast_el (base two_answers) = true
  ∧ Chat.toast_body <$>
      Chat.toasts (base (saveDraft_resume false Chat.Failed two_answers))
    = [js "Failed to save draft"].
Proof.
  split; [reflexivity|].
  exact (f_equal (fmap (M:=list) Chat.toast_body)
    (proj1 (manual_save_always_answers Chat.Failed two_answers eq_refl))).
Defined.

Lemma no_redirect_without_accepted_submit_witness :
  let evs :=
    [ ClickSubmit; ClickConfirm true;
      SubmitSettled 0 (Chat.Json (Some {| submit_success := false;
        submit_message := None; submission_id := None;
        submit_error := Some (js "Past the deadline") |}));
      TimeoutDue 0 ] in
  timeouts two_answers = []
  ∧ Forall (λ ev, accepted_submit ev = false) evs
  ∧ location (run (js "A7") two_answers evs) = js "/assignments/A7".
Proof.
  intros evs.
  assert (He : Forall (λ ev, accepted_submit ev = false) evs)
    by (repeat constructor).
  split; [reflexivity|]. split; [exact He|].
  exact (proj1 (no_redirect_without_accepted_submit (js "A7") evs two_answers
    eq_refl He)).
Defined.

End Assignment.

(** ** Form validation and the request helper of the main script *)

Module Helpers.
Import JsString.

(** *** [validateForm] *)

(** An element matched by [[required]]: its value and its class list. *)
Record Input := { value : jsstring; classList : list jsstring }.

(** [classList.add(token)]: the list is a set, a token is added once. *)
Definition classList_add (token : jsstring) (cl : list jsstring) : list jsstring :=
  if bool_decide (token ∈ cl) then cl else cl ++ [token].

(** [classList.remove(token)] *)
Definition classList_remove (token : jsstring) (cl : list jsstring)
    : list jsstring :=
  filter (λ t, t ≠ token) cl.

Definition is_invalid : jsstring := js "is-invalid".

(** The body of the [forEach]: the input as it is left, and [isValid]. *)
Definition check_input (isValid : bool) (input : Input) : Input * bool :=
  if falsy (trim (value input)) then
    ({| value := value input;
        classList := classList_add is_invalid (classList input) |}, false)
  else
    ({| value := value input;
        classList := classList_remove is_invalid (classList input) |}, isValid).

(** [validateForm(formEl)] on the required inputs of the form, in document
    order: the inputs as they are left, and the value returned. *)
Definition validateForm (required : list Input) : list Input * bool :=
  foldl (λ '(seen, isValid) input,
           let '(input', isValid') := check_input isValid input in
           (seen ++ [input'], isValid'))
        ([], true) required.

(** An input after the check. *)
Definition marked (input : Input) : Input := (check_input true input).1.

Definition filled (input : Input) : bool := negb (blank (value input)).

Lemma check_input_fst isValid input :
  (check_input isValid input).1 = marked input.
Proof. unfold marked, check_input. by destruct (falsy _). Qed.

Lemma check_input_snd isValid input :
  (check_input isValid input).2 = filled input && isValid.
Proof.
  unfold check_input, filled. rewrite Chat.falsy_trim.
  by destruct (blank _).
Qed.

Lemma validateForm_closed_form required :
  validateForm required = (marked <$> required, forallb filled required).
Proof.
  unfold validateForm.
  assert (H : ∀ seen isValid,
    foldl (λ '(seen, isValid) input,
             let '(input', isValid') := check_input isValid input in
             (seen ++ [input'], isValid'))
          (seen, isValid) required
    = (seen ++ (marked <$> required), forallb filled required && isValid)).
  { induction required as [|input rest IH]; intros seen isValid; simpl.
    - by rewrite app_nil_r.
    - destruct (check_input isValid input) as [input' isValid'] eqn:E.
      rewrite IH.
      pose proof (check_input_fst isValid input) as H1.
      pose proof (check_input_snd isValid input) as H2.
      rewrite E in H1, H2. simpl in H1, H2. subst.
      rewrite <- app_assoc. simpl. f_equal.
      destruct (filled input), (forallb filled rest), isValid; done. }
  rewrite H. simpl. by rewrite andb_true_r.
Qed.

(** X11.  [validateForm] returns true exactly when no required input is blank
    (empty or white space only); one blank input anywhere in the form is
    enough to make it false. *)
Theorem validateForm_true_iff required :
  (validateForm required).2 = true
  ↔ Forall (λ input, blank (value input) = false) required.
Proof.
  rewrite validateForm_closed_form. simpl.
  rewrite forallb_forall, Forall_forall. unfold filled.
  split; intros H input Hin.
  - apply list_elem_of_In in Hin. specialize (H input Hin).
    by destruct (blank (value input)).
  - apply list_elem_of_In in Hin. specialize (H input Hin).
    by destruct (blank (value input)).
Qed.

Lemma elem_of_classList_add token t cl :
  t ∈ classList_add token cl ↔ t = token ∨ t ∈ cl.
Proof.
  unfold classList_add. case_bool_decide as Hin.
  - split; [by right | by intros [->|?]].
  - rewrite elem_of_app, list_elem_of_singleton. tauto.
Qed.

Lemma elem_of_classList_remove token t cl :
  t ∈ classList_remove token cl ↔ t ≠ token ∧ t ∈ cl.
Proof. unfold classList_remove. by rewrite list_elem_of_filter. Qed.

(** X12.  The form is checked to the end, not up to the first blank input:
    after the call every required input carries [is-invalid] exactly when
    it is blank, whatever it carried before, keeps its value and keeps
    every other class. *)
Theorem validateForm_marks_blank_inputs required i input :
  required !! i = Some input →
  ∃ input',
    (validateForm required).1 !! i = Some input'
    ∧ value input' = value input
    ∧ (is_invalid ∈ classList input' ↔ blank (value input) = true)
    ∧ (∀ t, t ≠ is_invalid → t ∈ classList input' ↔ t ∈ classList input)
    ∧ length (validateForm required).1 = length required.
Proof.
  intros Hi. rewrite validateForm_closed_form. simpl.
  rewrite list_lookup_fmap, Hi, length_fmap. simpl.
  exists (marked input). split; [done|].
  unfold marked, check_input. rewrite Chat.falsy_trim.
  destruct (blank (value input)); simpl; split_and!; try done.
  - rewrite elem_of_classList_add. split; [done | by left].
  - intros t Ht. rewrite elem_of_classList_add. split; [by intros [?|?]|by right].
  - rewrite elem_of_classList_remove. split; [by intros [? _]|done].
  - intros t Ht. rewrite elem_of_classList_remove. tauto.
Qed.

Lemma classList_add_idem token cl :
  classList_add token (classList_add token cl) = classList_add token cl.
Proof.
  unfold classList_add at 1. rewrite bool_decide_true; [done|].
  apply elem_of_classList_add. by left.
Qed.

Lemma classList_remove_idem token cl :
  classList_remove token (classList_remove token cl) = classList_remove token cl.
Proof.
  unfold classList_remove. induction cl as [|t cl IH]; [done|].
  rewrite (filter_cons _ t cl). case_decide.
  - rewrite filter_cons_True by done. by rewrite IH.
  - done.
Qed.

(** X13.  Checking a form twice is checking it once. *)
Theorem validateForm_idempotent required :
  validateForm (validateForm required).1 = validateForm required.
Proof.
  rewrite !validateForm_closed_form. simpl. f_equal.
  - rewrite <- list_fmap_compose. apply list_fmap_ext. intros _ input _.
    unfold marked, check_input. simpl. rewrite !Chat.falsy_trim.
    destruct (blank (value input)) eqn:E; simpl; rewrite E; simpl; f_equal.
    + apply classList_add_idem.
    + apply classList_remove_idem.
  - induction required as [|input rest IH]; [done|].
    rewrite fmap_cons. cbn [forallb]. rewrite IH.
    f_equal. unfold filled, marked, check_input. rewrite Chat.falsy_trim.
    destruct (blank (value input)) eqn:E; simpl; by rewrite E.
Qed.

Definition text_input (v : string) (classes : list string) : Input :=
  {| value := js v; classList := js <$> classes |}.

Example validate_a_form :
  validateForm
    [ text_input "Ada" ["form-control"; "is-invalid"];
      text_input "  " ["form-control"];
      text_input "x" ["is-invalid"; "form-control"; "is-invalid"] ]
  = ([ text_input "Ada" ["form-control"];
       text_input "  " ["form-control"; "is-invalid"];
       text_input "x" ["form-control"] ], false).
Proof. vm_compute. reflexivity. Qed.

Lemma validateForm_marks_blank_inputs_witness :
  let form := [text_input "Ada" ["is-invalid"]; text_input " " []] in
  form !! 1 = Some (text_input " " [])
  ∧ ∃ input', (validateForm form).1 !! 1 = Some input'
              ∧ (is_invalid ∈ classList input' ↔ blank (js " ") = true).
Proof.
  intros form. split; [reflexivity|].
  destruct (validateForm_marks_blank_inputs form 1 (text_input " " []) eq_refl)
    as (input' & H1 & _ & H3 & _).
  exists input'. exact (conj H1 H3).
Defined.

(** *** [apiRequest] *)

Section Api.
Context `{JsNumber}.

Abbreviation Value := ServiceWorker.Value.

(** The options [fetch] is called with; the body is the value
    [JSON.stringify] is given. *)
Record FetchOptions := {
  fetch_method : jsstring;
  content_type : option jsstring;
  fetch_body : option Value
}.

(** What the network does with the request. *)
Inductive Exchange :=
| Unreachable                              (* [fetch] rejects *)
| NotJson (ok : bool)                      (* [response.json()] rejects *)
| Parsed (ok : bool) (result : Value).     (* [ok] is [response.ok] *)

Inductive Error :=
| FetchError                      (* the rejection of [fetch] *)
| SyntaxError                     (* the rejection of [json()] *)
| PropertyError                   (* [.error] read on [null] *)
| RequestError (message : Value). (* [new Error(..)] of the helper *)

Inductive Outcome :=
| Returns (result : Value)
| Throws (e : Error).

(** [result.error]: a [TypeError] ([None]) on [null] and [undefined]. *)
Definition error_of (result : Value) : option Value :=
  match result with
  | ServiceWorker.Null | ServiceWorker.Undefined => None
  | _ =>
    Some (default ServiceWorker.Undefined
            (ServiceWorker.own_properties result !! js "error"))
  end.

Definition build_request (method : jsstring) (data : Value) : FetchOptions :=
  if ServiceWorker.truthy data then
    {| fetch_method := method;
       content_type := Some (js "application/json");
       fetch_body := Some data |}
  else
    {| fetch_method := method; content_type := None; fetch_body := None |}.

(** The [try] block. *)
Definition attempt (x : Exchange) : Outcome :=
  match x with
  | Unreachable => Throws FetchError
  | NotJson _ => Throws SyntaxError
  | Parsed ok result =>
    if ok then Returns result
    else
      match error_of result with
      | Some e =>
        Throws (RequestError
          (ServiceWorker.or_default e
             (ServiceWorker.String (js "Request failed"))))
      | None => Throws PropertyError
      end
  end.

(** [apiRequest(url, method = 'GET', data = null)]: the request made, what
    the call settles to, and the lines it writes with [console.error]. *)
Definition apiRequest (url method : jsstring) (data : Value) (x : Exchange)
    : (jsstring * FetchOptions) * Outcome * list jsstring :=
  let options := build_request method data in
  match attempt x with
  | Returns result => ((url, options), Returns result, [])
  | Throws e => ((url, options), Throws e, [js "API request error:"])
  end.

(** X14.  [apiRequest] returns the parsed body exactly when the response is ok
    and its body parses; every other exchange ends in a rejection that is
    logged once and passed on to the caller, never swallowed.  The body is
    sent, with its content type, only for a truthy [data]: a falsy
    payload such as [0], [false] or the empty string is not sent. *)
Theorem apiRequest_settles url method data x :
  let '(request, outcome, log) := apiRequest url method data x in
  match x with
  | Parsed true result => outcome = Returns result ∧ log = []
  | _ => (∃ e, outcome = Throws e) ∧ log = [js "API request error:"]
  end
  ∧ request.1 = url
  ∧ fetch_method request.2 = method
  ∧ fetch_body request.2
    = (if ServiceWorker.truthy data then Some data else None)
  ∧ content_type request.2
    = (if ServiceWorker.truthy data then Some (js "application/json")
       else None).
Proof.
  assert (Hreq : ∀ o : FetchOptions, o = build_request method data →
    fetch_method o = method
    ∧ fetch_body o = (if ServiceWorker.truthy data then Some data else None)
    ∧ content_type o
      = (if ServiceWorker.truthy data then Some (js "application/json")
         else None)).
  { intros o ->. unfold build_request. by destruct (ServiceWorker.truthy data). }
  unfold apiRequest.
  destruct x as [|ok|[] result]; simpl;
    try destruct (error_of result); simpl;
    (split; [split; eauto|]); (split; [done|]); by apply Hreq.
Qed.

(** When the server answers with a status that is not ok, the error the
    caller gets carries the body's [error] when it has a truthy one and
    the stock text otherwise; a body that is [null] makes the helper fail
    on reading it. *)
Theorem apiRequest_error_message url method data result :
  (apiRequest url method data (Parsed false result)).1.2
  = match result with
    | ServiceWorker.Null | ServiceWorker.Undefined => Throws PropertyError
    | _ =>
      Throws (RequestError
        (match ServiceWorker.own_properties result !! js "error" with
         | Some e =>
           if ServiceWorker.truthy e then e
           else ServiceWorker.String (js "Request failed")
         | None => ServiceWorker.String (js "Request failed")
         end))
    end.
Proof.
  unfold apiRequest. simpl.
  destruct result; simpl; try done;
    try (by destruct (_ !! js "error") as [e|]; simpl;
         unfold ServiceWorker.or_default; simpl).
Qed.

End Api.

Example server_error_text :
  (apiRequest (js "/api/x") (js "POST") (ServiceWorker.Number 0%Q)
     (Parsed false (ServiceWorker.Object
        {[ js "error" := ServiceWorker.String (js "Not allowed") ]}))).1
  = ((js "/api/x",
      {| fetch_method := js "POST"; content_type := None; fetch_body := None |}),
     Throws (RequestError (ServiceWorker.String (js "Not allowed")))).
Proof. reflexivity. Qed.

End Helpers.

(** ** The canvas under its events *)

Module Strokes.
Import JsString Drawing.

Section Pointer.
Context `{JsNumber}.
Variable rasterize : Context2D → Point → Point → Bitmap → Bitmap.
Variable css_color : jsstring → bool.

(** The listeners [init] registers, the window's [resize] among them, and
    the three methods a page calls. *)
Inductive Event :=
| MouseDown (clientX clientY : num) (rect : DOMRect)
| MouseMove (clientX clientY : num) (rect : DOMRect)
| MouseUp
| MouseOut
| TouchStart (touches : list Touch) (rect : DOMRect)
| TouchMove (touches : list Touch) (rect : DOMRect)
| TouchEnd
| WindowResize (container : option DOMRect)
| Clear
| SetLineColor (color : jsstring)
| SetLineWidth (width : num).

Definition handle (dc : DrawingCanvas) (ev : Event) : Completion DrawingCanvas :=
  match ev with
  | MouseDown x y rect => Normal (startDrawing x y rect dc)
  | MouseMove x y rect => draw rasterize x y rect dc
  | MouseUp | MouseOut | TouchEnd => Normal (stopDrawing dc)
  | TouchStart touches rect => Normal (handleTouchStart touches rect dc)
  | TouchMove touches rect => handleTouchMove rasterize touches rect dc
  | WindowResize container => resize css_color container dc
  | Clear => Normal (clear css_color dc)
  | SetLineColor color => Normal (setLineColor css_color color dc)
  | SetLineWidth width => Normal (setLineWidth width dc)
  end.

(** An exception ends the listener; the canvas stays as the listener left
    it. *)
Definition step (dc : DrawingCanvas) (ev : Event) : DrawingCanvas :=
  state_of (handle dc ev).

Definition run (dc : DrawingCanvas) (evs : list Event) : DrawingCanvas :=
  foldl step dc evs.

(** *** The pen *)

(** While a stroke is in progress the last point is known. *)
Definition pen_ready (dc : DrawingCanvas) : Prop :=
  isDrawing dc = true → is_Some (lastPoint dc).

Lemma apply_force_pen touch dc :
  isDrawing (apply_force touch dc) = isDrawing dc
  ∧ lastPoint (apply_force touch dc) = lastPoint dc
  ∧ strokes (apply_force touch dc) = strokes dc
  ∧ canvas (apply_force touch dc) = canvas dc.
Proof.
  unfold apply_force. destruct (force touch) as [f|]; [|done].
  by destruct (num_truthy f).
Qed.

Lemma resize_pen container dc :
  isDrawing (state_of (resize css_color container dc)) = isDrawing dc
  ∧ lastPoint (state_of (resize css_color container dc)) = lastPoint dc
  ∧ strokes (state_of (resize css_color container dc)) = strokes dc.
Proof.
  unfold resize. destruct container as [rect|]; [|done].
  by destruct (getImageData _ _ _ _ _).
Qed.

Lemma step_pen_ready ev dc : pen_ready dc → pen_ready (step dc ev).
Proof.
  unfold pen_ready, step. intros Hp.
  destruct ev as [x y rect|x y rect| | |touches rect|touches rect| |c| |c|v];
    simpl; try done; try (by eexists).
  - unfold draw. destruct (isDrawing dc) eqn:Hd; simpl; [|by rewrite Hd].
    destruct (Hp eq_refl) as [p Hl]. rewrite Hl. simpl. by eexists.
  - unfold handleTouchStart.
    destruct touches as [|touch [|]]; try done.
    destruct (apply_force_pen touch
      (set_pen true (Some (getTouchCoordinates touch rect dc)) dc))
      as (_ & -> & _). by eexists.
  - unfold handleTouchMove. destruct (isDrawing dc) eqn:Hd; simpl;
      [|by rewrite Hd].
    destruct touches as [|touch [|]]; simpl; try (by rewrite Hd).
    destruct (apply_force_pen touch dc) as (_ & Hl & _). rewrite Hl.
    destruct (Hp eq_refl) as [p ->]. simpl. by eexists.
  - destruct (resize_pen c dc) as (-> & -> & _). done.
Qed.

Lemma run_pen_ready evs dc : pen_ready dc → pen_ready (run dc evs).
Proof.
  revert dc. induction evs as [|ev evs IH]; intros dc Hp; [done|].
  simpl. by apply IH, step_pen_ready.
Qed.

Definition is_resize (ev : Event) : bool :=
  match ev with WindowResize _ => true | _ => false end.

(** X15.  The listeners keep the last point known for as long as a stroke is in
    progress, so that whatever the sequence of events before, [drawLine]
    is never given a missing point: no pointer listener ever throws.
    (Only [resize] can, on an empty canvas.) *)
Theorem pointer_listeners_never_throw dc evs ev :
  pen_ready dc →
  is_resize ev = false →
  handle (run dc evs) ev = Normal (step (run dc evs) ev).
Proof.
  intros Hp Hev. pose proof (run_pen_ready evs dc Hp) as Hr.
  generalize dependent (run dc evs). intros d Hd. unfold step.
  destruct ev as [x y rect|x y rect| | |touches rect|touches rect| |c| |c|v];
    simpl; try done.
  - unfold draw. destruct (isDrawing d) eqn:E; simpl; [|done].
    destruct (Hd E) as [p ->]. done.
  - unfold handleTouchMove. destruct (isDrawing d) eqn:E; simpl; [|done].
    destruct touches as [|touch [|]]; simpl; try done.
    destruct (apply_force_pen touch d) as (_ & -> & _).
    destruct (Hd E) as [p ->]. done.
Qed.

(** *** Strokes *)

(** A pointer move: of the mouse, or of the fingers on the screen. *)
Definition is_move (ev : Event) : bool :=
  match ev with MouseMove _ _ _ | TouchMove _ _ => true | _ => false end.

(** The segments a move strokes while the pen is down: one, or none when
    the screen is touched at no or at several points. *)
Definition segments_of (ev : Event) : nat :=
  match ev with
  | MouseMove _ _ _ | TouchMove [_] _ => 1
  | _ => 0
  end.

(** The segments run from [p] to [q], each starting where the one before
    it ends. *)
Fixpoint chained (p : Point) (segments : list Stroke) (q : Point) : Prop :=
  match segments with
  | [] => p = q
  | s :: rest => stroke_from s = p ∧ chained (stroke_to s) rest q
  end.

Lemma step_move ev dc p :
  is_move ev = true → isDrawing dc = true → lastPoint dc = Some p →
  ∃ new q,
    strokes (step dc ev) = strokes dc ++ new
    ∧ length new = segments_of ev
    ∧ chained p new q
    ∧ lastPoint (step dc ev) = Some q
    ∧ isDrawing (step dc ev) = true.
Proof.
  intros Hev Hd Hp. unfold step.
  destruct ev as [x y rect|x y rect| | |touches rect|touches rect| |c| |c|v];
    try discriminate; simpl.
  - unfold draw. rewrite Hd, Hp. simpl.
    eexists [_], _. simpl. by split_and!.
  - unfold handleTouchMove. rewrite Hd. simpl.
    destruct touches as [|touch [|]]; simpl;
      try (exists [], p; by rewrite app_nil_r).
    destruct (apply_force_pen touch dc) as (Hd' & Hl & Hs & _).
    rewrite Hl, Hp. simpl. rewrite Hs, Hd', Hd.
    eexists [_], _. simpl. by split_and!.
Qed.

(** X16.  From pen down to pen up the segments form one polyline: every move
    strokes exactly one segment (none for a multi-touch move), the first
    starts at the point where the pen went down, each one starts where the
    one before ended, and the last point is the end of the last segment. *)
Theorem stroke_is_a_polyline evs dc p :
  isDrawing dc = true →
  lastPoint dc = Some p →
  Forall (λ ev, is_move ev = true) evs →
  ∃ new q,
    strokes (run dc evs) = strokes dc ++ new
    ∧ length new = sum_list (segments_of <$> evs)
    ∧ chained p new q
    ∧ lastPoint (run dc evs) = Some q
    ∧ isDrawing (run dc evs) = true.
Proof.
  intros Hd Hp Hevs. revert dc p Hd Hp.
  induction Hevs as [|ev evs Hev _ IH]; intros dc p Hd Hp.
  - exists [], p. by rewrite app_nil_r.
  - destruct (step_move ev dc p Hev Hd Hp) as (n1 & q1 & S1 & L1 & C1 & P1 & D1).
    destruct (IH _ _ D1 P1) as (n2 & q2 & S2 & L2 & C2 & P2 & D2).
    exists (n1 ++ n2), q2. simpl run. split_and!; try done.
    + by rewrite S2, S1, app_assoc.
    + rewrite length_app, L1, L2. done.
    + clear -C1 C2. revert p C1.
      induction n1 as [|s rest IHn]; intros p; simpl.
      * by intros ->.
      * intros [? ?]. split; [done|]. by apply IHn.
Qed.

(** X17.  With the pen up, moving the mouse or the fingers changes nothing: no
    segment, no pixel, no state. *)
Theorem moves_with_pen_up_draw_nothing evs dc :
  isDrawing dc = false →
  Forall (λ ev, is_move ev = true) evs →
  run dc evs = dc.
Proof.
  intros Hd Hevs. induction Hevs as [|ev evs Hev _ IH]; [done|].
  simpl. assert (step dc ev = dc) as ->; [|done].
  unfold step. destruct ev; try discriminate; simpl.
  - unfold draw. by rewrite Hd.
  - unfold handleTouchMove. by rewrite Hd.
Qed.

(** A touch with no finger or with more than one neither starts a stroke
    nor ends the one in progress; a single touch starts one at its point,
    also in the middle of a stroke. *)
Theorem only_single_touch_starts_a_stroke touches rect dc :
  match touches with
  | [touch] =>
    isDrawing (handleTouchStart touches rect dc) = true
    ∧ lastPoint (handleTouchStart touches rect dc)
      = Some (getTouchCoordinates touch rect dc)
    ∧ strokes (handleTouchStart touches rect dc) = strokes dc
  | _ => handleTouchStart touches rect dc = dc
  end.
Proof.
  destruct touches as [|touch [|]]; try done. unfold handleTouchStart.
  by destruct (apply_force_pen touch
    (set_pen true (Some (getTouchCoordinates touch rect dc)) dc))
    as (-> & -> & -> & _).
Qed.

(** *** Resizing, clearing, creating *)

Lemma pixel_at_outside b x y :
  cols b ≤ x ∨ rows b ≤ y → pixel_at b x y = None.
Proof. intros Hout. unfold pixel_at. rewrite decide_False by lia. done. Qed.

(** X18.  A resize puts the pen back as configured: round caps and joins, the
    base width and colour of the options when the context accepts them
    (its defaults, width 1 and black, when it does not), whatever width a
    touch had left in the context.  The stroke in progress and the options
    are untouched. *)
Theorem resize_restores_pen rect dc :
  cols (canvas dc) ≠ 0 →
  rows (canvas dc) ≠ 0 →
  ∃ dc',
    resize css_color (Some rect) dc = Normal dc'
    ∧ lineCap (ctx dc') = js "round"
    ∧ lineJoin (ctx dc') = js "round"
    ∧ lineWidth (ctx dc')
      = (if num_is_width (options_lineWidth dc)
         then options_lineWidth dc else num_of_Z 1)
    ∧ strokeStyle (ctx dc')
      = (if css_color (options_lineColor dc)
         then options_lineColor dc else js "#000000")
    ∧ options_lineWidth dc' = options_lineWidth dc
    ∧ options_lineColor dc' = options_lineColor dc
    ∧ isDrawing dc' = isDrawing dc
    ∧ lastPoint dc' = lastPoint dc
    ∧ strokes dc' = strokes dc.
Proof.
  intros Hc Hr. unfold resize, getImageData.
  rewrite decide_False by tauto.
  eexists. split; [done|]. simpl.
  unfold set_lineWidth, set_strokeStyle. simpl.
  destruct (css_color (options_lineColor dc)),
    (num_is_width (options_lineWidth dc)); done.
Qed.

(** X19.  What a resize uncovers is not painted: the pixels of the new canvas
    that lie outside the old one are transparent black, not the white of
    [clear]. *)
Theorem resize_uncovers_transparent_pixels container dc x y :
  let dc' := state_of (resize css_color container dc) in
  x < cols (canvas dc') →
  y < rows (canvas dc') →
  cols (canvas dc) ≤ x ∨ rows (canvas dc) ≤ y →
  pixel_at (canvas dc') x y = Some transparent_black.
Proof.
  unfold resize. destruct container as [rect|]; simpl; [|lia].
  unfold getImageData. case_decide as Hz; simpl; [lia|].
  intros Hx Hy Hout.
  unfold putImageData. rewrite pixel_at_tabulate by done.
  rewrite decide_True by lia. rewrite !Nat.sub_0_r.
  rewrite (pixel_at_outside (tabulate _ _ _) x y) by (simpl; lia).
  simpl. unfold blank_bitmap. by rewrite pixel_at_tabulate.
Qed.

(** X20.  A canvas without columns or rows cannot be resized by this class:
    reading its raster throws before the new size is assigned, every time.
    The canvas reaches that state when its parent is measured with a width
    that converts to zero. *)
Theorem empty_canvas_stays_empty rect dc containers :
  cols (canvas dc) ≠ 0 →
  rows (canvas dc) ≠ 0 →
  num_to_ulong (rect_width rect) = 0 →
  let dc' := step dc (WindowResize (Some rect)) in
  cols (canvas dc') = 0
  ∧ (∀ rect', resize css_color (Some rect') dc'
              = Throw (js "IndexSizeError") dc')
  ∧ run dc' (WindowResize <$> containers) = dc'.
Proof.
  intros Hc Hr Hw dc'.
  assert (Hc' : cols (canvas dc') = 0).
  { subst dc'. unfold step. simpl. unfold resize, getImageData.
    rewrite decide_False by tauto. simpl. done. }
  assert (Ht : ∀ rect', resize css_color (Some rect') dc'
                        = Throw (js "IndexSizeError") dc').
  { intros rect'. unfold resize, getImageData.
    rewrite decide_True by (left; done). done. }
  split_and!; try done.
  induction containers as [|c cs IH]; [done|].
  simpl. assert (step dc' (WindowResize c) = dc') as ->; [|done].
  unfold step. simpl. destruct c as [rect'|]; [|done]. by rewrite Ht.
Qed.


(** X22.  A new [DrawingCanvas] on a canvas that is not empty, inside a parent:
    it has the parent's width and its height or 300 if that is more, every
    pixel white, the pen up, and the colour and width given, or
    [#1e293b] and 3. *)
Theorem new_canvas_is_blank b color width rect :
  cols b ≠ 0 →
  rows b ≠ 0 →
  ∃ dc,
    construct css_color b color width (Some rect) = Normal dc
    ∧ cols (canvas dc) = num_to_ulong (rect_width rect)
    ∧ rows (canvas dc)
      = num_to_ulong (num_max (num_of_Z 300) (rect_height rect))
    ∧ (∀ x y, x < cols (canvas dc) → y < rows (canvas dc) →
              pixel_at (canvas dc) x y = Some white)
    ∧ isDrawing dc = false
    ∧ lastPoint dc = None
    ∧ strokes dc = []
    ∧ options_lineWidth dc = default (num_of_Z 3) width
    ∧ options_lineColor dc = default (js "#1e293b") color.
Proof.
  intros Hc Hr. unfold construct, resize, getImageData. simpl.
  rewrite decide_False by tauto.
  eexists. split; [done|]. simpl. split_and!; try done.
  intros x y Hx Hy. unfold fill_all. by rewrite pixel_at_tabulate.
Qed.

End Pointer.

(** *** A stroke with the mouse *)

Definition pt (x y : Z) : Point (H:=rational_numbers) :=
  {| x_of := inject_Z x; y_of := inject_Z y |}.

Definition sheet : DrawingCanvas :=
  state_of (construct any_color (blank_bitmap 4 2) None None
              (Some (rect_of 4 300))).

Definition two_moves : list (Event (H:=rational_numbers)) :=
  [ MouseMove (inject_Z 2) (inject_Z 1) (rect_of 4 300);
    MouseMove (inject_Z 3) (inject_Z 1) (rect_of 4 300) ].

Definition sheet_pen_down : DrawingCanvas :=
  step no_raster any_color sheet
    (MouseDown (inject_Z 1) (inject_Z 1) (rect_of 4 300)).

Example a_stroke_of_two_segments :
  (λ s, (stroke_from s, stroke_to s, stroke_width s))
    <$> strokes (run no_raster any_color sheet_pen_down two_moves)
  = [ ((pt 1 1), (pt 2 1), 3%Q);
      ((pt 2 1), (pt 3 1), 3%Q) ].
Proof. reflexivity. Qed.

Lemma pointer_listeners_never_throw_witness :
  pen_ready sheet
  ∧ ∃ dc, handle no_raster any_color
            (run no_raster any_color sheet
               [TouchEnd; MouseOut;
                MouseDown (inject_Z 1) (inject_Z 1) (rect_of 4 300)])
            (TouchMove [touch_at 2 1 None] (rect_of 4 300))
          = Normal dc.
Proof.
  assert (Hp : pen_ready sheet) by (intros Hd; discriminate Hd).
  split; [exact Hp|]. eexists.
  exact (pointer_listeners_never_throw no_raster any_color sheet
    [TouchEnd; MouseOut; MouseDown (inject_Z 1) (inject_Z 1) (rect_of 4 300)]
    (TouchMove [touch_at 2 1 None] (rect_of 4 300)) Hp eq_refl).
Defined.

Lemma stroke_is_a_polyline_witness :
  isDrawing sheet_pen_down = true
  ∧ lastPoint sheet_pen_down = Some (pt 1 1)
  ∧ Forall (λ ev, is_move ev = true) two_moves
  ∧ ∃ new q,
      strokes (run no_raster any_color sheet_pen_down two_moves)
      = strokes sheet_pen_down ++ new
      ∧ length new = 2
      ∧ chained (pt 1 1) new q.
Proof.
  assert (He : Forall (λ ev, is_move ev = true) two_moves)
    by (repeat constructor).
  split; [reflexivity|]. split; [reflexivity|]. split; [exact He|].
  destruct (stroke_is_a_polyline no_raster any_color two_moves sheet_pen_down
    (pt 1 1) eq_refl eq_refl He)
    as (new & q & H1 & H2 & H3 & _).
  exists new, q. exact (conj H1 (conj H2 H3)).
Defined.

Lemma moves_with_pen_up_draw_nothing_witness :
  isDrawing sheet = false
  ∧ Forall (λ ev, is_move ev = true) two_moves
  ∧ run no_raster any_color sheet two_moves = sheet.
Proof.
  assert (He : Forall (λ ev, is_move ev = true) two_moves)
    by (repeat constructor).
  split; [reflexivity|]. split; [exact He|].
  exact (moves_with_pen_up_draw_nothing no_raster any_color two_moves sheet
    eq_refl He).
Defined.

Lemma resize_restores_pen_witness :
  let pressed :=
    handleTouchStart [touch_at 1 1 (Some 1%Q)] (rect_of 4 300) sheet in
  cols (canvas pressed) ≠ 0
  ∧ rows (canvas pressed) ≠ 0
  ∧ lineWidth (ctx pressed) = 6%Q
  ∧ lineWidth (ctx (state_of
      (resize any_color (Some (rect_of 5 300)) pressed))) = 3%Q.
Proof.
  intros pressed.
  assert (Hc : cols (canvas pressed) ≠ 0) by (vm_compute; discriminate).
  assert (Hr : rows (canvas pressed) ≠ 0) by (vm_compute; discriminate).
  split; [exact Hc|]. split; [exact Hr|]. split; [reflexivity|].
  destruct (resize_restores_pen any_color (rect_of 5 300) pressed Hc Hr)
    as (dc' & E & _ & _ & W & _).
  rewrite E. exact W.
Defined.

Lemma resize_uncovers_transparent_pixels_witness :
  let dc' := state_of (resize any_color (Some (rect_of 5 300)) sheet) in
  4 < cols (canvas dc')
  ∧ 0 < rows (canvas dc')
  ∧ pixel_at (canvas sheet) 3 0 = Some white
  ∧ pixel_at (canvas dc') 4 0 = Some transparent_black.
Proof.
  intros dc'.
  assert (Hx : 4 < cols (canvas dc')) by (vm_compute; lia).
  assert (Hy : 0 < rows (canvas dc')) by (vm_compute; lia).
  split; [exact Hx|]. split; [exact Hy|]. split; [reflexivity|].
  apply (resize_uncovers_transparent_pixels any_color
    (Some (rect_of 5 300)) sheet 4 0 Hx Hy).
  left. vm_compute. lia.
Defined.

Lemma empty_canvas_stays_empty_witness :
  cols (canvas sheet) ≠ 0
  ∧ rows (canvas sheet) ≠ 0
  ∧ num_to_ulong (rect_width (rect_of 0 0)) = 0
  ∧ let hidden :=
      step no_raster any_color sheet (WindowResize (Some (rect_of 0 0))) in
    cols (canvas hidden) = 0
    ∧ run no_raster any_color hidden
        (WindowResize <$> [Some (rect_of 800 600); Some (rect_of 4 300)])
      = hidden.
Proof.
  assert (Hc : cols (canvas sheet) ≠ 0) by (vm_compute; discriminate).
  assert (Hr : rows (canvas sheet) ≠ 0) by (vm_compute; discriminate).
  split; [exact Hc|]. split; [exact Hr|]. split; [reflexivity|].
  destruct (empty_canvas_stays_empty no_raster any_color (rect_of 0 0) sheet
    [Some (rect_of 800 600); Some (rect_of 4 300)] Hc Hr eq_refl)
    as (H1 & _ & H3).
  exact (conj H1 H3).
Defined.

Lemma new_canvas_is_blank_witness :
  cols (blank_bitmap 4 2) ≠ 0
  ∧ rows (blank_bitmap 4 2) ≠ 0
  ∧ ∃ dc, construct any_color (blank_bitmap 4 2) None None
            (Some (rect_of 4 300)) = Normal dc
          ∧ rows (canvas dc) = 300
          ∧ options_lineWidth dc = 3%Q.
Proof.
  assert (Hc : cols (blank_bitmap 4 2) ≠ 0) by (vm_compute; discriminate).
  assert (Hr : rows (blank_bitmap 4 2) ≠ 0) by (vm_compute; discriminate).
  split; [exact Hc|]. split; [exact Hr|].
  destruct (new_canvas_is_blank any_color (blank_bitmap 4 2) None None
    (rect_of 4 300) Hc Hr) as (dc & E & _ & R & _ & _ & _ & _ & W & _).
  exists dc. exact (conj E (conj R W)).
Defined.

End Strokes.

(** ** Pressure: the width of the line under touch events *)

Module Pressure.
Import JsString Drawing Strokes.

Section Width.
Context `{JsNumber}.
Variable rasterize : Context2D → Point → Point → Bitmap → Bitmap.
Variable css_color : jsstring → bool.

(** The event is a single touch that reports a force the script acts
    on. *)
Definition reports_force (ev : Event) : bool :=
  match ev with
  | TouchStart [touch] _ | TouchMove [touch] _ => has_force touch
  | _ => false
  end.

(** The event is a resize of the window or a call of [setLineWidth]. *)
Definition resets_width (ev : Event) : bool :=
  match ev with
  | WindowResize _ | SetLineWidth _ => true
  | _ => false
  end.

(** Over the events [evs] that follow the state [dc], the context keeps
    the width [v]: every segment stroked meanwhile has it, and so has the
    segment of one more move that reports no force. *)
Definition width_stays (dc : DrawingCanvas) (evs : list Event) (v : num)
    : Prop :=
  let dc' := run rasterize css_color dc evs in
  lineWidth (ctx dc') = v
  ∧ (∃ new, strokes dc' = strokes dc ++ new
            ∧ Forall (λ s, stroke_width s = v) new)
  ∧ ∀ next rect q,
      has_force next = false →
      isDrawing dc' = true → lastPoint dc' = Some q →
      ∃ s, strokes (step rasterize css_color dc' (TouchMove [next] rect))
           = strokes dc' ++ [s]
           ∧ stroke_from s = q
           ∧ stroke_width s = v.

Lemma step_keeps_width ev dc :
  reports_force ev = false → resets_width ev = false →
  lineWidth (ctx (step rasterize css_color dc ev)) = lineWidth (ctx dc)
  ∧ ∃ new, strokes (step rasterize css_color dc ev) = strokes dc ++ new
           ∧ Forall (λ s, stroke_width s = lineWidth (ctx dc)) new.
Proof.
  intros Hf Hr.
  assert (Hsame : ∀ dc' : DrawingCanvas,
    lineWidth (ctx dc') = lineWidth (ctx dc) → strokes dc' = strokes dc →
    lineWidth (ctx dc') = lineWidth (ctx dc)
    ∧ ∃ new, strokes dc' = strokes dc ++ new
             ∧ Forall (λ s, stroke_width s = lineWidth (ctx dc)) new).
  { intros dc' Hw Hs. split; [done|]. exists []. by rewrite app_nil_r. }
  unfold step.
  destruct ev as [x y rect|x y rect| | |touches rect|touches rect| |c| |c|v];
    try discriminate.
  - by apply (Hsame (startDrawing x y rect dc)).
  - simpl. unfold draw. destruct (isDrawing dc); simpl; [|by apply Hsame].
    destruct (lastPoint dc) as [p|]; simpl; [|by apply Hsame].
    split; [done|]. eexists [_]. split; [done|]. by apply Forall_singleton.
  - by apply (Hsame (stopDrawing dc)).
  - by apply (Hsame (stopDrawing dc)).
  - simpl. unfold handleTouchStart.
    destruct touches as [|touch [|]]; try (by apply Hsame).
    simpl in Hf. rewrite apply_force_forceless by done.
    by apply (Hsame (set_pen _ _ dc)).
  - simpl. unfold handleTouchMove.
    destruct (isDrawing dc); simpl; [|by apply Hsame].
    destruct touches as [|touch [|]]; simpl; try (by apply Hsame).
    simpl in Hf. rewrite apply_force_forceless by done.
    destruct (lastPoint dc) as [p|]; simpl; [|by apply Hsame].
    split; [done|]. eexists [_]. split; [done|]. by apply Forall_singleton.
  - by apply (Hsame (stopDrawing dc)).
  - apply (Hsame (clear css_color dc)); [|done]. simpl.
    unfold set_fillStyle. by destruct (css_color _).
  - apply (Hsame (setLineColor css_color c dc)); [|done]. simpl.
    unfold set_strokeStyle. by destruct (css_color _).
Qed.

Lemma run_keeps_width evs dc :
  Forall (λ ev, reports_force ev = false ∧ resets_width ev = false) evs →
  lineWidth (ctx (run rasterize css_color dc evs)) = lineWidth (ctx dc)
  ∧ ∃ new, strokes (run rasterize css_color dc evs) = strokes dc ++ new
           ∧ Forall (λ s, stroke_width s = lineWidth (ctx dc)) new.
Proof.
  intros Hevs. revert dc.
  induction Hevs as [|ev evs [Hf Hr] _ IH]; intros dc.
  - split; [done|]. exists []. by rewrite app_nil_r.
  - destruct (step_keeps_width ev dc Hf Hr) as (W1 & n1 & S1 & F1).
    destruct (IH (step rasterize css_color dc ev)) as (W2 & n2 & S2 & F2).
    simpl run. split; [congruence|].
    exists (n1 ++ n2). split; [by rewrite S2, S1, app_assoc|].
    apply Forall_app. split; [done|]. by rewrite <- W1.
Qed.

Lemma forceless_move next rect dc q :
  has_force next = false →
  isDrawing dc = true → lastPoint dc = Some q →
  ∃ s, strokes (step rasterize css_color dc (TouchMove [next] rect))
       = strokes dc ++ [s]
       ∧ stroke_from s = q
       ∧ stroke_width s = lineWidth (ctx dc).
Proof.
  intros Hn Hd Hq. unfold step. simpl. unfold handleTouchMove.
  rewrite Hd. simpl. rewrite apply_force_forceless by done.
  rewrite Hq. simpl. by eexists.
Qed.

Lemma width_stays_from dc evs v :
  lineWidth (ctx dc) = v →
  Forall (λ ev, reports_force ev = false ∧ resets_width ev = false) evs →
  width_stays dc evs v.
Proof.
  intros Hv Hevs. destruct (run_keeps_width evs dc Hevs) as (W & new & S & F).
  unfold width_stays. cbv zeta. rewrite Hv in W, F.
  split_and!; [done | by exists new |].
  intros next rect q Hn Hd Hq.
  destruct (forceless_move next rect _ q Hn Hd Hq) as (s & Hs & Hfrom & Hw).
  exists s. split_and!; [done..|]. by rewrite Hw.
Qed.

(** C8, as the code has it.  A single touch that reports a force other
    than zero sets the width of the context to the base width times the
    force times two (a positive finite value): when it starts a stroke,
    whatever state the pen is in, and when it extends the stroke in
    progress, whose segment is then stroked with that width.  The width
    stays: over any events that follow, as long as none of them reports a
    force, resizes the canvas or sets the base width, every segment is
    stroked with it, the segment of a move without force included. *)
Theorem touch_force_sets_width touch f rect dc evs :
  force touch = Some f →
  num_truthy f = true →
  let v := num_mul (num_mul (options_lineWidth dc) f) (num_of_Z 2) in
  num_is_width v = true →
  Forall (λ ev, reports_force ev = false ∧ resets_width ev = false) evs →
  let begun := step rasterize css_color dc (TouchStart [touch] rect) in
  lineWidth (ctx begun) = v
  ∧ isDrawing begun = true
  ∧ lastPoint begun = Some (getTouchCoordinates touch rect dc)
  ∧ strokes begun = strokes dc
  ∧ width_stays begun evs v
  ∧ ∀ p, isDrawing dc = true → lastPoint dc = Some p →
      ∃ dc1 s,
        handle rasterize css_color dc (TouchMove [touch] rect) = Normal dc1
        ∧ strokes dc1 = strokes dc ++ [s]
        ∧ stroke_from s = p
        ∧ stroke_to s = getTouchCoordinates touch rect dc
        ∧ stroke_width s = v
        ∧ lineWidth (ctx dc1) = v
        ∧ width_stays dc1 evs v.
Proof.
  intros Hf Ht v Hv Hevs begun.
  assert (Hb : lineWidth (ctx begun) = v
               ∧ isDrawing begun = true
               ∧ lastPoint begun = Some (getTouchCoordinates touch rect dc)
               ∧ strokes begun = strokes dc).
  { subst begun. unfold step. simpl. unfold handleTouchStart.
    destruct (apply_force_width touch f
      (set_pen true (Some (getTouchCoordinates touch rect dc)) dc) Hf Ht Hv)
      as (Hw & _ & Hd & Hp & Hs & _).
    by rewrite Hw, Hd, Hp, Hs. }
  destruct Hb as (Hb1 & Hb2 & Hb3 & Hb4).
  split_and!; try done.
  - by apply width_stays_from.
  - intros p Hd Hp.
    destruct (apply_force_width touch f dc Hf Ht Hv)
      as (Hw & Ho & Hd' & Hp' & Hs & _).
    rewrite Hp in Hp'.
    destruct (handleTouchMove_segment rasterize touch rect dc p Hd Hp Hp')
      as (dc1 & E1 & S1 & C1 & _).
    eexists dc1, _. split_and!; [exact E1 | by rewrite S1, Hs | done | done
      | done | by rewrite C1 |].
    apply width_stays_from; [by rewrite C1 | done].
Qed.

End Width.

(** The first touch on a canvas of base width 3, at full force, and a move
    that reports no force. *)
Lemma touch_force_sets_width_witness :
  isDrawing small_canvas = false
  ∧ options_lineWidth small_canvas = 3%Q
  ∧ lineWidth (ctx (step no_raster any_color small_canvas
      (TouchStart [touch_at 10 10 (Some 1%Q)] (rect_of 4 2)))) = 6%Q.
Proof.
  split; [reflexivity|]. split; [reflexivity|].
  exact (proj1 (touch_force_sets_width no_raster any_color
    (touch_at 10 10 (Some 1%Q)) 1%Q (rect_of 4 2) small_canvas
    [TouchMove [touch_at 20 10 None] (rect_of 4 2); MouseUp]
    eq_refl eq_refl eq_refl
    ltac:(repeat constructor))).
Defined.

End Pressure.

(** ** The service worker: cache and notification clicks *)

Module Worker.
Import JsString.

Definition CACHE_NAME : jsstring := js "school-portal-v1".
Definition OFFLINE_URL : jsstring := js "/offline.html".

Definition CACHE_ASSETS : list jsstring :=
  [js "/"; js "/static/css/style.css"; js "/static/js/main.js";
   js "/offline.html"].

Record Response := { status : N; payload : jsstring }.

(** [response.ok] *)
Definition ok (r : Response) : bool :=
  ((200 <=? status r) && (status r <=? 299))%N.

(** A cache maps URLs to responses; the cache storage keeps its caches in
    the order they were created, which is the order [caches.match]
    searches them in. *)
Abbreviation Cache := (gmap jsstring Response).
Abbreviation CacheStorage := (list (jsstring * Cache)).

(** The URLs of the worker are paths; they are resolved against the
    origin the worker is served from. *)
Definition resolve (origin path : jsstring) : jsstring := origin ++ path.

Definition has_cache (name : jsstring) (storage : CacheStorage) : bool :=
  bool_decide (name ∈ storage.*1).

(** [caches.open(name)]: the cache is created when it is missing. *)
Definition caches_open (name : jsstring) (storage : CacheStorage) : CacheStorage :=
  if has_cache name storage then storage else storage ++ [(name, ∅)].

(** [caches.delete(name)] *)
Definition caches_delete (name : jsstring) (storage : CacheStorage)
    : CacheStorage :=
  filter (λ entry, entry.1 ≠ name) storage.

(** [caches.match(url)]: the first cache that has the URL answers. *)
Fixpoint caches_match (url : jsstring) (storage : CacheStorage)
    : option Response :=
  match storage with
  | [] => None
  | (_, cache) :: rest =>
    match cache !! url with
    | Some r => Some r
    | None => caches_match url rest
    end
  end.

(** The requests of [cache.addAll]: every URL is fetched, and one that
    fails or is answered with a status that is not ok fails the whole
    call. *)
Fixpoint fetch_all (network : jsstring → option Response)
    (urls : list jsstring) : option (list (jsstring * Response)) :=
  match urls with
  | [] => Some []
  | url :: rest =>
    match network url with
    | Some r =>
      if ok r then
        match fetch_all network rest with
        | Some fetched => Some ((url, r) :: fetched)
        | None => None
        end
      else None
    | None => None
    end
  end.

(** [cache.put] of every fetched response into the named cache. *)
Definition put_all (name : jsstring) (fetched : list (jsstring * Response))
    (storage : CacheStorage) : CacheStorage :=
  (λ entry, if bool_decide (entry.1 = name)
            then (entry.1, foldl (λ c kv, <[kv.1 := kv.2]> c) entry.2 fetched)
            else entry) <$> storage.

(** The [install] listener: the storage it leaves and whether the
    promise given to [waitUntil] is fulfilled, in which case
    [skipWaiting] has been called. *)
Definition on_install (origin : jsstring)
    (network : jsstring → option Response) (storage : CacheStorage)
    : CacheStorage * bool :=
  let storage := caches_open CACHE_NAME storage in
  match fetch_all network (resolve origin <$> CACHE_ASSETS) with
  | Some fetched => (put_all CACHE_NAME fetched storage, true)
  | None => (storage, false)
  end.

(** The [activate] listener: [caches.keys()], then a [delete] for every
    name but the current one. *)
Definition on_activate (storage : CacheStorage) : CacheStorage :=
  foldl (λ storage cacheName,
           if bool_decide (cacheName ≠ CACHE_NAME)
           then caches_delete cacheName storage else storage)
        storage storage.*1.

(** [hay.includes(needle)] *)
Fixpoint includes (needle hay : jsstring) : bool :=
  starts_with needle hay
  || match hay with
     | [] => false
     | _ :: rest => includes needle rest
     end.

Record Request := { method : jsstring; url : jsstring; mode : jsstring }.

(** What the [fetch] listener does with a request: it leaves it to the
    browser, or it answers it, with a response or with nothing (which the
    page sees as a network error). *)
Inductive Handling :=
| PassThrough
| Respond (r : option Response).

(** [network] is what [fetch(event.request)] settles to, [None] for a
    rejection. *)
Definition on_fetch (origin : jsstring) (storage : CacheStorage)
    (request : Request) (network : option Response) : Handling :=
  if bool_decide (method request ≠ js "GET") then PassThrough
  else if includes (js "/api/") (url request) then PassThrough
  else
    Respond
      match network with
      | Some r => Some r
      | None =>
        match caches_match (url request) storage with
        | Some r => Some r
        | None =>
          if bool_decide (mode request = js "navigate")
          then caches_match (resolve origin OFFLINE_URL) storage
          else None
        end
      end.

(** *** Activation *)

Definition step_activate (storage : CacheStorage) (cacheName : jsstring)
    : CacheStorage :=
  if bool_decide (cacheName ≠ CACHE_NAME)
  then caches_delete cacheName storage else storage.

(** An entry survives the deletion of the caches named in [names]. *)
Definition survives (names : list jsstring) (entry : jsstring * Cache) : Prop :=
  entry.1 = CACHE_NAME ∨ entry.1 ∉ names.

Lemma foldl_activate_nil names : foldl step_activate [] names = [].
Proof.
  induction names as [|n names IH]; [done|]. simpl.
  unfold step_activate at 2. by case_bool_decide.
Qed.

Lemma foldl_activate_cons entry storage names :
  foldl step_activate (entry :: storage) names
  = (if decide (survives names entry) then [entry] else [])
    ++ foldl step_activate storage names.
Proof.
  revert entry storage. induction names as [|n names IH]; intros entry storage.
  - simpl. rewrite decide_True; [done|]. right. apply not_elem_of_nil.
  - simpl. unfold step_activate at 2 4. case_bool_decide as Hn.
    + unfold caches_delete. rewrite (filter_cons _ entry storage).
      case_decide as He.
      * rewrite IH. f_equal. unfold survives.
        destruct (decide (entry.1 = CACHE_NAME ∨ entry.1 ∉ names)) as [Hs|Hs].
        -- rewrite decide_True; [done|]. destruct Hs as [?|?]; [by left|].
           right. by apply not_elem_of_cons.
        -- rewrite decide_False; [done|]. intros [?|Hnot]; apply Hs; [by left|].
           right. by apply not_elem_of_cons in Hnot as [_ ?].
      * rewrite decide_False; [done|].
        unfold survives. intros [?|Hnot]; [congruence|].
        apply not_elem_of_cons in Hnot as [? _]. done.
    + subst n. rewrite IH. f_equal. unfold survives.
      destruct (decide (entry.1 = CACHE_NAME ∨ entry.1 ∉ names)) as [Hs|Hs].
      * rewrite decide_True; [done|]. destruct Hs as [?|?]; [by left|].
        destruct (decide (entry.1 = CACHE_NAME)); [by left|].
        right. by apply not_elem_of_cons.
      * rewrite decide_False; [done|]. intros [?|Hnot]; apply Hs; [by left|].
        right. by apply not_elem_of_cons in Hnot as [_ ?].
Qed.

Lemma foldl_activate names storage :
  foldl step_activate storage names = filter (survives names) storage.
Proof.
  induction storage as [|entry storage IH].
  - apply foldl_activate_nil.
  - rewrite foldl_activate_cons, IH, (filter_cons _ entry storage).
    by case_decide.
Qed.

Lemma filter_agree {A} (P Q : A → Prop) `{∀ x, Decision (P x)}
    `{∀ x, Decision (Q x)} (l : list A) :
  (∀ x, x ∈ l → P x ↔ Q x) → filter P l = filter Q l.
Proof.
  induction l as [|x l IH]; intros Hpq; [done|].
  rewrite !filter_cons.
  rewrite IH by (intros y Hy; apply Hpq; by right).
  pose proof (Hpq x (list_elem_of_here _ _)) as Hx.
  repeat case_decide; tauto.
Qed.

(** X23.  [activate] leaves the storage with the current cache alone: every
    cache under another name is deleted, and the current cache, if there
    is one, is kept with what it holds. *)
Theorem activate_keeps_current_cache_only storage :
  on_activate storage = filter (λ entry, entry.1 = CACHE_NAME) storage
  ∧ (∀ name cache, (name, cache) ∈ on_activate storage
                   ↔ name = CACHE_NAME ∧ (name, cache) ∈ storage)
  ∧ on_activate (on_activate storage) = on_activate storage.
Proof.
  assert (H1 : ∀ st : CacheStorage,
    on_activate st = filter (λ entry, entry.1 = CACHE_NAME) st).
  { intros st. unfold on_activate. fold step_activate.
    rewrite foldl_activate. apply filter_agree.
    intros entry Hin. unfold survives. split; [|by left].
    intros [?|Hnot]; [done|]. destruct Hnot.
    apply list_elem_of_fmap. by exists entry. }
  split_and!.
  - apply H1.
  - intros name cache. rewrite H1, list_elem_of_filter. done.
  - rewrite !H1. by apply list_filter_filter_r.
Qed.

(** *** Installation *)

Definition store (cache : Cache) (fetched : list (jsstring * Response)) : Cache :=
  foldl (λ c kv, <[kv.1 := kv.2]> c) cache fetched.

Lemma fetch_all_Some network urls fetched :
  fetch_all network urls = Some fetched →
  fetched.*1 = urls
  ∧ Forall (λ kv, network kv.1 = Some kv.2 ∧ ok kv.2 = true) fetched.
Proof.
  revert fetched. induction urls as [|u urls IH]; intros fetched; simpl.
  - by intros [= <-].
  - destruct (network u) as [r|] eqn:Hu; [|done].
    destruct (ok r) eqn:Hr; [|done].
    destruct (fetch_all network urls) as [rest|]; [|done].
    intros [= <-]. destruct (IH rest eq_refl) as [IH1 IH2].
    split; [rewrite fmap_cons; by f_equal | by constructor].
Qed.

Lemma fetch_all_is_Some network urls :
  is_Some (fetch_all network urls)
  ↔ ∀ u, u ∈ urls → ∃ r, network u = Some r ∧ ok r = true.
Proof.
  induction urls as [|u urls IH]; simpl.
  - split; [by intros _ u ?%elem_of_nil | by eexists].
  - split.
    + intros Hs v Hv.
      destruct (network u) as [r|] eqn:Hu; [|by destruct Hs].
      destruct (ok r) eqn:Hr; [|by destruct Hs].
      destruct (fetch_all network urls) as [rest|] eqn:Hrest;
        [|by destruct Hs].
      apply elem_of_cons in Hv as [->|Hv]; [by eauto|].
      apply IH; [by eexists | done].
    + intros Hall.
      destruct (Hall u (list_elem_of_here _ _)) as (r & -> & ->).
      destruct (proj2 IH) as [rest ->]; [|by eexists].
      intros v Hv. apply Hall. by right.
Qed.

Lemma store_lookup_other cache fetched u :
  u ∉ fetched.*1 → store cache fetched !! u = cache !! u.
Proof.
  revert cache. induction fetched as [|kv rest IH]; intros cache Hu; [done|].
  simpl in *. apply not_elem_of_cons in Hu as [Hne Hu].
  unfold store in *. simpl. rewrite IH by done. by apply lookup_insert_ne.
Qed.

Lemma store_lookup network cache fetched u :
  Forall (λ kv, network kv.1 = Some kv.2) fetched →
  u ∈ fetched.*1 → store cache fetched !! u = network u.
Proof.
  intros Hall. revert cache.
  induction Hall as [|kv rest Hkv _ IH]; intros cache Hu.
  - by apply elem_of_nil in Hu.
  - unfold store in *. simpl.
    destruct (decide (u ∈ rest.*1)) as [Hin|Hout]; [by apply IH|].
    simpl in Hu. apply elem_of_cons in Hu as [->|?]; [|done].
    pose proof (store_lookup_other (<[kv.1:=kv.2]> cache) rest kv.1 Hout) as E.
    unfold store in E. rewrite E, lookup_insert_eq. done.
Qed.

Lemma put_all_names name fetched storage :
  (put_all name fetched storage).*1 = storage.*1.
Proof.
  unfold put_all. rewrite <- list_fmap_compose. apply list_fmap_ext.
  intros _ entry _. simpl. by case_bool_decide.
Qed.

Lemma elem_of_put_all name fetched storage n cache :
  (n, cache) ∈ put_all name fetched storage
  ↔ ∃ old, (n, old) ∈ storage
           ∧ cache = if bool_decide (n = name) then store old fetched else old.
Proof.
  unfold put_all. rewrite list_elem_of_fmap. split.
  - intros ([n0 old] & E & Hin). simpl in E.
    case_bool_decide as Hn; simplify_eq.
    + exists old. by rewrite bool_decide_true.
    + exists old. by rewrite bool_decide_false.
  - intros (old & Hin & ->). exists (n, old). split; [|done]. simpl.
    by case_bool_decide.
Qed.

Lemma caches_open_names name storage :
  name ∈ (caches_open name storage).*1.
Proof.
  unfold caches_open, has_cache. case_bool_decide as Hin; [done|].
  rewrite fmap_app. apply elem_of_app. right. apply list_elem_of_here.
Qed.

(** X24.  [install] is all or nothing.  It succeeds exactly when every asset is
    fetched with an ok status, and then every asset is in the current
    cache with the response just fetched; when one asset fails, the
    install fails and no response is stored at all.  In both cases the
    current cache exists afterwards and no other cache is touched. *)
Theorem install_is_all_or_nothing origin network storage :
  let urls := resolve origin <$> CACHE_ASSETS in
  let storage' := (on_install origin network storage).1 in
  let installed := (on_install origin network storage).2 in
  (installed = true ↔ ∀ u, u ∈ urls → ∃ r, network u = Some r ∧ ok r = true)
  ∧ (if installed
     then ∀ cache u, (CACHE_NAME, cache) ∈ storage' → u ∈ urls →
                     cache !! u = network u
     else storage' = caches_open CACHE_NAME storage)
  ∧ CACHE_NAME ∈ storage'.*1
  ∧ (∀ name cache, name ≠ CACHE_NAME →
       (name, cache) ∈ storage' ↔ (name, cache) ∈ storage).
Proof.
  intros urls storage' installed. subst storage' installed.
  unfold on_install. fold urls.
  pose proof (fetch_all_is_Some network urls) as Hs.
  assert (Hopen : ∀ name cache, name ≠ CACHE_NAME →
    (name, cache) ∈ caches_open CACHE_NAME storage ↔ (name, cache) ∈ storage).
  { intros name cache Hne. unfold caches_open. destruct (has_cache _ _); [done|].
    rewrite elem_of_app, list_elem_of_singleton.
    split; [intros [?|[= ? ?]]; [done|congruence] | by left]. }
  destruct (fetch_all network urls) as [fetched|] eqn:Hf; simpl.
  - destruct (fetch_all_Some _ _ _ Hf) as [Hk Hall].
    split_and!.
    + split; [intros _; apply Hs; by eexists | done].
    + intros cache u Hin Hu.
      apply elem_of_put_all in Hin as (old & _ & ->).
      rewrite bool_decide_true by done.
      apply store_lookup; [|by rewrite Hk].
      eapply Forall_impl; [exact Hall|]. by intros kv [? _].
    + rewrite put_all_names. apply caches_open_names.
    + intros name cache Hne. rewrite elem_of_put_all. rewrite <- Hopen by done.
      split.
      * intros (old & Hin & ->). by rewrite bool_decide_false.
      * intros Hin. exists cache. by rewrite bool_decide_false.
  - split_and!.
    + split; [done|]. intros Hall. apply Hs in Hall. by destruct Hall.
    + done.
    + apply caches_open_names.
    + apply Hopen.
Qed.

(** *** Answering requests *)

Lemma starts_with_spec p s : starts_with p s = true ↔ ∃ post, s = p ++ post.
Proof.
  unfold starts_with. rewrite bool_decide_eq_true. split.
  - intros E. exists (drop (length p) s).
    rewrite <- E at 1. by rewrite take_drop.
  - intros [post ->]. by rewrite take_app_length.
Qed.

Lemma includes_spec needle hay :
  includes needle hay = true ↔ ∃ pre post, hay = pre ++ needle ++ post.
Proof.
  induction hay as [|c hay IH]; simpl.
  - rewrite orb_false_r, starts_with_spec. split.
    + intros [post E]. by exists [], post.
    + intros (pre & post & E). symmetry in E.
      apply app_eq_nil in E as [-> E]. by exists post.
  - rewrite orb_true_iff, starts_with_spec, IH. split.
    + intros [[post E]|(pre & post & E)].
      * by exists [], post.
      * exists (c :: pre), post. by rewrite E.
    + intros (pre & post & E). destruct pre as [|d pre].
      * left. by exists post.
      * right. simpl in E. injection E as -> E. by exists pre, post.
Qed.

(** X25.  The worker keeps its hands off every request that is not a GET and
    off every request whose URL has [/api/] anywhere in it, the query
    string included: those go to the network as if there were no worker,
    whatever is cached.  Every other request is answered by the worker. *)
Theorem api_requests_bypass_the_worker origin storage request network :
  on_fetch origin storage request network = PassThrough
  ↔ method request ≠ js "GET"
    ∨ ∃ pre post, url request = pre ++ js "/api/" ++ post.
Proof.
  unfold on_fetch. rewrite <- includes_spec.
  case_bool_decide as Hm.
  - split; [by left | done].
  - destruct (includes (js "/api/") (url request)).
    + split; [by right | done].
    + split; [done|]. intros [?|?]; done.
Qed.




(** *** A worker in use *)

Definition portal : jsstring := js "https://portal.example".

Definition page (body : string) : Response :=
  {| status := 200; payload := js body |}.

(** Every asset is served. *)
Definition all_up (u : jsstring) : option Response :=
  if bool_decide (u = resolve portal OFFLINE_URL) then Some (page "offline")
  else Some (page "asset").

(** The stylesheet is missing. *)
Definition css_missing (u : jsstring) : option Response :=
  if bool_decide (u = resolve portal (js "/static/css/style.css"))
  then Some {| status := 404; payload := [] |}
  else all_up u.

Definition old_storage : CacheStorage :=
  [(js "school-portal-v0", {[ resolve portal (js "/old") := page "old" ]})].

Example failed_install_stores_nothing :
  on_install portal css_missing old_storage
  = (old_storage ++ [(CACHE_NAME, ∅)], false).
Proof. vm_compute. reflexivity. Qed.

Example activate_drops_the_old_cache :
  (on_activate (on_install portal all_up old_storage).1).*1 = [CACHE_NAME].
Proof. vm_compute. reflexivity. Qed.

Example query_string_with_api_is_bypassed :
  on_fetch portal old_storage
    {| method := js "GET"; url := portal ++ js "/old?next=/api/x";
       mode := js "navigate" |} None
  = PassThrough.
Proof. reflexivity. Qed.


(** *** Clicks on a notification *)

Section Clicks.
Context `{JsNumber}.

Abbreviation Value := ServiceWorker.Value.

(** A window the worker can see: [client.url] and ['focus' in client]. *)
Record WindowClient := { client_url : jsstring; has_focus : bool }.

(** The calls the listener makes, windows by their position in the list
    [clients.matchAll] returned. *)
Inductive Effect :=
| Close
| Navigate (window : nat) (target : Value)
| Focus (window : nat)
| OpenWindow (target : Value).

(** [event.notification.data?.url || '/'] *)
Definition urlToOpen (data : Value) : Value :=
  ServiceWorker.or_default
    match data with
    | ServiceWorker.Null | ServiceWorker.Undefined => ServiceWorker.Undefined
    | _ =>
      default ServiceWorker.Undefined
        (ServiceWorker.own_properties data !! js "url")
    end
    (ServiceWorker.String (js "/")).

(** The test of the [for] loop. *)
Definition usable (origin : jsstring) (client : WindowClient) : Prop :=
  includes origin (client_url client) = true ∧ has_focus client = true.

#[local] Instance usable_dec origin client : Decision (usable origin client).
Proof. unfold usable. apply _. Defined.

(** The [notificationclick] listener.  [can_open] tells whether
    [clients.openWindow] exists. *)
Definition on_notificationclick (action : jsstring) (data : Value)
    (origin : jsstring) (windowClients : list WindowClient)
    (can_open : bool) : list Effect :=
  Close ::
  if bool_decide (action = js "dismiss") then []
  else
    let target := urlToOpen data in
    match list_find (usable origin) windowClients with
    | Some (i, _) => [Navigate i target; Focus i]
    | None => if can_open then [OpenWindow target] else []
    end.

(** X27.  A click always closes the notification, and then does one thing at
    most.  The action [dismiss] does nothing more.  Any other click takes
    the first window of the portal that can be focused, sends it to the
    target and focuses it; only when there is no such window is a new one
    opened.  No window is both navigated and opened, and no second window
    is touched. *)
Theorem click_uses_first_window_or_opens_one action data origin windows can_open :
  let effects := on_notificationclick action data origin windows can_open in
  if bool_decide (action = js "dismiss") then effects = [Close]
  else
    (∃ i client,
        effects = [Close; Navigate i (urlToOpen data); Focus i]
        ∧ windows !! i = Some client
        ∧ usable origin client
        ∧ ∀ j other, windows !! j = Some other → j < i → ¬ usable origin other)
    ∨ (Forall (λ client, ¬ usable origin client) windows
       ∧ effects = Close :: if can_open then [OpenWindow (urlToOpen data)] else []).
Proof.
  unfold on_notificationclick. case_bool_decide as Ha; [done|].
  destruct (list_find (usable origin) windows) as [[i client]|] eqn:Hf.
  - left. apply list_find_Some in Hf as (Hi & Hu & Hbefore).
    exists i, client. split_and!; try done.
  - right. by apply list_find_None in Hf.
Qed.

(** X28.  The target of a click is what the push payload said: the [url] of
    the payload's [data] when the payload is JSON, its [data] is truthy and
    has a truthy [url], and the root of the portal in every other case, a
    push without payload or with a payload that is no JSON included. *)
Theorem click_opens_the_pushed_url event_data :
  let shown := ServiceWorker.on_push event_data [] in
  ∃ title options,
    shown = [(title, options)]
    ∧ urlToOpen (ServiceWorker.data options)
      = match event_data ≫= ServiceWorker.json with
        | Some payload =>
          match ServiceWorker.own_properties payload !! js "data" with
          | Some d =>
            match (if ServiceWorker.truthy d
                   then ServiceWorker.own_properties d !! js "url"
                   else None) with
            | Some u =>
              if ServiceWorker.truthy u then u
              else ServiceWorker.String (js "/")
            | None => ServiceWorker.String (js "/")
            end
          | None => ServiceWorker.String (js "/")
          end
        | None => ServiceWorker.String (js "/")
        end.
Proof.
  destruct ServiceWorker.get_initial as (_ & _ & _ & _ & _ & Hd & _).
  assert (Hurl : ∀ d, ServiceWorker.truthy d = true →
    urlToOpen d
    = match ServiceWorker.own_properties d !! js "url" with
      | Some u =>
        if ServiceWorker.truthy u then u else ServiceWorker.String (js "/")
      | None => ServiceWorker.String (js "/")
      end).
  { intros d Ht. unfold urlToOpen.
    destruct d; try discriminate; simpl;
      by destruct (_ !! js "url") as [u|]. }
  eexists _, _. split; [reflexivity|]. simpl.
  destruct event_data as [d|]; simpl.
  - destruct (ServiceWorker.json d) as [payload|]; simpl.
    + rewrite ServiceWorker.get_spread, Hd.
      rewrite ServiceWorker.or_default_overridden.
      unfold ServiceWorker.overridden_if_truthy.
      destruct (_ !! js "data") as [v|]; [|done].
      destruct (ServiceWorker.truthy v) eqn:Hv; [|done].
      by apply Hurl.
    + rewrite ServiceWorker.get_body_text.
      rewrite decide_False by done. by rewrite Hd.
  - by rewrite Hd.
Qed.

End Clicks.

Definition window_at (u : string) : WindowClient :=
  {| client_url := js u; has_focus := true |}.

Example click_reuses_the_portal_window :
  on_notificationclick (H:=rational_numbers) (js "view")
    (ServiceWorker.Object {[ js "url" := ServiceWorker.String (js "/chat/3") ]})
    portal
    [window_at "https://other.example/"; window_at "https://portal.example/home";
     window_at "https://portal.example/chat/1"]
    true
  = [Close; Navigate 1 (ServiceWorker.String (js "/chat/3")); Focus 1].
Proof. reflexivity. Qed.

Example dismiss_only_closes :
  on_notificationclick (H:=rational_numbers) (js "dismiss")
    ServiceWorker.Null portal [window_at "https://portal.example/home"] true
  = [Close].
Proof. reflexivity. Qed.

End Worker.

(** ** The chat page over whole runs

    What holds of the transcript across handlers: the placeholder of an
    empty conversation, and ticks of the timer that overlap. *)

Module Conversation.
Import JsString Chat.

Section Runs.

Variable sgt_hhmm : jsstring → jsstring.

(** The placeholder is never put back, and the transcript changes only
    when the placeholder is gone. *)
Definition placeholder_rule (w w' : World) : Prop :=
  (empty_state w = false → empty_state w' = false)
  ∧ (empty_state w' = false ∨ container w' = container w).

Lemma placeholder_rule_same w w' :
  empty_state w' = empty_state w → container w' = container w →
  placeholder_rule w w'.
Proof. intros E1 E2. split; [congruence | by right]. Qed.

Lemma placeholder_rule_gone w w' :
  empty_state w' = false → placeholder_rule w w'.
Proof. intros E. split; [done | by left]. Qed.

Lemma placeholder_rule_trans w1 w2 w3 :
  placeholder_rule w1 w2 → placeholder_rule w2 w3 → placeholder_rule w1 w3.
Proof.
  intros [H1 H1'] [H2 H2']. split; [auto|].
  destruct H2' as [?|E3]; [by left|].
  destruct H1' as [E|E2]; [left; auto | right; congruence].
Qed.

Lemma submit_all_placeholder ts w :
  empty_state (foldl (λ w t, submit_begin t w) w ts) = empty_state w.
Proof.
  revert w. induction ts as [|t ts IH]; intros w; [done|].
  simpl. rewrite IH. unfold submit_begin. by destruct (falsy _).
Qed.

Lemma submit_resume_placeholder message r w :
  placeholder_rule w (submit_resume sgt_hhmm message r w).
Proof.
  destruct r as [|[[] e]]; simpl; unfold showToast;
    try (destruct (toast_el w); by apply placeholder_rule_same).
  by apply placeholder_rule_gone.
Qed.

Lemma tick_resume_placeholder h r w :
  placeholder_rule w (tick_resume sgt_hhmm h r w).
Proof.
  destruct r as [|[feed]]; [by apply placeholder_rule_same|].
  destruct feed as [[|m ms]|]; try (by apply placeholder_rule_same).
  destruct (closures w !! h) as [c|] eqn:Hc.
  2:{ apply placeholder_rule_same; unfold tick_resume; simpl messages;
      by rewrite Hc. }
  rewrite (tick_resume_feed sgt_hhmm h c m ms w Hc).
  by apply placeholder_rule_gone.
Qed.

Lemma step_placeholder ev w : placeholder_rule w (step sgt_hhmm w ev).
Proof.
  destruct ev as [v|now|b|t l| |rid r|h|rid r| |]; simpl;
    try (by apply placeholder_rule_same).
  - unfold initChat. destruct (_ || _); by apply placeholder_rule_same.
  - apply placeholder_rule_same; [apply submit_all_placeholder|].
    apply submit_all_quiet.
  - destruct (pending w !! rid) as [[m|h]|];
      try (by apply placeholder_rule_same).
    apply (placeholder_rule_trans _ (set_pending (delete rid (pending w)) w));
      [by apply placeholder_rule_same | apply submit_resume_placeholder].
  - destruct (intervals w !! h); [|by apply placeholder_rule_same].
    unfold tick_begin. destruct (closures w !! h); [|by apply placeholder_rule_same].
    destruct (poll_request _ _); by apply placeholder_rule_same.
  - destruct (pending w !! rid) as [[m|h]|];
      try (by apply placeholder_rule_same).
    apply (placeholder_rule_trans _ (set_pending (delete rid (pending w)) w));
      [by apply placeholder_rule_same | apply tick_resume_placeholder].
  - unfold stopPolling. destruct (pollInterval w); by apply placeholder_rule_same.
  - unfold stopPolling. destruct (pollInterval w); by apply placeholder_rule_same.
Qed.

Lemma run_placeholder evs w : placeholder_rule w (run sgt_hhmm w evs).
Proof.
  revert w. induction evs as [|ev evs IH]; intros w.
  - by apply placeholder_rule_same.
  - simpl. eapply placeholder_rule_trans; [apply step_placeholder | apply IH].
Qed.

Lemma transcript_grows_trans w1 w2 w3 :
  transcript_grows w1 w2 → transcript_grows w2 w3 → transcript_grows w1 w3.
Proof.
  unfold transcript_grows. destruct (container w1) as [kids|].
  - intros (a1 & -> & F1) (a2 & -> & F2). exists (a1 ++ a2).
    split; [by rewrite app_assoc | by apply Forall_app].
  - by intros ->.
Qed.

Lemma run_transcript evs w : transcript_grows w (run sgt_hhmm w evs).
Proof.
  revert w. induction evs as [|ev evs IH]; intros w.
  - by apply transcript_same.
  - simpl. eapply transcript_grows_trans; [apply step_transcript | apply IH].
Qed.

(** X29.  Whatever happens on the chat page, its transcript only grows at
    the end and only by bubbles of [addMessage]; the placeholder of the
    empty conversation is gone as soon as one bubble has been added, and
    once gone it does not come back. *)
Theorem placeholder_goes_with_the_first_bubble w evs kids :
  container w = Some kids →
  ∃ added,
    container (run sgt_hhmm w evs) = Some (kids ++ added)
    ∧ Forall rendered added
    ∧ (added ≠ [] → empty_state (run sgt_hhmm w evs) = false)
    ∧ (empty_state w = false → empty_state (run sgt_hhmm w evs) = false).
Proof.
  intros Hk.
  pose proof (run_transcript evs w) as Hg.
  destruct (run_placeholder evs w) as [Hm Hc].
  unfold transcript_grows in Hg. rewrite Hk in Hg.
  destruct Hg as (added & Ha & Hr). exists added.
  split_and!; try done.
  intros Hne. destruct Hc as [?|Hc]; [done|].
  rewrite Ha, Hk in Hc. simplify_eq.
  destruct Hne. apply (app_inv_head kids). by rewrite app_nil_r.
Qed.

(** *** Ticks that overlap *)

Lemma step_Timer h c d req w :
  intervals w !! h = Some d →
  closures w !! h = Some c →
  poll_request (teacherId c) (since c) = Some req →
  step sgt_hhmm w (Timer h) = fetch req (AwaitPoll h) w.
Proof.
  intros Hi Hc Hr. simpl. rewrite Hi. unfold tick_begin. by rewrite Hc, Hr.
Qed.

Lemma step_PollSettled rid h c m ms w :
  pending w !! rid = Some (AwaitPoll h) →
  closures w !! h = Some c →
  step sgt_hhmm w (PollSettled rid (Json {| messages := Some (m :: ms) |}))
  = after_messages sgt_hhmm h (teacherId c) (m :: ms)
      (remove_empty_state (set_pending (delete rid (pending w)) w)).
Proof.
  intros Hp Hc. simpl step. rewrite Hp.
  by apply (tick_resume_feed sgt_hhmm h c m ms (set_pending _ w)).
Qed.

Lemma received_bubble_clock w w' m :
  clock w' = clock w →
  received_bubble sgt_hhmm w' m = received_bubble sgt_hhmm w m.
Proof.
  intros E. unfold received_bubble, formatTimeSGT. by rewrite E.
Qed.

(** The world after a reply with feed [m :: ms] has settled for request
    [rid] of timer [h]. *)
Lemma settled_poll rid h c m ms w kids :
  pending w !! rid = Some (AwaitPoll h) →
  closures w !! h = Some c →
  container w = Some kids →
  let w' :=
    step sgt_hhmm w (PollSettled rid (Json {| messages := Some (m :: ms) |})) in
  ∃ m_last,
    last (m :: ms) = Some m_last
    ∧ closures w' !! h = Some (advance (timestamp m_last) c)
    ∧ container w'
      = Some (kids ++ (received_bubble sgt_hhmm w <$> incoming (m :: ms)))
    ∧ pending w' = delete rid (pending w)
    ∧ network w' = network w
    ∧ clock w' = clock w
    ∧ intervals w' = intervals w.
Proof.
  intros Hp Hc Hk w'. subst w'.
  rewrite (step_PollSettled rid h c m ms w Hp Hc).
  assert (is_Some (last (m :: ms))) as [m_last Hl] by (by apply last_is_Some).
  exists m_last. split; [done|].
  unfold after_messages. rewrite Hl.
  split_and!; try done.
  - simpl. by rewrite lookup_alter_eq, Hc.
  - simpl. by rewrite Hk.
Qed.

(** X30.  Two ticks in a row, both before any reply, send the same request,
    and both replies are rendered, one after the other in the order in
    which they settle: a message that is in both is shown twice.  [since]
    ends on the last timestamp of the reply that settled last, whichever
    of the two requests it answers. *)
Theorem overlapping_ticks_render_twice h c d req w kids rA rB mA msA mB msB :
  intervals w !! h = Some d →
  closures w !! h = Some c →
  poll_request (teacherId c) (since c) = Some req →
  container w = Some kids →
  let r1 := length (network w) in
  let r2 := S (length (network w)) in
  (rA = r1 ∧ rB = r2) ∨ (rA = r2 ∧ rB = r1) →
  let feedA := mA :: msA in
  let feedB := mB :: msB in
  let w' :=
    run sgt_hhmm w
      [ Timer h; Timer h;
        PollSettled rA (Json {| messages := Some feedA |});
        PollSettled rB (Json {| messages := Some feedB |}) ] in
  network w' = network w ++ [req; req]
  ∧ container w'
    = Some (kids ++ (received_bubble sgt_hhmm w <$> incoming feedA)
                 ++ (received_bubble sgt_hhmm w <$> incoming feedB))
  ∧ (∃ m_last, last feedB = Some m_last
       ∧ since <$> closures w' !! h = Some (timestamp m_last))
  ∧ pending w' !! r1 = None
  ∧ pending w' !! r2 = None.
Proof.
  intros Hi Hc Hr Hk r1 r2 Hids feedA feedB w'. subst feedA feedB.
  set (w1 := fetch req (AwaitPoll h) w).
  set (w2 := fetch req (AwaitPoll h) w1).
  assert (Hn2 : network w2 = network w ++ [req; req]).
  { simpl. by rewrite <- app_assoc. }
  assert (Hp1 : pending w2 !! r1 = Some (AwaitPoll h)).
  { simpl. rewrite length_app. simpl.
    rewrite lookup_insert_ne by (subst r1; lia). apply lookup_insert_eq. }
  assert (Hp2 : pending w2 !! r2 = Some (AwaitPoll h)).
  { simpl. rewrite length_app. simpl. rewrite Nat.add_1_r.
    apply lookup_insert_eq. }
  assert (HpA : pending w2 !! rA = Some (AwaitPoll h))
    by (destruct Hids as [[-> _]|[-> _]]; done).
  assert (HpB : pending w2 !! rB = Some (AwaitPoll h))
    by (destruct Hids as [[_ ->]|[_ ->]]; done).
  assert (Hne : rA ≠ rB) by (destruct Hids as [[-> ->]|[-> ->]]; subst r1 r2; lia).
  assert (Hw' : w' =
    step sgt_hhmm
      (step sgt_hhmm w2
         (PollSettled rA (Json {| messages := Some (mA :: msA) |})))
      (PollSettled rB (Json {| messages := Some (mB :: msB) |}))).
  { subst w'. unfold run. cbn [foldl].
    rewrite (step_Timer h c d req w Hi Hc Hr).
    by rewrite (step_Timer h c d req (fetch req (AwaitPoll h) w) Hi Hc Hr). }
  destruct (settled_poll rA h c mA msA w2 kids HpA Hc Hk)
    as (lastA & HlA & HcA & HkA & HpA' & HnA & HclA & _).
  set (w3 := step sgt_hhmm w2 _) in *.
  assert (HpB3 : pending w3 !! rB = Some (AwaitPoll h)).
  { rewrite HpA'. by rewrite lookup_delete_ne. }
  destruct (settled_poll rB h _ mB msB w3 _ HpB3 HcA HkA)
    as (lastB & HlB & HcB & HkB & HpB' & HnB & _).
  rewrite Hw'.
  split_and!.
  - by rewrite HnB, HnA.
  - rewrite HkB, <- app_assoc. do 3 f_equal.
    apply list_fmap_ext. intros _ m _. by apply received_bubble_clock.
  - exists lastB. split; [done|]. by rewrite HcB.
  - rewrite HpB', HpA'.
    destruct Hids as [[-> ->]|[-> ->]].
    + rewrite lookup_delete_ne by done. apply lookup_delete_eq.
    + apply lookup_delete_eq.
  - rewrite HpB', HpA'.
    destruct Hids as [[-> ->]|[-> ->]].
    + apply lookup_delete_eq.
    + rewrite lookup_delete_ne by done. apply lookup_delete_eq.
Qed.

End Runs.

(** *** The conversation of the page in use, not yet started *)

Definition empty_chat : World := set_empty_state true chat_page.

Definition hello : Message := teacher_says "hello" "10:00".

Lemma placeholder_goes_with_the_first_bubble_witness :
  container empty_chat = Some []
  ∧ ∃ added,
      container
        (run shown_as_is empty_chat
           [Timer 1; PollSettled 0 (Json {| messages := Some [hello] |})])
      = Some ([] ++ added)
      ∧ Forall rendered added
      ∧ (added ≠ [] →
         empty_state
           (run shown_as_is empty_chat
              [Timer 1; PollSettled 0 (Json {| messages := Some [hello] |})])
         = false)
      ∧ (empty_state empty_chat = false →
         empty_state
           (run shown_as_is empty_chat
              [Timer 1; PollSettled 0 (Json {| messages := Some [hello] |})])
         = false).
Proof.
  split; [reflexivity|].
  exact (placeholder_goes_with_the_first_bubble shown_as_is empty_chat
    [Timer 1; PollSettled 0 (Json {| messages := Some [hello] |})] []
    eq_refl).
Defined.

(** The placeholder can go without a bubble: a feed of the student's own
    messages removes it and renders nothing. *)
Example echo_removes_the_placeholder :
  let w :=
    run shown_as_is empty_chat
      [ Timer 1;
        PollSettled 0 (Json {| messages := Some [student_says "hi" "10:01"] |}) ] in
  container w = Some [] ∧ empty_state w = false.
Proof. split; reflexivity. Qed.

Lemma overlapping_ticks_render_twice_witness :
  let w' :=
    run shown_as_is empty_chat
      [ Timer 1; Timer 1;
        PollSettled 1 (Json {| messages := Some [hello] |});
        PollSettled 0 (Json {| messages := Some [hello] |}) ] in
  network w' = [PollMessages (js "T1") None; PollMessages (js "T1") None]
  ∧ container w'
    = Some [msgDiv (js "hello") false (js "10:00");
            msgDiv (js "hello") false (js "10:00")].
Proof.
  intros w'.
  destruct (overlapping_ticks_render_twice shown_as_is 1
    {| teacherId := js "T1"; since := [] |} 3000 (PollMessages (js "T1") None)
    empty_chat [] 1 0 hello [] hello []
    eq_refl eq_refl eq_refl eq_refl (or_intror (conj eq_refl eq_refl)))
    as (H1 & H2 & _).
  exact (conj H1 H2).
Defined.

End Conversation.
